(** * avrocado: Avro marshalling of Go values behind a schema registry

    A shallow embedding of the Go package [avro] of leboncoin/avrocado:
    the type-name translator and the union hooks of [avro.go], the wire
    header and the registry-backed codec cache of [codec_registry.go], and
    the in-memory registry of [schemaregistry_mock.go].

    Conventions.
    - A Go [byte] is a [Z] in [0, 256); a [[]byte] is a [list Z].
    - A Go [int32] (the type [SchemaID]) is a [Z] in [-2^31, 2^31); the
      conversions that wrap are written out ([int32_of], [uint32_of]).
    - A Go [map[K]V] is a [gmap K V].
    - A Go function returning [(T, error)] returns a [result T]; a run-time
      panic (nil dereference, failed type assertion, failed conversion) is
      the third outcome [Panic]. *)

From Stdlib Require Import ZArith Lia Ascii String.
From coqutil Require Import Z.bitblast.
From stdpp Require Import base option list gmap strings.

#[local] Set Warnings "-register-all".
#[local] Open Scope Z_scope.

(* ===================================================================== *)
(** ** Outcomes of Go calls *)

(** The two sentinel errors of package [io] that [binary.Read] can return
    on a [bytes.Buffer]. *)
Inductive IoErr := EOF | ErrUnexpectedEOF.

(** Go [error] values, as far as the package builds or inspects them.
    [ErrWrap msg e] is [fmt.Errorf(msg + ": %w", e)];
    [ErrMagicByte b] is the error of [Unmarshal] on a header whose first byte
    is [b]; [ErrOther msg] is an error made by a collaborator (goavro,
    mapstructure, the schema registry) or by [fmt.Errorf] without operand. *)
Inductive error :=
| ErrNoEncodeSchema
| ErrIO (e : IoErr)
| ErrWrap (msg : string) (e : error)
| ErrMagicByte (parsed : Z)
| ErrOther (msg : string).

(** The outcome of a call whose errors are of type [Er]. *)
Inductive outcome (Er A : Type) :=
| Ok (a : A)
| Err (e : Er)
| Panic (msg : string).
Arguments Ok {Er A} a.
Arguments Err {Er A} e.
Arguments Panic {Er A} msg.

(** A function of this package returns a [result]: its errors are the
    [error] values above.  A function of a collaborator returns a
    [cresult]: its errors are its own, named here by their message, and
    reach the package as [ErrOther]. *)
Abbreviation result := (outcome error).
Abbreviation cresult := (outcome string).

Definition lift {A} (r : cresult A) : result A :=
  match r with
  | Ok a => Ok a
  | Err msg => Err (ErrOther msg)
  | Panic msg => Panic msg
  end.

Definition rbind {Er A B} (r : outcome Er A) (k : A -> outcome Er B)
    : outcome Er B :=
  match r with
  | Ok a => k a
  | Err e => Err e
  | Panic m => Panic m
  end.

Notation "'try' x <- c 'in' k" := (rbind c (fun x => k))
  (at level 10, x pattern, c at level 100, k at level 200,
   format "'[v' 'try'  x  <-  c  'in' '/' k ']'").

(* ===================================================================== *)
(** ** Type-name translator ([avro.go], lines 16-78) *)

Module CamelCase.
(** [camelcase.Split] of github.com/fatih/camelcase v1.0.0, the library
    [CamelCaseToSnakeCase] calls.  It is not part of this repository; the
    definitions below follow its algorithm on ASCII identifiers: runs of
    one character class (lower, upper, digit, other) are the first cut,
    then the last upper-case letter of a run that precedes a lower-case
    run moves to the front of that run, and empty runs are dropped. *)

Inductive class := Lower | Upper | Digit | Other.

#[export] Instance class_eq_dec : EqDecision class.
Proof. solve_decision. Defined.

Definition code (c : ascii) : N := Ascii.N_of_ascii c.

Definition isLower (c : ascii) : bool := ((97 <=? code c) && (code c <=? 122))%N.
Definition isUpper (c : ascii) : bool := ((65 <=? code c) && (code c <=? 90))%N.
Definition isDigit (c : ascii) : bool := ((48 <=? code c) && (code c <=? 57))%N.

Definition classOf (c : ascii) : class :=
  if isLower c then Lower
  else if isUpper c then Upper
  else if isDigit c then Digit
  else Other.

(** First loop of [Split]: the run under construction is [cur] (in
    order), [lastClass] is the class of its characters. *)
Fixpoint runs (lastClass : class) (cur : list ascii) (src : list ascii)
  : list (list ascii) :=
  match src with
  | [] => [cur]
  | r :: src' =>
      if decide (classOf r = lastClass)
      then runs lastClass (cur ++ [r]) src'
      else cur :: runs (classOf r) [r] src'
  end.

Definition firstRuns (src : list ascii) : list (list ascii) :=
  match src with
  | [] => []
  | r :: src' => runs (classOf r) [r] src'
  end.

Definition startsWith (p : ascii -> bool) (run : list ascii) : bool :=
  match run with
  | c :: _ => p c
  | [] => false
  end.

(** Second loop of [Split]: [cur] is [runes[i]], [rest] begins at
    [runes[i+1]]. *)
Fixpoint fixup (cur : list ascii) (rest : list (list ascii))
  : list (list ascii) :=
  match rest with
  | [] => [cur]
  | nxt :: rest' =>
      if startsWith isUpper cur && startsWith isLower nxt
      then
        match last cur with
        | Some u => removelast cur :: fixup (u :: nxt) rest'
        | None => cur :: fixup nxt rest'
        end
      else cur :: fixup nxt rest'
  end.

Definition Split (src : string) : list string :=
  match firstRuns (list_ascii_of_string src) with
  | [] => []
  | r :: rs =>
      string_of_list_ascii <$>
        filter (fun s => s <> []) (fixup r rs)
  end.
End CamelCase.

(** [strings.ToLower] on ASCII. *)
Definition toLowerAscii (c : ascii) : ascii :=
  if CamelCase.isUpper c
  then Ascii.ascii_of_N (CamelCase.code c + 32)
  else c.

Fixpoint strings_ToLower (s : string) : string :=
  match s with
  | EmptyString => EmptyString
  | String c s' => String (toLowerAscii c) (strings_ToLower s')
  end.

(** [strings.Join]. *)
Fixpoint strings_Join (elems : list string) (sep : string) : string :=
  match elems with
  | [] => ""
  | [s] => s
  | s :: rest => s +:+ sep +:+ strings_Join rest sep
  end.

Definition CamelCaseToSnakeCase (name : string) : string :=
  strings_Join (strings_ToLower <$> CamelCase.Split name) "_".

Definition typeConversion : gmap string string :=
  list_to_map
    [ ("uint8", "int"); ("uint16", "int"); ("uint32", "int");
      ("int8", "int"); ("int16", "int"); ("int32", "int"); ("rune", "int");
      ("uint", "long"); ("int", "long"); ("uint64", "long"); ("int64", "long");
      ("float32", "float"); ("float64", "double"); ("bool", "boolean") ].

Definition avroBaseTypes : list string :=
  [ "null"; "boolean"; "int"; "long"; "float"; "double"; "bytes"; "string" ].

Definition GoToAvroType (name : string) : string :=
  match typeConversion !! name with
  | Some out => out
  | None => name
  end.

Definition DefaultTypeNameEncoder (name : string) : string :=
  CamelCaseToSnakeCase (GoToAvroType name).

Definition AddNamespace (namespace typeName : string) : string :=
  if decide (String.length namespace = 0%nat)
  then typeName
  else namespace +:+ "." +:+ typeName.

Definition isAvroBaseType (avroType : string) : bool :=
  bool_decide (avroType ∈ avroBaseTypes).

(** The assertions of [TestCamelCaseToSnakeCase], [TestDefaultTypeNameEncoder]
    and [TestAddNamespace]. *)
Example test_CamelCaseToSnakeCase :
  CamelCaseToSnakeCase "int" = "int" /\
  CamelCaseToSnakeCase "myObject" = "my_object" /\
  CamelCaseToSnakeCase "MyObject" = "my_object".
Proof. by vm_compute. Qed.

Example test_DefaultTypeNameEncoder :
  DefaultTypeNameEncoder "int" = "long" /\
  DefaultTypeNameEncoder "MyObject" = "my_object" /\
  DefaultTypeNameEncoder "MyURL" = "my_url" /\
  DefaultTypeNameEncoder "LogoImageURL" = "logo_image_url" /\
  DefaultTypeNameEncoder "LogoImageURLs" = "logo_image_ur_ls".
Proof. by vm_compute. Qed.

Example test_AddNamespace :
  AddNamespace "" "mytype" = "mytype" /\
  AddNamespace "test" "mytype" = "test.mytype".
Proof. by vm_compute. Qed.

(* ===================================================================== *)
(** ** Go values as package [reflect] shows them *)

(** [reflect.Kind], in the order of [reflect/type.go]. *)
Inductive Kind :=
| KInvalid | KBool
| KInt | KInt8 | KInt16 | KInt32 | KInt64
| KUint | KUint8 | KUint16 | KUint32 | KUint64 | KUintptr
| KFloat32 | KFloat64 | KComplex64 | KComplex128
| KArray | KChan | KFunc | KInterface | KMap | KPtr | KSlice
| KString | KStruct | KUnsafePointer.

#[export] Instance Kind_eq_dec : EqDecision Kind.
Proof. solve_decision. Defined.

(** The name of a kind, which is also the name of the predeclared type of
    that kind for the scalar kinds ([Kind.String]). *)
Definition kindName (k : Kind) : string :=
  match k with
  | KInvalid => "invalid" | KBool => "bool"
  | KInt => "int" | KInt8 => "int8" | KInt16 => "int16"
  | KInt32 => "int32" | KInt64 => "int64"
  | KUint => "uint" | KUint8 => "uint8" | KUint16 => "uint16"
  | KUint32 => "uint32" | KUint64 => "uint64" | KUintptr => "uintptr"
  | KFloat32 => "float32" | KFloat64 => "float64"
  | KComplex64 => "complex64" | KComplex128 => "complex128"
  | KArray => "array" | KChan => "chan" | KFunc => "func"
  | KInterface => "interface" | KMap => "map" | KPtr => "ptr"
  | KSlice => "slice" | KString => "string" | KStruct => "struct"
  | KUnsafePointer => "unsafe.Pointer"
  end.

(** What the package asks of a declared type: its name ([Type.Name]),
    whether it (or a pointer to it) implements [TypeNamer] and what
    [AvroName] then returns, and whether a pointer to it implements
    [CustomUnmarshaler]. *)
Record TypeDecl := mkDecl {
  Name : string;
  AvroName : option string;
  HasUnmarshalAvro : bool;
}.

#[export] Instance TypeDecl_eq_dec : EqDecision TypeDecl.
Proof. solve_decision. Defined.

(** The predeclared type of a scalar kind: [int32], [string], ... *)
Definition predeclared (k : Kind) : TypeDecl :=
  mkDecl (kindName k) None false.

(** Go types.  A struct field is (Go name, tag string, type).  Composite
    types other than structs are the unnamed ones; [TMap] is
    [map[string]interface{}] and [TInterface] is [interface{}]. *)
Inductive GoType :=
| TScalar (k : Kind) (d : TypeDecl)
| TStruct (d : TypeDecl) (fields : list (string * string * GoType))
| TPtr (elem : GoType)
| TSlice (elem : GoType)
| TMap
| TInterface.

Fixpoint GoType_beq (a b : GoType) {struct a} : bool :=
  match a, b with
  | TScalar k d, TScalar k' d' => bool_decide (k = k') && bool_decide (d = d')
  | TStruct d fs, TStruct d' fs' =>
      bool_decide (d = d') &&
      (fix go (l l' : list (string * string * GoType)) : bool :=
         match l, l' with
         | [], [] => true
         | (n, t, ty) :: r, (n', t', ty') :: r' =>
             bool_decide (n = n') && bool_decide (t = t') &&
             GoType_beq ty ty' && go r r'
         | _, _ => false
         end) fs fs'
  | TPtr e, TPtr e' => GoType_beq e e'
  | TSlice e, TSlice e' => GoType_beq e e'
  | TMap, TMap => true
  | TInterface, TInterface => true
  | _, _ => false
  end.

(** Go values, floating-point numbers apart.  [VNil] is the nil interface
    value.  A scalar carries its kind and its declared type.  A struct carries its declared type and its
    fields as (Go name, tag string, content).  [VPtr elem None] is the nil
    pointer of type [*elem].  [VIface v] is the content of a slot (struct
    field, slice element) whose static type is [interface{}]: its
    [reflect.Value] has kind [Interface] and [Value.Interface] gives [v]. *)
Inductive GoValue :=
| VNil
| VBool (d : TypeDecl) (b : bool)
| VInt (k : Kind) (d : TypeDecl) (n : Z)
| VString (d : TypeDecl) (s : string)
| VStruct (d : TypeDecl) (fields : list (string * string * GoValue))
| VPtr (elem : GoType) (p : option GoValue)
| VSlice (elem : GoType) (l : list GoValue)
| VMap (m : gmap string GoValue)
| VIface (v : GoValue).

(** [Value.Kind] of the slot holding [v]. *)
Definition kindOf (v : GoValue) : Kind :=
  match v with
  | VNil => KInvalid
  | VBool _ _ => KBool
  | VInt k _ _ => k
  | VString _ _ => KString
  | VStruct _ _ => KStruct
  | VPtr _ _ => KPtr
  | VSlice _ _ => KSlice
  | VMap _ => KMap
  | VIface _ => KInterface
  end.

(** [Value.Interface]: the content of a slot as an [interface{}]. *)
Definition reflect_Interface (v : GoValue) : GoValue :=
  match v with
  | VIface x => x
  | _ => v
  end.

(** [Value.Type] of a slot; [None] for the invalid [reflect.Value] that
    [reflect.ValueOf(nil)] is. *)
Fixpoint typeOf (v : GoValue) : option GoType :=
  match v with
  | VNil => None
  | VBool d _ => Some (TScalar KBool d)
  | VInt k d _ => Some (TScalar k d)
  | VString d _ => Some (TScalar KString d)
  | VStruct d fs =>
      Some (TStruct d
              ((fix tys (l : list (string * string * GoValue)) :=
                  match l with
                  | [] => []
                  | (n, t, x) :: r =>
                      (n, t, default TInterface (typeOf x)) :: tys r
                  end) fs))
  | VPtr e _ => Some (TPtr e)
  | VSlice e _ => Some (TSlice e)
  | VMap _ => Some TMap
  | VIface _ => Some TInterface
  end.

(** [Type.Name] and the [TypeNamer] capability of a value's dynamic type. *)
Definition declOf (v : GoValue) : TypeDecl :=
  match v with
  | VBool d _ | VInt _ d _ | VString d _ | VStruct d _ => d
  | _ => mkDecl "" None false
  end.

Definition kindOfType (t : GoType) : Kind :=
  match t with
  | TScalar k _ => k
  | TStruct _ _ => KStruct
  | TPtr _ => KPtr
  | TSlice _ => KSlice
  | TMap => KMap
  | TInterface => KInterface
  end.

Definition declOfType (t : GoType) : TypeDecl :=
  match t with
  | TScalar _ d | TStruct d _ => d
  | _ => mkDecl "" None false
  end.

(* ===================================================================== *)
(** ** Base types ([avro.go], lines 223-276) *)

(** The kinds that [getBaseType] lists under "Simple types". *)
Definition isSimpleKind (k : Kind) : bool :=
  match k with
  | KString | KUint | KUint8 | KUint16 | KUint32 | KUint64
  | KInt | KInt8 | KInt16 | KInt32 | KInt64 | KFloat32 | KFloat64 => true
  | _ => false
  end.

Fixpoint getBaseType (t : GoType) : GoType :=
  match t with
  | TScalar k d => if isSimpleKind k then TScalar k (predeclared k) else t
  | TStruct _ _ | TPtr _ => TMap
  | TSlice e => TSlice (getBaseType e)
  | _ => t
  end.

(** [convertToBaseType]: [value.Convert(getBaseType(value.Type()))].
    [Value.Type] panics on the invalid value; [Value.Convert] panics when
    the value's type cannot be converted: a struct or a pointer to
    [map[string]interface{}], a slice to a slice of another element type. *)
Definition convertToBaseType (value : GoValue) : result GoValue :=
  match value with
  | VNil => Panic "reflect: call of reflect.Value.Type on zero Value"
  | VBool _ _ => Ok value
  | VInt k _ n =>
      if isSimpleKind k then Ok (VInt k (predeclared k) n) else Ok value
  | VString _ s => Ok (VString (predeclared KString) s)
  | VStruct _ _ | VPtr _ _ => Panic "reflect.Value.Convert: cannot convert"
  | VSlice e _ =>
      if GoType_beq (getBaseType e) e then Ok value
      else Panic "reflect.Value.Convert: cannot convert"
  | VMap _ => Ok value
  | VIface _ => Ok value
  end.

(** The assertions of [Test_convertToBaseType] that the model can state:
    a value of [type MyString string] becomes a [string]. *)
Example test_convertToBaseType :
  convertToBaseType (VString (mkDecl "MyString" None false) "hello")
  = Ok (VString (predeclared KString) "hello").
Proof. reflexivity. Qed.

(* ===================================================================== *)
(** ** The codec ([avro.go], lines 113-155) *)

(** [goavro.Codec], the binary codec compiled from one schema.  It is a
    collaborator: the package only calls its two conversions between bytes
    and native values. *)
Record GoavroCodec := mkGoavro {
  BinaryFromNative : GoValue -> cresult (list Z);
  NativeFromBinary : list Z -> cresult (GoValue * list Z);
}.

Record Codec := mkCodec {
  goavro_Codec : GoavroCodec;
  Namespace : string;
  TypeNameEncoder : string -> string;
}.

Definition addNamespace (c : Codec) (typeName : string) : string :=
  AddNamespace (Namespace c) typeName.

Definition encodeTypeName (c : Codec) (name : string) : string :=
  TypeNameEncoder c name.

(** [getTypeName]: the [AvroName] of the value or of a pointer to it when
    the type has one, the encoded type name otherwise.  [val] is the slot
    the caller holds ([pointed]); [toStructPtr] takes the type of
    [val.Interface()] and panics when that is the nil interface. *)
Definition getTypeName (c : Codec) (val : GoValue) : result string :=
  let data := reflect_Interface val in
  match AvroName (declOf data) with
  | Some n => Ok n
  | None =>
      match data with
      | VNil => Panic "reflect: call of reflect.Value.Type on zero Value"
      | _ => Ok (encodeTypeName c (Name (declOf val)))
      end
  end.

(* ===================================================================== *)
(** ** Struct to map (github.com/leboncoin/structs) *)

Module structs.
(** [Struct.Map] of leboncoin/structs with [TagName = "avro"] and an
    [EncodeHook].  The library is a collaborator outside this repository;
    the model follows the annotations documented on [Marshaler] in
    [avro.go] and section 4.3 of the specification: unexported fields and
    fields tagged ["-"] are skipped, the first tag item names the key (the
    Go name when it is empty), a field tagged [omitempty] that holds its
    zero value is left out, every other field is passed through the hook
    with its kind.  Other tag options are not modelled.  A nil slice or
    map and an empty one are the same value here. *)

Fixpoint splitComma (s : string) : list string :=
  match s with
  | EmptyString => [EmptyString]
  | String c s' =>
      if Ascii.eqb c ","
      then EmptyString :: splitComma s'
      else
        match splitComma s' with
        | h :: t => String c h :: t
        | [] => [String c EmptyString]
        end
  end.

Definition parseTag (tag : string) : string * list string :=
  match splitComma tag with
  | name :: opts => (name, opts)
  | [] => (tag, [])
  end.

Definition isExported (name : string) : bool :=
  match name with
  | String c _ => CamelCase.isUpper c
  | EmptyString => false
  end.

(** [reflect.DeepEqual(v, reflect.Zero(type))]. *)
Fixpoint IsZero (v : GoValue) : bool :=
  match v with
  | VNil => true
  | VBool _ b => negb b
  | VInt _ _ n => bool_decide (n = 0)
  | VString _ s => bool_decide (s = "")
  | VStruct _ fs =>
      (fix all (l : list (string * string * GoValue)) : bool :=
         match l with
         | [] => true
         | (_, _, x) :: r => IsZero x && all r
         end) fs
  | VPtr _ p => match p with None => true | Some _ => false end
  | VSlice _ l => match l with [] => true | _ => false end
  | VMap m => bool_decide (size m = 0%nat)
  | VIface x => match x with VNil => true | _ => false end
  end.

Section FillMap.
Variable EncodeHook : Kind -> GoValue -> result GoValue.

Fixpoint FillMap (fields : list (string * string * GoValue))
    (out : gmap string GoValue) : result (gmap string GoValue) :=
  match fields with
  | [] => Ok out
  | (name, tag, val) :: rest =>
      let '(tagName, tagOpts) := parseTag tag in
      if negb (isExported name) || bool_decide (tag = "-")
      then FillMap rest out
      else if bool_decide ("omitempty" ∈ tagOpts) && IsZero val
      then FillMap rest out
      else
        try finalVal <- EncodeHook (kindOf val) (reflect_Interface val) in
        FillMap rest
          (<[(if bool_decide (tagName = "") then name else tagName)
             := finalVal]> out)
  end.
End FillMap.
End structs.

(* ===================================================================== *)
(** ** Encoding hook ([avro.go], lines 157-212) *)

Section MapM.
Context {Er A B : Type} (f : A -> outcome Er B).
Fixpoint mapM (l : list A) : outcome Er (list B) :=
  match l with
  | [] => Ok []
  | a :: l' =>
      try b <- f a in
      try bs <- mapM l' in
      Ok (b :: bs)
  end.
End MapM.

(** [newData.Index(idx).Set(reflect.ValueOf(val))] into a slice whose
    element type is [elemType]. *)
Definition storeElem (elemType : GoType) (val : GoValue) : GoValue :=
  match elemType with
  | TInterface => VIface val
  | _ => val
  end.

Fixpoint encodeUnionHook (c : Codec) (kind : Kind) (data : GoValue)
    {struct data} : result GoValue :=
  match kind with
  | KStruct =>
      match data with
      | VStruct _ fs =>
          try m <- structs.FillMap (fun k v => encodeUnionHook c k v) fs ∅ in
          Ok (VMap m)
      | _ => Panic "not struct"
      end
  | KSlice =>
      match data with
      | VSlice e l =>
          let elemType := getBaseType e in
          try vals <- mapM (fun elem =>
                        encodeUnionHook c (kindOf elem) (reflect_Interface elem)) l in
          Ok (VSlice elemType (storeElem elemType <$> vals))
      | _ => Panic "reflect: call of reflect.Value.Len on non-slice Value"
      end
  | KPtr =>
      match data with
      | VNil => Ok VNil
      | VPtr _ None => Ok (VMap {[ "null" := VNil ]})
      | VPtr _ (Some pointed) =>
          try val <- encodeUnionHook c (kindOf pointed) (reflect_Interface pointed) in
          try typeName <- getTypeName c pointed in
          Ok (VMap {[ (if isAvroBaseType typeName then typeName
                       else addNamespace c typeName) := val ]})
      | _ => Panic "reflect: call of reflect.Value.Elem on non-pointer Value"
      end
  | _ => convertToBaseType data
  end.

(** [Codec.marshal] and [Codec.Marshal] ([avro.go], lines 139-142 and
    321-340).  [value.Interface()] panics on the invalid value that the
    [Elem] of a nil pointer is. *)
Definition marshal (c : Codec) (codec : GoavroCodec) (data : GoValue)
    : result (list Z) :=
  try kd <-
    match data with
    | VPtr _ None =>
        Panic "reflect: call of reflect.Value.Interface on zero Value"
    | VPtr _ (Some value) => Ok (kindOf value, reflect_Interface value)
    | _ => Ok (kindOf data, data)
    end in
  try nativeData <- encodeUnionHook c kd.1 kd.2 in
  lift (BinaryFromNative codec nativeData).

Definition Codec_Marshal (c : Codec) (st : GoValue) : result (list Z) :=
  marshal c (goavro_Codec c) st.

(* ===================================================================== *)
(** ** Collaborators *)

(** The [Schema] object of the schema registry ([schemaregistry.go]). *)
Record Schema := mkSchema {
  schema_Schema : string;
  schema_Subject : string;
  schema_Version : Z;
  schema_ID : Z;
}.

(** What the package is linked against.
    - [RegState] is the state behind a [SchemaRegistry] interface value
      (the remote service, or the store of the in-memory client); each of
      the three methods the codec registry calls returns its result and
      the next state.
    - [goavro_NewCodec] is [goavro.NewCodec].
    - [json_namespace] is what [json.Unmarshal] of the schema text into
      [avroSchemaNamespace] leaves in [Namespace] (it is [""] when the
      text does not parse or has no ["namespace"] member).
    - [UnmarshalAvro] is the method of the same name of the declared types
      that implement [CustomUnmarshaler]: from the bytes (a Go string) to
      the new content of the receiver. *)
Record Env := mkEnv {
  RegState : Type;
  RegisterNewSchema : RegState -> string -> string -> cresult Z * RegState;
  IsRegistered : RegState -> string -> string -> cresult (bool * Schema) * RegState;
  GetSchemaByID : RegState -> Z -> cresult string * RegState;
  goavro_NewCodec : string -> cresult GoavroCodec;
  json_namespace : string -> string;
  UnmarshalAvro : TypeDecl -> string -> cresult GoValue;
}.

(* ===================================================================== *)
(** ** Decoding hook ([avro.go], lines 295-319) *)

(** [decodeUnionHook].  [reflect.New(to)] is a pointer to [to]; it
    implements [CustomUnmarshaler] when the declared type [to] has the
    method on its pointer or on itself, never when [to] is itself a
    pointer, slice, map or interface type.  [data.(string)] panics unless
    the dynamic type of [data] is [string]. *)
Definition decodeUnionHook (E : Env) (c : Codec) (from to : GoType)
    (data : GoValue) : result GoValue :=
  let unwrapped :=
    match kindOfType to, data with
    | KPtr, VMap unionData =>
        if bool_decide (size unionData = 1%nat)
        then
          match map_to_list unionData with
          | (_, val) :: _ => Some val
          | [] => None
          end
        else None
    | _, _ => None
    end in
  match unwrapped with
  | Some val => Ok val
  | None =>
      match to with
      | TScalar _ d | TStruct d _ =>
          if HasUnmarshalAvro d
          then
            match data with
            | VString sd paramVal =>
                if bool_decide (sd = predeclared KString)
                then
                  try unmarshaler <- lift (UnmarshalAvro E d paramVal) in
                  Ok (VPtr to (Some unmarshaler))
                else Panic "interface conversion: interface {} is not string"
            | _ => Panic "interface conversion: interface {} is not string"
            end
          else Ok data
      | _ => Ok data
      end
  end.

(* ===================================================================== *)
(** ** Map to struct (github.com/mitchellh/mapstructure) *)

Module mapstructure.
(** [Decoder.Decode] of mapstructure v1.1.2 with the configuration that
    [Codec.unmarshal] builds: [TagName = "avro"], a [DecodeHook], no weak
    typing, and a result that points to a zero value of the destination
    type.  The library is a collaborator outside this repository; the
    model follows its [decode]: a nil input leaves the destination as it
    is, any other input goes through the hook and is then decoded by the
    kind of the destination.  Errors of the fields of a struct and of the
    elements of a slice are collected and reported at the end; a panic
    of the hook is not caught.  Floating-point values are outside the
    model. *)

Definition isIntKind (k : Kind) : bool :=
  match k with
  | KInt | KInt8 | KInt16 | KInt32 | KInt64 => true
  | _ => false
  end.

Definition isUintKind (k : Kind) : bool :=
  match k with
  | KUint | KUint8 | KUint16 | KUint32 | KUint64 => true
  | _ => false
  end.

Definition bitsOf (k : Kind) : Z :=
  match k with
  | KInt8 | KUint8 => 8
  | KInt16 | KUint16 => 16
  | KInt32 | KUint32 => 32
  | _ => 64
  end.

(** [Value.SetInt] and [Value.SetUint]: the value is truncated to the
    width of the kind. *)
Definition wrapSigned (bits n : Z) : Z :=
  (n + 2 ^ (bits - 1)) mod 2 ^ bits - 2 ^ (bits - 1).

Definition wrapUnsigned (bits n : Z) : Z := n mod 2 ^ bits.

Fixpoint zeroOf (t : GoType) : GoValue :=
  match t with
  | TScalar k d =>
      if bool_decide (k = KBool) then VBool d false
      else if bool_decide (k = KString) then VString d ""
      else VInt k d 0
  | TStruct d fs =>
      VStruct d
        ((fix zs (l : list (string * string * GoType)) :=
            match l with
            | [] => []
            | (n, t, ty) :: r => (n, t, zeroOf ty) :: zs r
            end) fs)
  | TPtr e => VPtr e None
  | TSlice e => VSlice e []
  | TMap => VMap ∅
  | TInterface => VIface VNil
  end.

(** [reflect.Indirect(reflect.ValueOf(data))]. *)
Definition indirect (data : GoValue) : GoValue :=
  match data with
  | VPtr _ (Some x) => x
  | _ => data
  end.

(** The test [input == nil] of [decode], which also catches a typed nil
    pointer. *)
Definition isNilInput (input : GoValue) : bool :=
  match input with
  | VNil | VPtr _ None => true
  | _ => false
  end.

Definition mismatch {A} : result A :=
  Err (ErrOther "mapstructure: unconvertible type").

(** [decodeBool], [decodeString], [decodeInt] and [decodeUint]. *)
Definition decodeScalar (k : Kind) (d : TypeDecl) (data : GoValue)
    : result GoValue :=
  match k, indirect data with
  | KBool, VBool _ b => Ok (VBool d b)
  | KString, VString _ s => Ok (VString d s)
  | _, VInt k' _ n =>
      if isIntKind k then
        if isIntKind k' then Ok (VInt k d (wrapSigned (bitsOf k) n))
        else if isUintKind k'
        then Ok (VInt k d (wrapSigned (bitsOf k) (wrapSigned 64 n)))
        else mismatch
      else if isUintKind k then
        if isIntKind k' || isUintKind k'
        then Ok (VInt k d (wrapUnsigned (bitsOf k) n))
        else mismatch
      else mismatch
  | _, _ => mismatch
  end.

(** The map key that [decodeStructFromMap] reads for a field: the exact
    name, else a key equal to it up to case. *)
Definition lookupField (m : gmap string GoValue) (fieldName : string)
    : option GoValue :=
  match m !! fieldName with
  | Some v => Some v
  | None =>
      snd <$> head (filter
        (fun kv => strings_ToLower kv.1 = strings_ToLower fieldName)
        (map_to_list m))
  end.

Section Decode.
Variable DecodeHook : GoType -> GoType -> GoValue -> result GoValue.

Definition runHook (to : GoType) (input : GoValue) : result GoValue :=
  match DecodeHook (default TInterface (typeOf input)) to input with
  | Ok v => Ok v
  | Err _ => Err (ErrOther "mapstructure: error decoding")
  | Panic msg => Panic msg
  end.

(** One step of the loops of [decodeStructFromMap] and [decodeSlice]:
    an error is remembered and the slot keeps its zero value. *)
Definition collect {A} (r : result GoValue) (zero : GoValue)
    (k : GoValue -> bool -> result A) : result A :=
  match r with
  | Ok v => k v false
  | Err _ => k zero true
  | Panic msg => Panic msg
  end.

Fixpoint decode (to : GoType) (input : GoValue) {struct to}
    : result GoValue :=
  if isNilInput input then Ok (zeroOf to)
  else
    try input <- runHook to input in
    match to with
    | TScalar k d => decodeScalar k d input
    | TInterface => Ok (VIface input)
    | TPtr e =>
        try v <- decode e input in
        Ok (VPtr e (Some v))
    | TStruct d fields =>
        match indirect input with
        | VMap m =>
            try r <-
              (fix go (fs : list (string * string * GoType))
                 : result (list (string * string * GoValue) * bool) :=
                 match fs with
                 | [] => Ok ([], false)
                 | (name, tag, fty) :: rest =>
                     let tagValue := (structs.parseTag tag).1 in
                     let fieldName :=
                       if bool_decide (tagValue = "") then name
                       else tagValue in
                     let decoded :=
                       match lookupField m fieldName with
                       | Some raw =>
                           if structs.isExported name
                           then decode fty (reflect_Interface raw)
                           else Ok (zeroOf fty)
                       | None => Ok (zeroOf fty)
                       end in
                     collect decoded (zeroOf fty) (fun v failed =>
                       try r <- go rest in
                       Ok ((name, tag, v) :: r.1, failed || r.2))
                 end) fields in
            if r.2 then Err (ErrOther "mapstructure: error(s) decoding")
            else Ok (VStruct d r.1)
        | _ => Err (ErrOther "mapstructure: expected a map")
        end
    | TSlice e =>
        match indirect input with
        | VSlice _ l =>
            try r <-
              (fix go (l : list GoValue) : result (list GoValue * bool) :=
                 match l with
                 | [] => Ok ([], false)
                 | x :: rest =>
                     collect (decode e (reflect_Interface x)) (zeroOf e)
                       (fun v failed =>
                          try r <- go rest in
                          Ok (v :: r.1, failed || r.2))
                 end) l in
            if r.2 then Err (ErrOther "mapstructure: error(s) decoding")
            else Ok (VSlice e r.1)
        | _ => Err (ErrOther "mapstructure: source data must be an array or slice")
        end
    | TMap =>
        match indirect input with
        | VMap m =>
            try r <-
              (fix go (kvs : list (string * GoValue))
                 : result (gmap string GoValue * bool) :=
                 match kvs with
                 | [] => Ok (∅, false)
                 | (k, v) :: rest =>
                     collect
                       (try k' <- runHook (TScalar KString (predeclared KString))
                                    (VString (predeclared KString) k) in
                        decodeScalar KString (predeclared KString) k')
                       (VString (predeclared KString) "")
                       (fun k' kfailed =>
                          collect
                            (if isNilInput v then Ok (VIface VNil)
                             else try v' <- runHook TInterface v in
                                  Ok (VIface v'))
                            (VIface VNil)
                            (fun v' vfailed =>
                               try r <- go rest in
                               match k' with
                               | VString _ key =>
                                   Ok (<[key := reflect_Interface v']> r.1,
                                       kfailed || vfailed || r.2)
                               | _ => Ok (r.1, true)
                               end))
                 end) (map_to_list m) in
            if r.2 then Err (ErrOther "mapstructure: error(s) decoding")
            else Ok (VMap r.1)
        | _ => Err (ErrOther "mapstructure: expected a map")
        end
    end.

Definition Decode (output : GoType) (input : GoValue) : result GoValue :=
  decode output input.
End Decode.
End mapstructure.

(** [Codec.unmarshal] and [Codec.Unmarshal] ([avro.go], lines 144-147 and
    342-357).  [output] points to a zero value of type [to]; the result is
    what it points to afterwards. *)
Definition unmarshal (E : Env) (c : Codec) (codec : GoavroCodec)
    (avro : list Z) (to : GoType) : result GoValue :=
  try m <- lift (NativeFromBinary codec avro) in
  mapstructure.Decode (decodeUnionHook E c) to m.1.

Definition Codec_Unmarshal (E : Env) (c : Codec) (avro : list Z)
    (to : GoType) : result GoValue :=
  unmarshal E c (goavro_Codec c) avro to.

(* ===================================================================== *)
(** ** Wire header ([codec_registry.go], lines 12-37) *)

Definition MagicByte : Z := 0.

(** [SchemaID] is an [int32]; [UnknownID] is [-1]. *)
Definition UnknownID : Z := -1.

Record Header := mkHeader {
  header_MagicByte : Z;
  header_ID : Z;
}.

(** The conversions [byte(x)], [uint32(x)] and [int32(x)] (the last one is
    also [SchemaID(x)]). *)
Definition byte_of (x : Z) : Z := Z.land x 255.
Definition uint32_of (x : Z) : Z := x mod 2 ^ 32.
Definition int32_of (x : Z) : Z := (x + 2 ^ 31) mod 2 ^ 32 - 2 ^ 31.

(** [binary.BigEndian.PutUint32] and [binary.BigEndian.Uint32]. *)
Definition BigEndian_PutUint32 (v : Z) : list Z :=
  [ byte_of (Z.shiftr v 24); byte_of (Z.shiftr v 16);
    byte_of (Z.shiftr v 8); byte_of v ].

Definition BigEndian_Uint32 (b : list Z) : Z :=
  match b with
  | [b0; b1; b2; b3] =>
      Z.lor (Z.lor (Z.lor b3 (Z.shiftl b2 8)) (Z.shiftl b1 16)) (Z.shiftl b0 24)
  | _ => 0
  end.

(** [binary.Write(&buf, DefaultEndianness, header)]: the fields of the
    struct in order, one byte and four bytes.  Writing a fixed-size value
    to a [bytes.Buffer] has no error. *)
Definition binary_Write_Header (h : Header) : list Z :=
  byte_of (header_MagicByte h) :: BigEndian_PutUint32 (uint32_of (header_ID h)).

(** [io.ReadFull] of [n] bytes from a [bytes.Buffer]: [io.EOF] when the
    buffer is empty, [io.ErrUnexpectedEOF] when it holds fewer than [n]
    bytes.  The result is the error, the bytes read and the bytes left. *)
Definition io_ReadFull (buf : list Z) (n : nat)
    : option IoErr * list Z * list Z :=
  match n, buf with
  | O, _ => (None, [], buf)
  | _, [] => (Some EOF, [], [])
  | _, _ =>
      if decide (length buf < n)%nat
      then (Some ErrUnexpectedEOF, buf, [])
      else (None, take n buf, drop n buf)
  end.

(** [binary.Read(buf, DefaultEndianness, &x)] for [x] a [byte] and for [x]
    a [SchemaID]: on an error [x] keeps its value [old]. *)
Definition binary_Read_uint8 (buf : list Z) (old : Z)
    : option IoErr * Z * list Z :=
  match io_ReadFull buf 1 with
  | (None, bs, rest) => (None, default old (head bs), rest)
  | (Some e, _, rest) => (Some e, old, rest)
  end.

Definition binary_Read_int32 (buf : list Z) (old : Z)
    : option IoErr * Z * list Z :=
  match io_ReadFull buf 4 with
  | (None, bs, rest) => (None, int32_of (BigEndian_Uint32 bs), rest)
  | (Some e, _, rest) => (Some e, old, rest)
  end.

(** The test [err != nil && err != io.EOF]. *)
Definition notNilNorEOF (err : option IoErr) : option IoErr :=
  match err with
  | Some ErrUnexpectedEOF => Some ErrUnexpectedEOF
  | _ => None
  end.

(* ===================================================================== *)
(** ** Codec registry ([codec_registry.go]) *)

(** [NewCodec] ([avro.go], lines 122-137). *)
Definition NewCodec (E : Env) (schemaSpecification : string) : result Codec :=
  try o <- lift (goavro_NewCodec E schemaSpecification) in
  Ok (mkCodec o (json_namespace E schemaSpecification) DefaultTypeNameEncoder).

(** The fields of [CodecRegistry] other than [Registry]; a nil
    [TypeNameEncoder] is [None]. *)
Record CodecRegistry := mkRegistry {
  subject : string;
  codecByID : gmap Z Codec;
  SchemaID : Z;
  registry_TypeNameEncoder : option (string -> string);
}.

(** A call received by the schema registry. *)
Inductive RegistryCall :=
| CallRegisterNewSchema (subject schema : string)
| CallIsRegistered (subject schema : string)
| CallGetSchemaByID (id : Z).

(** A codec registry [r] together with the state behind [r.Registry] and
    the calls that the schema registry has received so far, oldest
    first. *)
Record World (E : Env) := mkWorld {
  registry : CodecRegistry;
  remote : RegState E;
  calls : list RegistryCall;
}.
Arguments mkWorld {E} registry remote calls.
Arguments registry {E} w.
Arguments remote {E} w.
Arguments calls {E} w.

Definition setCodec (r : CodecRegistry) (ID : Z) (codec : Codec) : CodecRegistry :=
  mkRegistry (subject r) (<[ID := codec]> (codecByID r)) (SchemaID r)
    (registry_TypeNameEncoder r).

Definition setSchemaID (r : CodecRegistry) (ID : Z) : CodecRegistry :=
  mkRegistry (subject r) (codecByID r) ID (registry_TypeNameEncoder r).

Section Registry.
Context (E : Env).

(** The three methods of [r.Registry], recorded. *)
Definition call_GetSchemaByID (w : World E) (id : Z) : result string * World E :=
  let '(res, remote') := GetSchemaByID E (remote w) id in
  (lift res, mkWorld (registry w) remote' (calls w ++ [CallGetSchemaByID id])).

Definition call_RegisterNewSchema (w : World E) (rawSchema : string)
    : result Z * World E :=
  let '(res, remote') :=
    RegisterNewSchema E (remote w) (subject (registry w)) rawSchema in
  (lift res, mkWorld (registry w) remote'
          (calls w ++ [CallRegisterNewSchema (subject (registry w)) rawSchema])).

Definition call_IsRegistered (w : World E) (rawSchema : string)
    : result (bool * Schema) * World E :=
  let '(res, remote') :=
    IsRegistered E (remote w) (subject (registry w)) rawSchema in
  (lift res, mkWorld (registry w) remote'
          (calls w ++ [CallIsRegistered (subject (registry w)) rawSchema])).

Definition wrap {A} (msg : string) (r : result A) : result A :=
  match r with
  | Err e => Err (ErrWrap msg e)
  | _ => r
  end.

(** [SetTypeNameEncoder]. *)
Definition SetTypeNameEncoder (w : World E) (typeNameEncoder : string -> string)
    : World E :=
  let r := registry w in
  mkWorld
    (mkRegistry (subject r)
       ((fun codec => mkCodec (goavro_Codec codec) (Namespace codec) typeNameEncoder)
          <$> codecByID r)
       (SchemaID r) (Some typeNameEncoder))
    (remote w) (calls w).

(** [Register]. *)
Definition Register (w : World E) (rawSchema : string) : result unit * World E :=
  let '(res, w) := call_RegisterNewSchema w rawSchema in
  match wrap "RegisterNewSchema error" res with
  | Err e => (Err e, w)
  | Panic m => (Panic m, w)
  | Ok _ =>
      let '(res, w) := call_IsRegistered w rawSchema in
      match wrap "IsRegistered error" res with
      | Err e => (Err e, w)
      | Panic m => (Panic m, w)
      | Ok (isRegistered, schema) =>
          if negb isRegistered then (Err (ErrOther "can't register schema"), w)
          else
            match wrap "NewCodec error" (NewCodec E rawSchema) with
            | Err e => (Err e, w)
            | Panic m => (Panic m, w)
            | Ok codec =>
                let codec :=
                  match registry_TypeNameEncoder (registry w) with
                  | Some f => mkCodec (goavro_Codec codec) (Namespace codec) f
                  | None => codec
                  end in
                let ID := int32_of (schema_ID schema) in
                (Ok (),
                 mkWorld (setSchemaID (setCodec (registry w) ID codec) ID)
                   (remote w) (calls w))
            end
      end
  end.

(** [getCodecByID]. *)
Definition getCodecByID (w : World E) (ID : Z) : result Codec * World E :=
  match codecByID (registry w) !! ID with
  | Some codec => (Ok codec, w)
  | None =>
      let '(res, w) := call_GetSchemaByID w ID in
      match res with
      | Err e => (Err e, w)
      | Panic m => (Panic m, w)
      | Ok rawSchema =>
          match NewCodec E rawSchema with
          | Err e => (Err e, w)
          | Panic m => (Panic m, w)
          | Ok codec =>
              (Ok codec,
               mkWorld (setCodec (registry w) ID codec) (remote w) (calls w))
          end
      end
  end.

(** [Marshal].  The codec of the current id is taken from the map
    without a check: a missing entry is a nil [*Codec], and the call of
    its [Marshal] dereferences it. *)
Definition Marshal (r : CodecRegistry) (data : GoValue) : result (list Z) :=
  if bool_decide (SchemaID r = UnknownID) then Err ErrNoEncodeSchema
  else
    let header := mkHeader MagicByte (SchemaID r) in
    let binBuffer := binary_Write_Header header in
    match codecByID r !! SchemaID r with
    | None => Panic "invalid memory address or nil pointer dereference"
    | Some codec =>
        try byteData <- Codec_Marshal codec data in
        Ok (binBuffer ++ byteData)
    end.

(** The first lines of [Unmarshal]: the two reads and the test of the
    magic byte.  The result is the header and the bytes left in the
    buffer. *)
Definition readHeader (from : list Z) : result (Header * list Z) :=
  let binBuffer := from in
  let '(err, magic, binBuffer) := binary_Read_uint8 binBuffer 0 in
  match notNilNorEOF err with
  | Some e => Err (ErrWrap "binary.Read magic byte error" (ErrIO e))
  | None =>
      let '(err, ID, binBuffer) := binary_Read_int32 binBuffer 0 in
      match notNilNorEOF err with
      | Some e => Err (ErrWrap "binary.Read ID error" (ErrIO e))
      | None =>
          if bool_decide (magic <> MagicByte) then Err (ErrMagicByte magic)
          else Ok (mkHeader magic ID, binBuffer)
      end
  end.

(** [Unmarshal], which calls itself; [fuel] bounds the depth of the
    calls and [None] means that the bound was reached.  [to] points to a
    zero value of the given type. *)
Fixpoint Unmarshal (fuel : nat) (w : World E) (from : list Z) (to : GoType)
    : option (result GoValue * World E) :=
  match fuel with
  | O => None
  | S fuel =>
      match readHeader from with
      | Err e => Some (Err e, w)
      | Panic m => Some (Panic m, w)
      | Ok (header, body) =>
          let '(res, w) := getCodecByID w (header_ID header) in
          match wrap "error when getting codec for schema id" res with
          | Err e => Some (Err e, w)
          | Panic m => Some (Panic m, w)
          | Ok codec =>
              if bool_decide (SchemaID (registry w) <> UnknownID)
                 && bool_decide (header_ID header <> SchemaID (registry w))
              then
                match Codec_Unmarshal E codec body TMap with
                | Err e => Some (Err e, w)
                | Panic m => Some (Panic m, w)
                | Ok tmpTo =>
                    match Marshal (registry w) tmpTo with
                    | Err e => Some (Err e, w)
                    | Panic m => Some (Panic m, w)
                    | Ok from => Unmarshal fuel w from to
                    end
                end
              else Some (Codec_Unmarshal E codec body to, w)
          end
      end
  end.

(** [init]; [schemaNotRegisteredFunc] is [None] for a nil function. *)
Definition init (w : World E) (rawSchema : string)
    (schemaNotRegisteredFunc : option (World E -> result unit * World E))
    : result unit * World E :=
  if bool_decide (String.length rawSchema = 0%nat)
  then (Ok (), mkWorld (setSchemaID (registry w) UnknownID) (remote w) (calls w))
  else
    let '(res, w) := call_IsRegistered w rawSchema in
    match wrap "Registry.IsRegistered error" res with
    | Err e => (Err e, w)
    | Panic m => (Panic m, w)
    | Ok (isRegistered, schema) =>
        if negb isRegistered then
          match schemaNotRegisteredFunc with
          | Some f => f w
          | None => (Err (ErrOther "schema is not registered in the schema registry"), w)
          end
        else
          let ID := int32_of (schema_ID schema) in
          let w := mkWorld (setSchemaID (registry w) ID) (remote w) (calls w) in
          match wrap "NewCodec error" (NewCodec E rawSchema) with
          | Err e => (Err e, w)
          | Panic m => (Panic m, w)
          | Ok codec =>
              (Ok (),
               mkWorld (setSchemaID (setCodec (registry w) ID codec) ID)
                 (remote w) (calls w))
          end
    end.

(** [initAndRegister]. *)
Definition initAndRegister (w : World E) (rawSchema : string)
    : result unit * World E :=
  init w rawSchema (Some (fun w => Register w rawSchema)).

(** [newRegistry] after [NewSchemaRegistry] has returned the client
    whose state is [remote]: the struct literal leaves [SchemaID] at its
    zero value and [TypeNameEncoder] nil. *)
Definition emptyRegistry (subject : string) : CodecRegistry :=
  mkRegistry subject ∅ 0 None.

Definition newRegistry (remote : RegState E) (subject schema : string)
    (initFunc : World E -> string -> result unit * World E)
    : result unit * World E :=
  initFunc (mkWorld (emptyRegistry subject) remote []) schema.

(** [NewCodecRegistry] and [NewCodecRegistryAndRegister]. *)
Definition NewCodecRegistry (remote : RegState E) (subject schema : string)
    : result unit * World E :=
  newRegistry remote subject schema (fun w rawSchema =>
    init w rawSchema
      (Some (fun w => (Err (ErrOther "the given schema is not registered"), w)))).

Definition NewCodecRegistryAndRegister (remote : RegState E)
    (subject schema : string) : result unit * World E :=
  newRegistry remote subject schema initAndRegister.
End Registry.

(* ===================================================================== *)
(** ** The in-memory schema registry ([schemaregistry_mock.go]) *)

Module NOOP.
(** The variables that the closures of [NewNOOPClient] share: the
    counter behind [ptrNewID] and the map [store]. *)
Record State := mkState {
  newID : Z;
  store : gmap string (list Schema);
}.

Definition NewNOOPClient : State := mkState 0 ∅.

Definition RegisterNewSchemaFn (st : State) (subject rawSchema : string)
    : cresult Z * State :=
  let schemas := default [] (store st !! subject) in
  let schema :=
    mkSchema rawSchema subject (Z.of_nat (length schemas)) (newID st) in
  (Ok (schema_ID schema),
   mkState (newID st + 1) (<[subject := schemas ++ [schema]]> (store st))).

Definition IsRegisteredFn (st : State) (subject schema : string)
    : cresult (bool * Schema) * State :=
  match store st !! subject with
  | None => (Ok (false, mkSchema "" "" 0 0), st)
  | Some schemas =>
      match filter (fun s => schema = schema_Schema s) schemas with
      | s :: _ => (Ok (true, s), st)
      | [] => (Ok (false, mkSchema "" "" 0 0), st)
      end
  end.

(** The two loops range over every schema of every subject; an id is
    given once, so the order of the subjects does not matter. *)
Definition GetSchemaByIDFn (st : State) (id : Z) : cresult string * State :=
  match filter (fun s => schema_ID s = id)
          (concat (snd <$> map_to_list (store st))) with
  | s :: _ => (Ok (schema_Schema s), st)
  | [] => (Err "schema not found", st)
  end.

(** The other closures of [NewNOOPClient].  [range store] visits the
    subjects in an order that Go leaves open; the lists below take the
    order of [map_to_list].  [VersionsFn] and [DeleteSubjectFn] do not
    look at [subject] when they list the versions: they number the
    schemas of every subject. *)
Definition SubjectsFn (st : State) : cresult (list string) * State :=
  (Ok (map_to_list (store st)).*1, st).

Definition allVersions (st : State) : list Z :=
  concat ((fun kv => Z.of_nat <$> seq 0 (length kv.2)) <$> map_to_list (store st)).

Definition VersionsFn (st : State) (subject : string)
    : cresult (list Z) * State :=
  (Ok (allVersions st), st).

Definition GetSchemaBySubjectFn (st : State) (subject : string) (ver : Z)
    : cresult Schema * State :=
  (Ok (mkSchema "" "" 0 0), st).

Definition GetLatestSchemaFn (st : State) (subject : string)
    : cresult Schema * State :=
  match store st !! subject with
  | None => (Err "subject not found", st)
  | Some schemas =>
      match last schemas with
      | None => (Err "no schema found in this subject", st)
      | Some s => (Ok s, st)
      end
  end.

Definition DeleteSubjectFn (st : State) (subject : string)
    : cresult (list Z) * State :=
  (Ok (allVersions st), mkState (newID st) (delete subject (store st))).
End NOOP.

(* ===================================================================== *)
(** ** A binary codec for a part of Avro *)

Module goavro.
(** A stand-in for [goavro.Codec] on the schemas built from null,
    boolean, int, long, string, enum, record and union, after the Avro
    specification: integers are zig-zag varints, a string is its length
    and its bytes, a record is its fields in schema order, a union is the
    index of the branch and the value, an enum is the index of the
    symbol.  As goavro does, the encoder of a record takes a field that
    the map lacks from the default of the schema and fails when there is
    none, ignores the keys that the schema does not name, and accepts for
    int and long the Go types [int], [int32] and [int64] only; the
    decoder returns [int32] for int, [int64] for long, [nil] for the
    null branch of a union and a one-key map for any other branch. *)

Inductive AvroType :=
| ANull
| ABoolean
| AInt
| ALong
| AString
| AEnum (name : string) (symbols : list string)
| ARecord (name : string) (fields : list (string * AvroType * option GoValue))
| AUnion (branches : list AvroType).

(** The name under which a type is a branch of a union. *)
Definition typeName (t : AvroType) : string :=
  match t with
  | ANull => "null"
  | ABoolean => "boolean"
  | AInt => "int"
  | ALong => "long"
  | AString => "string"
  | AEnum name _ => name
  | ARecord name _ => name
  | AUnion _ => "union"
  end.

Definition zigzag (n : Z) : Z := if 0 <=? n then 2 * n else - 2 * n - 1.

Definition unzigzag (u : Z) : Z :=
  if Z.even u then u / 2 else - ((u + 1) / 2).

(** Base-128 groups, least significant first; ten groups hold 64 bits. *)
Fixpoint varint (groups : nat) (u : Z) : list Z :=
  match groups with
  | O => []
  | S groups =>
      if u <? 128 then [u]
      else (u mod 128 + 128) :: varint groups (u / 128)
  end.

Fixpoint unvarint (buf : list Z) (weight acc : Z) : cresult (Z * list Z) :=
  match buf with
  | [] => Err "cannot decode binary: short buffer"
  | b :: buf =>
      if b <? 128 then Ok (acc + weight * b, buf)
      else unvarint buf (weight * 128) (acc + weight * (b - 128))
  end.

Definition putLong (n : Z) : list Z := varint 10 (zigzag n).

Definition getLong (buf : list Z) : cresult (Z * list Z) :=
  try r <- unvarint buf 1 0 in
  Ok (unzigzag r.1, r.2).

Definition bytesOfString (s : string) : list Z :=
  (fun c => Z.of_N (N_of_ascii c)) <$> list_ascii_of_string s.

Definition stringOfBytes (b : list Z) : string :=
  string_of_list_ascii ((fun x => ascii_of_N (Z.to_N x)) <$> b).

Definition fitsInt32 (n : Z) : bool := (- 2 ^ 31 <=? n) && (n <? 2 ^ 31).

(** The Go types that the encoders of int and long accept. *)
Definition isGoInteger (k : Kind) (d : TypeDecl) : bool :=
  bool_decide (d = predeclared k) &&
  match k with KInt | KInt32 | KInt64 => true | _ => false end.

Fixpoint indexOf {A} (p : A -> bool) (l : list A) : option nat :=
  match l with
  | [] => None
  | a :: l => if p a then Some O else S <$> indexOf p l
  end.

Definition wrongType {A} : cresult A :=
  Err "cannot encode binary: unexpected Go type".

Fixpoint encode (t : AvroType) (datum : GoValue) {struct t} : cresult (list Z) :=
  match t with
  | ANull =>
      match datum with VNil => Ok [] | _ => wrongType end
  | ABoolean =>
      match datum with
      | VBool d b =>
          if bool_decide (d = predeclared KBool)
          then Ok [if b then 1 else 0] else wrongType
      | _ => wrongType
      end
  | AInt =>
      match datum with
      | VInt k d n =>
          if isGoInteger k d && fitsInt32 n then Ok (putLong n) else wrongType
      | _ => wrongType
      end
  | ALong =>
      match datum with
      | VInt k d n => if isGoInteger k d then Ok (putLong n) else wrongType
      | _ => wrongType
      end
  | AString =>
      match datum with
      | VString d s =>
          if bool_decide (d = predeclared KString)
          then Ok (putLong (Z.of_nat (String.length s)) ++ bytesOfString s)
          else wrongType
      | _ => wrongType
      end
  | AEnum _ symbols =>
      match datum with
      | VString d s =>
          match indexOf (fun x => bool_decide (x = s)) symbols with
          | Some i =>
              if bool_decide (d = predeclared KString)
              then Ok (putLong (Z.of_nat i)) else wrongType
          | None => Err "cannot encode binary enum: unknown symbol"
          end
      | _ => wrongType
      end
  | ARecord _ fields =>
      match datum with
      | VMap m =>
          (fix go (fs : list (string * AvroType * option GoValue))
             : cresult (list Z) :=
             match fs with
             | [] => Ok []
             | (name, ft, dflt) :: rest =>
                 try b <-
                   match m !! name with
                   | Some v => encode ft v
                   | None =>
                       match dflt with
                       | Some v => encode ft v
                       | None =>
                           Err "cannot encode binary record: field value was not specified"
                       end
                   end in
                 try bs <- go rest in
                 Ok (b ++ bs)
             end) fields
      | _ => wrongType
      end
  | AUnion branches =>
      let pick (name : string) (v : GoValue) : cresult (list Z) :=
        (fix go (bs : list AvroType) (i : Z) : cresult (list Z) :=
           match bs with
           | [] => Err "cannot encode binary union: no member schema"
           | b :: rest =>
               if bool_decide (typeName b = name)
               then try body <- encode b v in Ok (putLong i ++ body)
               else go rest (i + 1)
           end) branches 0 in
      match datum with
      | VNil => pick "null" VNil
      | VMap m =>
          match map_to_list m with
          | [(name, v)] => pick name v
          | _ => Err "cannot encode binary union: non-empty map of one key expected"
          end
      | _ => wrongType
      end
  end.

Fixpoint decode (t : AvroType) (buf : list Z) {struct t}
    : cresult (GoValue * list Z) :=
  match t with
  | ANull => Ok (VNil, buf)
  | ABoolean =>
      match buf with
      | b :: rest =>
          if bool_decide (b = 0) then Ok (VBool (predeclared KBool) false, rest)
          else if bool_decide (b = 1) then Ok (VBool (predeclared KBool) true, rest)
          else Err "cannot decode binary boolean"
      | [] => Err "cannot decode binary boolean: short buffer"
      end
  | AInt =>
      try r <- getLong buf in
      Ok (VInt KInt32 (predeclared KInt32) r.1, r.2)
  | ALong =>
      try r <- getLong buf in
      Ok (VInt KInt64 (predeclared KInt64) r.1, r.2)
  | AString =>
      try r <- getLong buf in
      if bool_decide (r.1 < 0) || bool_decide (Z.of_nat (length r.2) < r.1)
      then Err "cannot decode binary string: short buffer"
      else Ok (VString (predeclared KString)
                 (stringOfBytes (take (Z.to_nat r.1) r.2)),
               drop (Z.to_nat r.1) r.2)
  | AEnum _ symbols =>
      try r <- getLong buf in
      if bool_decide (r.1 < 0) then Err "cannot decode binary enum"
      else
        match symbols !! Z.to_nat r.1 with
        | Some s => Ok (VString (predeclared KString) s, r.2)
        | None => Err "cannot decode binary enum: index out of range"
        end
  | ARecord _ fields =>
      try r <-
        (fix go (fs : list (string * AvroType * option GoValue))
             (buf : list Z) : cresult (gmap string GoValue * list Z) :=
           match fs with
           | [] => Ok (∅, buf)
           | (name, ft, _) :: rest =>
               try v <- decode ft buf in
               try r <- go rest v.2 in
               Ok (<[name := v.1]> r.1, r.2)
           end) fields buf in
      Ok (VMap r.1, r.2)
  | AUnion branches =>
      try r <- getLong buf in
      if bool_decide (r.1 < 0) then Err "cannot decode binary union"
      else
        (fix go (bs : list AvroType) (i : nat) : cresult (GoValue * list Z) :=
           match bs, i with
           | [], _ => Err "cannot decode binary union: index out of range"
           | b :: _, O =>
               try v <- decode b r.2 in
               match b with
               | ANull => Ok (VNil, v.2)
               | _ => Ok (VMap {[ typeName b := v.1 ]}, v.2)
               end
           | _ :: rest, S i => go rest i
           end) branches (Z.to_nat r.1)
  end.

Definition codecOf (t : AvroType) : GoavroCodec :=
  mkGoavro (encode t) (decode t).
End goavro.

(* ===================================================================== *)
(** ** The values of the tests *)

Module Fixtures.
Import goavro.

(** The schema texts of [codec_registry_test.go], written with single
    quotes, and what [goavro.NewCodec] compiles them to. *)
Definition schemaV1 : string :=
  "{'type':'record','name':'Person','fields':[{'name':'name','type':'string'},{'name':'age','type':'int'}]}".

Definition schemaV2 : string :=
  "{'type':'record','name':'Person','fields':[{'name':'name','type':'string'},{'name':'age','type':'int'},{'name':'height','type':'int','default':150}]}".

Definition schemaKafkarest : string :=
  "{'namespace':'n','type':'record','name':'name','fields':[{'name':'event_timestamp','type':'long'},{'name':'event_id','type':'string'},{'name':'store_id','type':'string'}]}".

Definition schemaUserInfo : string :=
  "{'type':'record','name':'userInfo','namespace':'my.example','fields':[{'name':'age','type':'int'}]}".

Definition schemaNull : string := "'null'".

Definition int32Value (n : Z) : GoValue := VInt KInt32 (predeclared KInt32) n.
Definition intValue (n : Z) : GoValue := VInt KInt (predeclared KInt) n.
Definition int64Value (n : Z) : GoValue := VInt KInt64 (predeclared KInt64) n.
Definition stringValue (s : string) : GoValue := VString (predeclared KString) s.

Definition PersonV1 : AvroType :=
  ARecord "Person" [ ("name", AString, None); ("age", AInt, None) ].

Definition PersonV2 : AvroType :=
  ARecord "Person"
    [ ("name", AString, None); ("age", AInt, None);
      ("height", AInt, Some (int32Value 150)) ].

Definition Kafkarest : AvroType :=
  ARecord "n.name"
    [ ("event_timestamp", ALong, None); ("event_id", AString, None);
      ("store_id", AString, None) ].

Definition UserInfoSchema : AvroType :=
  ARecord "my.example.userInfo" [ ("age", AInt, None) ].

Definition schemas : gmap string (AvroType * string) :=
  list_to_map
    [ (schemaV1, (PersonV1, "")); (schemaV2, (PersonV2, ""));
      (schemaKafkarest, (Kafkarest, "n"));
      (schemaUserInfo, (UserInfoSchema, "my.example"));
      (schemaNull, (ANull, "")); ("{}", (ARecord "" [], "")) ].

(** The program linked against the in-memory registry and the codec
    above; no type of the tests below has an [UnmarshalAvro]. *)
Definition TestEnv : Env :=
  mkEnv NOOP.State NOOP.RegisterNewSchemaFn NOOP.IsRegisteredFn
    NOOP.GetSchemaByIDFn
    (fun text =>
       match schemas !! text with
       | Some s => Ok (codecOf s.1)
       | None => Err "cannot unmarshal schema JSON"
       end)
    (fun text => default "" (snd <$> schemas !! text))
    (fun _ _ => Err "no UnmarshalAvro").

(** [NewMockCodecRegistry(subject)] over a registry client in state
    [st]. *)
Definition NewMockCodecRegistry (st : NOOP.State) (subject : string)
    : World TestEnv :=
  @mkWorld TestEnv (emptyRegistry subject) st [].

(** [type Person struct { Name string `avro:...`; Age int32 `avro:...` }]
    and [type UserData struct { Name string; Age int }] with the same
    tags. *)
Definition PersonType : GoType :=
  TStruct (mkDecl "Person" None false)
    [ ("Name", "name", TScalar KString (predeclared KString));
      ("Age", "age", TScalar KInt32 (predeclared KInt32)) ].

Definition Person (name : string) (age : Z) : GoValue :=
  VStruct (mkDecl "Person" None false)
    [ ("Name", "name", stringValue name); ("Age", "age", int32Value age) ].



(** The two registries of [TestCodecRegistry_Unmarshal_version_upgrade]
    after their [initAndRegister]: [codecV1] on [schemaV1], then
    [codecV2] on [schemaV2] with the same registry client. *)
Definition codecV1 : World TestEnv :=
  (initAndRegister TestEnv (NewMockCodecRegistry NOOP.NewNOOPClient "test")
     schemaV1).2.

Definition codecV2 : World TestEnv :=
  (initAndRegister TestEnv (NewMockCodecRegistry (remote codecV1) "test")
     schemaV2).2.

(** A registry made with no schema ([init] with the empty text), over a
    client whose first schema, the one of id 0, is the schema ['null']. *)
Definition decoderOnly : World TestEnv :=
  (init TestEnv
     (NewMockCodecRegistry
        (NOOP.RegisterNewSchemaFn NOOP.NewNOOPClient "other" schemaNull).2 "test")
     "" None).2.

(** [codecV1.Marshal(&Person{name, age})]: the header of id 0, the name
    and the age. *)
Definition personPayload (name : string) (age : Z) : list Z :=
  [0; 0; 0; 0; 0]
  ++ putLong (Z.of_nat (String.length name)) ++ bytesOfString name
  ++ putLong age.
End Fixtures.

(* ===================================================================== *)
(** * Properties *)

(** Close a decidable goal on concrete data by evaluation. *)
Ltac by_decide := apply (bool_decide_unpack _); vm_compute; exact I.

(** ** The type-name translator *)

Section CamelCaseFacts.
Import CamelCase.

Lemma runs_concat (cls : class) (cur src : list ascii) :
  concat (runs cls cur src) = cur ++ src.
Proof.
  revert cls cur.
  induction src as [|r src IH]; intros cls cur; simpl.
  - by rewrite !app_nil_r.
  - destruct (decide (classOf r = cls)).
    + rewrite IH. by rewrite <- app_assoc.
    + simpl. by rewrite IH.
Qed.

Lemma removelast_last (cur : list ascii) (u : ascii) :
  last cur = Some u -> removelast cur ++ [u] = cur.
Proof.
  induction cur as [|a cur IH]; [done|].
  destruct cur as [|b cur]; simpl in *.
  - by intros [= ->].
  - intros H. f_equal. by apply IH.
Qed.

Lemma fixup_concat (cur : list ascii) (rest : list (list ascii)) :
  concat (fixup cur rest) = cur ++ concat rest.
Proof.
  revert cur.
  induction rest as [|nxt rest IH]; intros cur; simpl.
  - done.
  - destruct (startsWith isUpper cur && startsWith isLower nxt).
    + destruct (last cur) as [u|] eqn:Hlast; simpl; rewrite IH.
      * rewrite <- (removelast_last cur u Hlast) at 2.
        by rewrite <- app_assoc.
      * done.
    + simpl. by rewrite IH.
Qed.

Lemma concat_filter_nonempty (l : list (list ascii)) :
  concat (filter (fun s => s <> []) l) = concat l.
Proof.
  induction l as [|s l IH]; [done|].
  rewrite filter_cons.
  destruct (decide (s <> [])) as [|Hs]; simpl; rewrite IH; [done|].
  destruct s; [done|]. by destruct Hs.
Qed.

Lemma string_of_list_ascii_concat (l : list (list ascii)) :
  foldr append "" (string_of_list_ascii <$> l) = string_of_list_ascii (concat l).
Proof.
  induction l as [|s l IH]; [done|].
  rewrite fmap_cons. cbn [foldr concat]. rewrite IH.
  clear IH. induction s as [|c s IHs]; [done|].
  cbn. rewrite <- IHs. reflexivity.
Qed.

(** The segments of [Split], put together again, are the identifier:
    splitting neither drops nor adds a character. *)
Lemma Split_concat (src : string) :
  foldr append "" (Split src) = src.
Proof.
  unfold Split, firstRuns.
  rewrite <- (string_of_list_ascii_of_string src) at 2.
  destruct (list_ascii_of_string src) as [|r l]; [done|].
  destruct (runs (classOf r) [r] l) as [|r0 rs] eqn:Hruns.
  - pose proof (runs_concat (classOf r) [r] l) as H.
    rewrite Hruns in H. done.
  - rewrite string_of_list_ascii_concat, concat_filter_nonempty, fixup_concat.
    pose proof (runs_concat (classOf r) [r] l) as H.
    rewrite Hruns in H. simpl in H. by rewrite H.
Qed.
End CamelCaseFacts.





(* ===================================================================== *)
(** ** The union hooks *)

Lemma map_size_one {A} (m : gmap string A) :
  size m = 1%nat -> exists k v, m = {[ k := v ]} /\ map_to_list m = [(k, v)].
Proof.
  intros Hsize.
  rewrite <- length_map_to_list in Hsize.
  destruct (map_to_list m) as [|[k v] [|? ?]] eqn:Hl; simplify_eq/=.
  exists k, v. split; [|done].
  rewrite <- (list_to_map_to_list m), Hl. simpl.
  by rewrite insert_empty.
Qed.

(** C7.  For a destination of pointer kind, [decodeUnionHook] returns the
    only value of a map of one key, and returns a map of two keys or more
    as it is. *)
Theorem decodeUnionHook_union (E : Env) (c : Codec) (from elem : GoType)
    (m : gmap string GoValue) :
  (size m = 1%nat ->
   exists k v, m = {[ k := v ]} /\
     decodeUnionHook E c from (TPtr elem) (VMap m) = Ok v) /\
  ((2 <= size m)%nat ->
   decodeUnionHook E c from (TPtr elem) (VMap m) = Ok (VMap m)).
Proof.
  split.
  - intros Hsize.
    destruct (map_size_one m Hsize) as (k & v & Hm & Hl).
    exists k, v. split; [done|].
    unfold decodeUnionHook. simpl.
    rewrite bool_decide_eq_true_2 by done.
    by rewrite Hl.
  - intros Hsize.
    unfold decodeUnionHook. simpl.
    rewrite bool_decide_eq_false_2 by lia.
    done.
Qed.

(** The hook on the union [{"long": 42}] and on the record
    [{"x": 1, "y": 2}], both for a pointer destination. *)
Lemma decodeUnionHook_union_witness :
  decodeUnionHook Fixtures.TestEnv
    (mkCodec (goavro.codecOf goavro.ANull) "" DefaultTypeNameEncoder)
    TMap (TPtr (TScalar KInt (predeclared KInt)))
    (VMap {[ "long" := Fixtures.int64Value 42 ]})
  = Ok (Fixtures.int64Value 42) /\
  decodeUnionHook Fixtures.TestEnv
    (mkCodec (goavro.codecOf goavro.ANull) "" DefaultTypeNameEncoder)
    TMap (TPtr (TScalar KInt (predeclared KInt)))
    (VMap (<[ "x" := Fixtures.int64Value 1 ]> {[ "y" := Fixtures.int64Value 2 ]}))
  = Ok (VMap (<[ "x" := Fixtures.int64Value 1 ]> {[ "y" := Fixtures.int64Value 2 ]})).
Proof.
  split.
  - destruct (decodeUnionHook_union Fixtures.TestEnv
      (mkCodec (goavro.codecOf goavro.ANull) "" DefaultTypeNameEncoder)
      TMap (TScalar KInt (predeclared KInt))
      {[ "long" := Fixtures.int64Value 42 ]}) as [H _].
    destruct (H (map_size_singleton _ _)) as (k & v & Hm & ->).
    apply map_singleton_inj in Hm as [_ <-]. done.
  - apply (decodeUnionHook_union Fixtures.TestEnv
      (mkCodec (goavro.codecOf goavro.ANull) "" DefaultTypeNameEncoder)
      TMap (TScalar KInt (predeclared KInt))).
    by_decide.
Defined.

(** The name that [getTypeName] gives to a slot that is not an interface:
    the [AvroName] of its type if it has one, else its encoded name. *)
Definition avroVisibleName (c : Codec) (pointed : GoValue) : string :=
  match AvroName (declOf (reflect_Interface pointed)) with
  | Some n => n
  | None => TypeNameEncoder c (Name (declOf pointed))
  end.

Lemma encodeUnionHook_nil_slot (c : Codec) (pointed val : GoValue) :
  encodeUnionHook c (kindOf pointed) (reflect_Interface pointed) = Ok val ->
  getTypeName c pointed = Ok (avroVisibleName c pointed).
Proof.
  unfold getTypeName, avroVisibleName.
  destruct (AvroName (declOf (reflect_Interface pointed))); [done|].
  destruct pointed as [| | | | | | | |v]; try done.
  by destruct v.
Qed.



(* ===================================================================== *)
(** ** The wire header *)

Definition isInt32 (x : Z) : Prop := - 2 ^ 31 <= x < 2 ^ 31.

Lemma byte_of_mod (x : Z) : byte_of x = x mod 256.
Proof. unfold byte_of. change 255 with (Z.ones 8). by rewrite Z.land_ones. Qed.

Lemma byte_of_range (x : Z) : 0 <= byte_of x < 256.
Proof. rewrite byte_of_mod. apply Z.mod_pos_bound. lia. Qed.

Lemma BigEndian_Uint32_PutUint32 (v : Z) :
  BigEndian_Uint32 (BigEndian_PutUint32 v) = v mod 2 ^ 32.
Proof.
  unfold BigEndian_Uint32, BigEndian_PutUint32, byte_of.
  change 255 with (Z.ones 8).
  rewrite <- Z.land_ones by lia.
  Z.bitblast.
Qed.

Lemma int32_of_uint32_of (x : Z) : isInt32 x -> int32_of (uint32_of x) = x.
Proof.
  unfold isInt32, int32_of, uint32_of. intros Hx.
  rewrite Zplus_mod_idemp_l.
  rewrite Z.mod_small; lia.
Qed.

Lemma int32_of_range (x : Z) : isInt32 (int32_of x).
Proof.
  unfold isInt32, int32_of.
  pose proof (Z.mod_pos_bound (x + 2 ^ 31) (2 ^ 32)). lia.
Qed.

Lemma uint32_of_idem (x : Z) : uint32_of x mod 2 ^ 32 = uint32_of x.
Proof. unfold uint32_of. apply Z.mod_mod. lia. Qed.

(** The five bytes of a header, in arithmetic. *)
Lemma binary_Write_Header_bytes (ID : Z) :
  binary_Write_Header (mkHeader MagicByte ID)
  = [ 0;
      uint32_of ID / 2 ^ 24 mod 256; uint32_of ID / 2 ^ 16 mod 256;
      uint32_of ID / 2 ^ 8 mod 256; uint32_of ID mod 256 ].
Proof.
  unfold binary_Write_Header, BigEndian_PutUint32. simpl header_MagicByte.
  simpl header_ID.
  rewrite !byte_of_mod, !Z.shiftr_div_pow2 by lia.
  done.
Qed.

Lemma io_ReadFull_app (l rest : list Z) :
  l <> [] -> io_ReadFull (l ++ rest) (length l) = (None, l, rest).
Proof.
  intros Hl. unfold io_ReadFull.
  destruct l as [|a l]; [done|].
  cbn [length app].
  rewrite decide_False by (rewrite length_app; lia).
  change (a :: l ++ rest) with ((a :: l) ++ rest).
  change (S (length l)) with (length (a :: l)).
  by rewrite take_app_length, drop_app_length.
Qed.

(** What [Unmarshal] reads from the bytes that [Marshal] writes. *)
Lemma readHeader_Write_Header (ID : Z) (body : list Z) :
  isInt32 ID ->
  readHeader (binary_Write_Header (mkHeader MagicByte ID) ++ body)
  = Ok (mkHeader MagicByte ID, body).
Proof.
  intros HID.
  change (binary_Write_Header (mkHeader MagicByte ID) ++ body)
    with ([0] ++ BigEndian_PutUint32 (uint32_of ID) ++ body).
  pose proof (io_ReadFull_app [0]
    (BigEndian_PutUint32 (uint32_of ID) ++ body) ltac:(done)) as H1.
  pose proof (io_ReadFull_app (BigEndian_PutUint32 (uint32_of ID)) body
    ltac:(done)) as H4.
  cbn [length BigEndian_PutUint32] in H1, H4.
  unfold readHeader, binary_Read_uint8, binary_Read_int32.
  cbn [BigEndian_PutUint32].
  rewrite H1. cbn [head default notNilNorEOF].
  rewrite H4. cbn [notNilNorEOF].
  change [byte_of (uint32_of ID ≫ 24); byte_of (uint32_of ID ≫ 16);
          byte_of (uint32_of ID ≫ 8); byte_of (uint32_of ID)]
    with (BigEndian_PutUint32 (uint32_of ID)).
  rewrite BigEndian_Uint32_PutUint32, uint32_of_idem, int32_of_uint32_of by done.
  done.
Qed.

(* ===================================================================== *)
(** ** Errors of the encoding hook *)

(** The number of constructors of a value that [encodeUnionHook] can
    visit: it does not look inside maps. *)
Fixpoint vsize (v : GoValue) : nat :=
  match v with
  | VStruct _ fs =>
      S ((fix go (l : list (string * string * GoValue)) : nat :=
            match l with
            | [] => O
            | (_, _, x) :: r => (vsize x + go r)%nat
            end) fs)
  | VPtr _ (Some p) => S (vsize p)
  | VSlice _ l =>
      S ((fix go (l : list GoValue) : nat :=
            match l with
            | [] => O
            | x :: r => (vsize x + go r)%nat
            end) l)
  | VIface x => S (vsize x)
  | _ => 1%nat
  end.

Definition fieldsSize (fs : list (string * string * GoValue)) : nat :=
  foldr (fun f n => (vsize f.2 + n)%nat) O fs.

Definition elemsSize (l : list GoValue) : nat :=
  foldr (fun x n => (vsize x + n)%nat) O l.

Lemma vsize_VStruct d fs : vsize (VStruct d fs) = S (fieldsSize fs).
Proof.
  simpl. f_equal. induction fs as [|[[n t] x] fs IH].
  - done.
  - simpl. by rewrite IH.
Qed.

Lemma vsize_VSlice e l : vsize (VSlice e l) = S (elemsSize l).
Proof.
  reflexivity.
Qed.

Lemma vsize_Interface (v : GoValue) : (vsize (reflect_Interface v) <= vsize v)%nat.
Proof. destruct v; simpl; lia. Qed.

Lemma convertToBaseType_not_Err (v : GoValue) (e : error) :
  convertToBaseType v <> Err e.
Proof.
  destruct v; simpl; try done.
  - by destruct (isSimpleKind k).
  - by destruct (GoType_beq _ _).
Qed.

Lemma FillMap_not_Err (hook : Kind -> GoValue -> result GoValue)
    (fs : list (string * string * GoValue)) :
  (forall f, f ∈ fs -> forall e, hook (kindOf f.2) (reflect_Interface f.2) <> Err e) ->
  forall out e, structs.FillMap hook fs out <> Err e.
Proof.
  induction fs as [|[[n t] x] fs IH]; intros Hhook out e; [done|].
  assert (forall out e, structs.FillMap hook fs out <> Err e) as IH'.
  { apply IH. intros f Hf. apply Hhook. by right. }
  cbn [structs.FillMap].
  destruct (structs.parseTag t) as [tagName tagOpts].
  destruct (_ || _); [apply IH'|].
  destruct (_ && _); [apply IH'|].
  destruct (hook (kindOf x) (reflect_Interface x)) as [v|e'|m] eqn:Hx; simpl.
  - apply IH'.
  - exfalso. eapply (Hhook (n, t, x)); [by left|exact Hx].
  - done.
Qed.

Lemma mapM_not_Err {A B} (f : A -> result B) (l : list A) :
  (forall x, x ∈ l -> forall e, f x <> Err e) ->
  forall e, mapM f l <> Err e.
Proof.
  induction l as [|x l IH]; intros Hf e; [done|].
  assert (forall e, mapM f l <> Err e) as IH'.
  { apply IH. intros y Hy. apply Hf. by right. }
  simpl. destruct (f x) as [b|e'|m] eqn:Hx; simpl.
  - destruct (mapM f l) as [bs|e''|m]; simpl; [done| |done].
    by destruct (IH' e'').
  - exfalso. eapply Hf; [by left|exact Hx].
  - done.
Qed.

Lemma fieldsSize_elem (fs : list (string * string * GoValue)) f :
  f ∈ fs -> (vsize f.2 <= fieldsSize fs)%nat.
Proof.
  unfold fieldsSize. induction 1 as [|? ? ? ? IH]; simpl; lia.
Qed.

Lemma elemsSize_elem (l : list GoValue) x :
  x ∈ l -> (vsize x <= elemsSize l)%nat.
Proof.
  unfold elemsSize. induction 1 as [|? ? ? ? IH]; simpl; lia.
Qed.

(** [encodeUnionHook] has no [return nil, err] of its own: it returns a
    value or panics. *)
Lemma encodeUnionHook_not_Err (c : Codec) (data : GoValue) :
  forall kind e, encodeUnionHook c kind data <> Err e.
Proof.
  remember (vsize data) as n eqn:Hn.
  revert data Hn.
  induction n as [n IH] using lt_wf_ind.
  intros data -> kind e.
  assert (forall x, (vsize x < vsize data)%nat ->
            forall k e, encodeUnionHook c k x <> Err e) as IH'.
  { intros x Hx. by eapply IH. }
  clear IH.
  destruct data as [| | | |d fs|elem [pointed|]|elem l| |]; destruct kind;
    try (cbn [encodeUnionHook]; apply convertToBaseType_not_Err); try done.
  - (* Struct *)
    cbn [encodeUnionHook].
    destruct (structs.FillMap _ fs ∅) as [m|e'|m] eqn:Hfs; simpl; try done.
    exfalso. eapply (FillMap_not_Err _ fs); [|exact Hfs].
    intros f Hf e''. apply IH'.
    pose proof (vsize_Interface f.2). pose proof (fieldsSize_elem fs f Hf).
    rewrite vsize_VStruct. lia.
  - (* Ptr *)
    cbn [encodeUnionHook].
    destruct (encodeUnionHook c (kindOf pointed) (reflect_Interface pointed))
      as [val|e'|m] eqn:Hp; simpl.
    + unfold getTypeName.
      destruct (AvroName _); [done|].
      by destruct (reflect_Interface pointed).
    + exfalso. eapply (IH' (reflect_Interface pointed)); [|exact Hp].
      pose proof (vsize_Interface pointed). simpl. lia.
    + done.
  - (* Slice *)
    cbn [encodeUnionHook].
    destruct (mapM _ l) as [vals|e'|m] eqn:Hl; simpl; try done.
    exfalso. eapply (mapM_not_Err _ l); [|exact Hl].
    intros x Hx e''. apply IH'.
    pose proof (vsize_Interface x). pose proof (elemsSize_elem l x Hx).
    rewrite vsize_VSlice. lia.
Qed.

(** An error of [Codec.Marshal] is an error of the binary codec. *)
Lemma Codec_Marshal_Err (c : Codec) (st : GoValue) (e : error) :
  Codec_Marshal c st = Err e -> exists msg, e = ErrOther msg.
Proof.
  unfold Codec_Marshal, marshal.
  destruct (match st with VPtr _ None => _ | VPtr _ (Some value) => _ | _ => _ end)
    as [kd|e'|m] eqn:Hkd; simpl.
  - destruct (encodeUnionHook c kd.1 kd.2) as [n|e'|m] eqn:Hn; simpl.
    + destruct (BinaryFromNative _ n); simpl; [done| |done].
      intros [= <-]. by eexists.
    + by apply encodeUnionHook_not_Err in Hn.
    + done.
  - destruct st as [| | | | |? [?|]| | |]; done.
  - done.
Qed.

(* ===================================================================== *)
(** ** [Marshal] *)

Lemma Marshal_Ok_inv (r : CodecRegistry) (data : GoValue) (out : list Z) :
  Marshal r data = Ok out ->
  SchemaID r <> UnknownID /\
  exists codec body,
    codecByID r !! SchemaID r = Some codec /\
    Codec_Marshal codec data = Ok body /\
    out = binary_Write_Header (mkHeader MagicByte (SchemaID r)) ++ body.
Proof.
  unfold Marshal. case_bool_decide as Hid; [done|].
  destruct (codecByID r !! SchemaID r) as [codec|]; [|done].
  destruct (Codec_Marshal codec data) as [body|e|m] eqn:Hbody; simpl; try done.
  intros [= <-]. split; [done|]. by exists codec, body.
Qed.

(** C2.  The bytes that [Marshal] returns are five header bytes and then
    the bytes of the codec of the current schema id: byte 0 is 0, bytes 1
    to 4 are the id in big-endian order (most significant byte first, the
    id taken modulo 2^32), and read back as a signed 32-bit integer they
    are the id. *)
Theorem Marshal_wire_format (r : CodecRegistry) (data : GoValue) (out : list Z) :
  isInt32 (SchemaID r) ->
  Marshal r data = Ok out ->
  exists codec body,
    codecByID r !! SchemaID r = Some codec /\
    Codec_Marshal codec data = Ok body /\
    out = [ 0;
            uint32_of (SchemaID r) / 2 ^ 24 mod 256;
            uint32_of (SchemaID r) / 2 ^ 16 mod 256;
            uint32_of (SchemaID r) / 2 ^ 8 mod 256;
            uint32_of (SchemaID r) mod 256 ] ++ body /\
    out !! 0%nat = Some 0 /\
    int32_of (BigEndian_Uint32 (take 4 (drop 1 out))) = SchemaID r /\
    drop 5 out = body.
Proof.
  intros Hrange Hout.
  destruct (Marshal_Ok_inv r data out Hout) as (_ & codec & body & Hc & Hb & ->).
  exists codec, body.
  split; [done|]. split; [done|].
  split; [by rewrite binary_Write_Header_bytes|].
  split; [done|].
  split; [|done].
  change (take 4 (drop 1 (binary_Write_Header (mkHeader MagicByte (SchemaID r)) ++ body)))
    with (BigEndian_PutUint32 (uint32_of (SchemaID r))).
  by rewrite BigEndian_Uint32_PutUint32, uint32_of_idem, int32_of_uint32_of.
Qed.

(** [codecV1.Marshal(&Person{"Nico", 36})] of [TestAvroCodecRegistry]:
    the id is 0, the body is the string and the zig-zag of 36. *)
Lemma Marshal_wire_format_witness :
  exists codec body,
    codecByID (registry Fixtures.codecV1) !! SchemaID (registry Fixtures.codecV1)
      = Some codec /\
    Codec_Marshal codec
      (VPtr Fixtures.PersonType (Some (Fixtures.Person "Nico" 36))) = Ok body /\
    [0; 0; 0; 0; 0; 8; 78; 105; 99; 111; 72]
      = [ 0;
          uint32_of (SchemaID (registry Fixtures.codecV1)) / 2 ^ 24 mod 256;
          uint32_of (SchemaID (registry Fixtures.codecV1)) / 2 ^ 16 mod 256;
          uint32_of (SchemaID (registry Fixtures.codecV1)) / 2 ^ 8 mod 256;
          uint32_of (SchemaID (registry Fixtures.codecV1)) mod 256 ] ++ body /\
    [0; 0; 0; 0; 0; 8; 78; 105; 99; 111; 72] !! 0%nat = Some 0 /\
    int32_of (BigEndian_Uint32
                (take 4 (drop 1 [0; 0; 0; 0; 0; 8; 78; 105; 99; 111; 72])))
      = SchemaID (registry Fixtures.codecV1) /\
    drop 5 [0; 0; 0; 0; 0; 8; 78; 105; 99; 111; 72] = body.
Proof.
  apply (Marshal_wire_format (registry Fixtures.codecV1)
           (VPtr Fixtures.PersonType (Some (Fixtures.Person "Nico" 36)))).
  - by vm_compute.
  - by vm_compute.
Defined.

(** C5.  [Marshal] returns [ErrNoEncodeSchema] exactly when the current
    schema id is [UnknownID]; it then returns no bytes.  With any other
    id it writes the header and calls the codec stored under that id. *)
Theorem Marshal_ErrNoEncodeSchema (r : CodecRegistry) (data : GoValue) :
  (Marshal r data = Err ErrNoEncodeSchema <-> SchemaID r = UnknownID) /\
  (forall out, Marshal r data = Ok out -> SchemaID r <> UnknownID) /\
  (SchemaID r <> UnknownID ->
   Marshal r data
   = match codecByID r !! SchemaID r with
     | Some codec =>
         try byteData <- Codec_Marshal codec data in
         Ok (binary_Write_Header (mkHeader MagicByte (SchemaID r)) ++ byteData)
     | None => Panic "invalid memory address or nil pointer dereference"
     end).
Proof.
  split; [|split].
  - unfold Marshal. case_bool_decide as Hid; [done|].
    split; [|done].
    destruct (codecByID r !! SchemaID r) as [codec|]; [|done].
    destruct (Codec_Marshal codec data) as [body|e|m] eqn:Hbody; simpl; try done.
    intros [= ->]. by destruct (Codec_Marshal_Err _ _ _ Hbody).
  - intros out Hout. by destruct (Marshal_Ok_inv r data out Hout).
  - intros Hid. unfold Marshal. by rewrite bool_decide_eq_false_2.
Qed.

(** A registry made by [init] with no schema refuses to encode
    ([TestCodecRegistry_error_on_encode_with_empty_schema]); [codecV1]
    encodes. *)
Lemma Marshal_ErrNoEncodeSchema_witness :
  Marshal (registry (init Fixtures.TestEnv
             (Fixtures.NewMockCodecRegistry NOOP.NewNOOPClient "test") "" None).2)
    (VMap {[ "name" := Fixtures.stringValue "Nico" ]})
  = Err ErrNoEncodeSchema /\
  SchemaID (registry Fixtures.codecV1) <> UnknownID.
Proof.
  split.
  - apply (Marshal_ErrNoEncodeSchema _ _). by vm_compute.
  - apply (proj1 (proj2 (Marshal_ErrNoEncodeSchema (registry Fixtures.codecV1)
        (VPtr Fixtures.PersonType (Some (Fixtures.Person "Nico" 36)))))
        [0; 0; 0; 0; 0; 8; 78; 105; 99; 111; 72]).
    by vm_compute.
Defined.

(* ===================================================================== *)
(** ** The codec cache *)

(** One operation on a codec registry: [w'] is the world after the call.
    [init] is taken with the three functions that the package passes to
    it. *)
Inductive step (E : Env) : World E -> World E -> Prop :=
| step_Unmarshal (w : World E) fuel from to res w' :
    Unmarshal E fuel w from to = Some (res, w') -> step E w w'
| step_Marshal (w : World E) (data : GoValue) : step E w w
| step_getCodecByID (w : World E) ID : step E w (getCodecByID E w ID).2
| step_Register (w : World E) rawSchema : step E w (Register E w rawSchema).2
| step_SetTypeNameEncoder (w : World E) f : step E w (SetTypeNameEncoder E w f)
| step_init (w : World E) rawSchema : step E w (init E w rawSchema None).2
| step_initNotRegistered (w : World E) rawSchema msg :
    step E w (init E w rawSchema (Some (fun w => (Err (ErrOther msg), w)))).2
| step_initAndRegister (w : World E) rawSchema :
    step E w (initAndRegister E w rawSchema).2.

(** The ids cached in [w] are cached in [w']. *)
Definition keeps {E : Env} (w w' : World E) : Prop :=
  forall ID, is_Some (codecByID (registry w) !! ID) ->
             is_Some (codecByID (registry w') !! ID).

Section CacheFacts.
Context (E : Env).

Lemma keeps_refl (w : World E) : keeps w w.
Proof. by intros ID. Qed.

Lemma keeps_registry (w w' : World E) :
  codecByID (registry w') = codecByID (registry w) -> keeps w w'.
Proof. intros H ID. by rewrite H. Qed.

Lemma keeps_trans (w1 w2 w3 : World E) : keeps w1 w2 -> keeps w2 w3 -> keeps w1 w3.
Proof. intros H12 H23 ID H. by apply H23, H12. Qed.

Lemma keeps_setCodec (r : CodecRegistry) (ID ID' : Z) (codec : Codec) :
  is_Some (codecByID r !! ID') -> is_Some (codecByID (setCodec r ID codec) !! ID').
Proof.
  intros H. simpl. destruct (decide (ID = ID')) as [->|Hne].
  - rewrite lookup_insert_eq. by eexists.
  - by rewrite lookup_insert_ne.
Qed.

Lemma getCodecByID_hit (w : World E) (ID : Z) (codec : Codec) :
  codecByID (registry w) !! ID = Some codec ->
  getCodecByID E w ID = (Ok codec, w).
Proof. unfold getCodecByID. by intros ->. Qed.

(** What [getCodecByID] does on a miss, by the answer of the registry
    and of [NewCodec]. *)
Lemma getCodecByID_miss (w : World E) (ID : Z) :
  codecByID (registry w) !! ID = None ->
  getCodecByID E w ID
  = let fetched := GetSchemaByID E (remote w) ID in
    let asked := calls w ++ [CallGetSchemaByID ID] in
    match try rawSchema <- lift fetched.1 in NewCodec E rawSchema with
    | Ok codec =>
        (Ok codec, mkWorld (setCodec (registry w) ID codec) fetched.2 asked)
    | Err e => (Err e, mkWorld (registry w) fetched.2 asked)
    | Panic m => (Panic m, mkWorld (registry w) fetched.2 asked)
    end.
Proof.
  unfold getCodecByID, call_GetSchemaByID. intros ->.
  by destruct (GetSchemaByID E (remote w) ID) as [[rawSchema|msg|m] remote'].
Qed.

Lemma getCodecByID_keeps (w : World E) (ID : Z) : keeps w (getCodecByID E w ID).2.
Proof.
  destruct (codecByID (registry w) !! ID) as [codec|] eqn:Hlook.
  - rewrite (getCodecByID_hit w ID codec Hlook). apply keeps_refl.
  - rewrite (getCodecByID_miss w ID Hlook). cbv zeta.
    destruct (try rawSchema <- _ in _); simpl; try (by apply keeps_registry).
    intros ID' H. by apply keeps_setCodec.
Qed.

Lemma getCodecByID_SchemaID (w : World E) (ID : Z) :
  SchemaID (registry (getCodecByID E w ID).2) = SchemaID (registry w).
Proof.
  destruct (codecByID (registry w) !! ID) as [codec|] eqn:Hlook.
  - by rewrite (getCodecByID_hit w ID codec Hlook).
  - rewrite (getCodecByID_miss w ID Hlook). cbv zeta.
    by destruct (try rawSchema <- _ in _).
Qed.

(** When [getCodecByID] returns a codec, the cache holds it under the
    id. *)
Lemma getCodecByID_Ok (w w' : World E) (ID : Z) (codec : Codec) :
  getCodecByID E w ID = (Ok codec, w') ->
  codecByID (registry w') !! ID = Some codec.
Proof.
  destruct (codecByID (registry w) !! ID) as [codec'|] eqn:Hlook.
  - rewrite (getCodecByID_hit w ID codec' Hlook). by intros [= <- <-].
  - rewrite (getCodecByID_miss w ID Hlook). cbv zeta.
    destruct (try rawSchema <- _ in _); intros [= <- <-].
    simpl. by rewrite lookup_insert_eq.
Qed.

Lemma Unmarshal_keeps (fuel : nat) (w w' : World E) from to res :
  Unmarshal E fuel w from to = Some (res, w') -> keeps w w'.
Proof.
  revert w from.
  induction fuel as [|fuel IH]; intros w from; [done|].
  cbn [Unmarshal].
  destruct (readHeader from) as [[header body]|e|m].
  2,3: intros [= <- <-]; apply keeps_refl.
  pose proof (getCodecByID_keeps w (header_ID header)) as Hk.
  destruct (getCodecByID E w (header_ID header)) as [res1 w1].
  simpl in Hk.
  destruct res1 as [codec|e|m]; simpl.
  2,3: by intros [= <- <-].
  destruct (_ && _).
  - destruct (Codec_Unmarshal E codec body TMap) as [tmpTo|e|m].
    2,3: by intros [= <- <-].
    destruct (Marshal (registry w1) tmpTo) as [from'|e|m].
    2,3: by intros [= <- <-].
    intros H. eapply keeps_trans; [exact Hk|]. by eapply IH.
  - by intros [= <- <-].
Qed.

Lemma Register_keeps (w : World E) rawSchema : keeps w (Register E w rawSchema).2.
Proof.
  unfold Register, call_RegisterNewSchema, call_IsRegistered.
  destruct (RegisterNewSchema E _ _ _) as [[id|msg|m] remote1]; simpl;
    try (by apply keeps_registry).
  destruct (IsRegistered E _ _ _) as [[[isRegistered schema]|msg|m] remote2]; simpl;
    try (by apply keeps_registry).
  destruct isRegistered; simpl; [|by apply keeps_registry].
  destruct (NewCodec E rawSchema); simpl; try (by apply keeps_registry).
  intros ID H. simpl. by apply keeps_setCodec.
Qed.

Lemma SetTypeNameEncoder_keeps (w : World E) f : keeps w (SetTypeNameEncoder E w f).
Proof.
  intros ID [codec H]. simpl. rewrite lookup_fmap, H. by eexists.
Qed.

Lemma init_keeps (w : World E) rawSchema f :
  (forall w, keeps w (f w).2) ->
  keeps w (init E w rawSchema (Some f)).2 /\ keeps w (init E w rawSchema None).2.
Proof.
  intros Hf. unfold init, call_IsRegistered.
  case_bool_decide as Hlen; [split; by intros ID HID|].
  destruct (IsRegistered E _ _ _) as [[[isRegistered schema]|msg|m] remote1]; simpl;
    try (split; by apply keeps_registry).
  destruct isRegistered; simpl.
  - destruct (NewCodec E rawSchema); simpl; try (split; by apply keeps_registry).
    split; intros ID H; simpl; by apply keeps_setCodec.
  - split; [|by apply keeps_registry].
    intros ID H. by apply (Hf (mkWorld (registry w) remote1 _)).
Qed.

Lemma step_keeps (w w' : World E) : step E w w' -> keeps w w'.
Proof.
  destruct 1.
  - by eapply Unmarshal_keeps.
  - apply keeps_refl.
  - apply getCodecByID_keeps.
  - apply Register_keeps.
  - apply SetTypeNameEncoder_keeps.
  - apply (init_keeps w rawSchema (fun w => (Ok (), w))).
    intros w0. apply keeps_refl.
  - apply (init_keeps w rawSchema (fun w => (Err (ErrOther msg), w))).
    intros w0. apply keeps_refl.
  - apply (init_keeps w rawSchema (fun w => Register E w rawSchema)).
    intros w0. apply Register_keeps.
Qed.

(** C6.  [getCodecByID] on an id of the cache returns the stored codec
    and touches nothing, the registry included.  On any other id it asks
    the registry once for the schema of that id; with the schema and the
    codec made of it, it returns the codec and stores it under the id;
    with no schema or no codec it returns the error and leaves the maps of
    the registry as they were.  No sequence of operations removes an id
    from the cache. *)
Theorem codecByID_lazy_and_monotone (w : World E) (ID : Z) :
  (forall codec, codecByID (registry w) !! ID = Some codec ->
     getCodecByID E w ID = (Ok codec, w)) /\
  (codecByID (registry w) !! ID = None ->
     calls (getCodecByID E w ID).2 = calls w ++ [CallGetSchemaByID ID] /\
     remote (getCodecByID E w ID).2 = (GetSchemaByID E (remote w) ID).2 /\
     (forall rawSchema codec,
        (GetSchemaByID E (remote w) ID).1 = Ok rawSchema ->
        NewCodec E rawSchema = Ok codec ->
        (getCodecByID E w ID).1 = Ok codec /\
        codecByID (registry (getCodecByID E w ID).2)
          = <[ID := codec]> (codecByID (registry w))) /\
     (forall msg,
        (GetSchemaByID E (remote w) ID).1 = Err msg ->
        (getCodecByID E w ID).1 = Err (ErrOther msg) /\
        registry (getCodecByID E w ID).2 = registry w) /\
     (forall rawSchema e,
        (GetSchemaByID E (remote w) ID).1 = Ok rawSchema ->
        NewCodec E rawSchema = Err e ->
        (getCodecByID E w ID).1 = Err e /\
        registry (getCodecByID E w ID).2 = registry w)) /\
  (forall w', rtc (step E) w w' -> keeps w w').
Proof.
  split; [|split].
  - intros codec. apply getCodecByID_hit.
  - intros Hmiss. rewrite (getCodecByID_miss w ID Hmiss). cbv zeta.
    split; [by destruct (try rawSchema <- _ in _)|].
    split; [by destruct (try rawSchema <- _ in _)|].
    split; [|split].
    + intros rawSchema codec H1 H2. rewrite H1. simpl. by rewrite H2.
    + intros msg H1. by rewrite H1.
    + intros rawSchema e H1 H2. rewrite H1. simpl. by rewrite H2.
  - intros w' Hsteps. induction Hsteps as [|w1 w2 w3 H12 _ IH].
    + apply keeps_refl.
    + eapply keeps_trans; [|exact IH]. by apply step_keeps.
Qed.
End CacheFacts.

(* ===================================================================== *)
(** ** [Unmarshal] *)

(** The errors of the header: a wrong magic byte, a read that stops in
    the middle of the header. *)
Definition isProtocolError (e : error) : bool :=
  match e with
  | ErrMagicByte _ => true
  | ErrWrap msg (ErrIO _) =>
      bool_decide (msg = "binary.Read magic byte error")
      || bool_decide (msg = "binary.Read ID error")
  | _ => false
  end.

(** [Unmarshal] with its one inner call written out: what the second
    round does is the direct decoding by the codec of the current id. *)
Definition Unmarshal_twoRounds (E : Env) (w : World E) (from : list Z)
    (to : GoType) : result GoValue * World E :=
  match readHeader from with
  | Err e => (Err e, w)
  | Panic m => (Panic m, w)
  | Ok (header, body) =>
      let '(res, w) := getCodecByID E w (header_ID header) in
      match wrap "error when getting codec for schema id" res with
      | Err e => (Err e, w)
      | Panic m => (Panic m, w)
      | Ok codec =>
          if bool_decide (SchemaID (registry w) <> UnknownID)
             && bool_decide (header_ID header <> SchemaID (registry w))
          then
            (try tmpTo <- Codec_Unmarshal E codec body TMap in
             match codecByID (registry w) !! SchemaID (registry w) with
             | Some current =>
                 try body <- Codec_Marshal current tmpTo in
                 Codec_Unmarshal E current body to
             | None => Panic "invalid memory address or nil pointer dereference"
             end, w)
          else (Codec_Unmarshal E codec body to, w)
      end
  end.

Section UnmarshalFacts.
Context (E : Env).

(** The inner call of [Unmarshal]: on bytes framed with the current id it
    decodes with the codec of that id and does not call itself. *)
Lemma Unmarshal_current (w : World E) (current : Codec) (body : list Z)
    (to : GoType) (fuel : nat) :
  isInt32 (SchemaID (registry w)) ->
  codecByID (registry w) !! SchemaID (registry w) = Some current ->
  Unmarshal E (S fuel) w
    (binary_Write_Header (mkHeader MagicByte (SchemaID (registry w))) ++ body) to
  = Some (Codec_Unmarshal E current body to, w).
Proof.
  intros Hrange Hcur.
  cbn [Unmarshal].
  rewrite readHeader_Write_Header by done.
  cbn [header_ID].
  rewrite (getCodecByID_hit E w _ current Hcur).
  cbn [wrap].
  rewrite (bool_decide_eq_false_2 (SchemaID (registry w) <> SchemaID (registry w)))
    by (intros H; by apply H).
  by rewrite andb_false_r.
Qed.

Lemma Unmarshal_S (fuel : nat) (w : World E) (from : list Z) (to : GoType) :
  Unmarshal E (S fuel) w from to
  = match readHeader from with
    | Err e => Some (Err e, w)
    | Panic m => Some (Panic m, w)
    | Ok (header, body) =>
        let '(res, w) := getCodecByID E w (header_ID header) in
        match wrap "error when getting codec for schema id" res with
        | Err e => Some (Err e, w)
        | Panic m => Some (Panic m, w)
        | Ok codec =>
            if bool_decide (SchemaID (registry w) <> UnknownID)
               && bool_decide (header_ID header <> SchemaID (registry w))
            then
              match Codec_Unmarshal E codec body TMap with
              | Err e => Some (Err e, w)
              | Panic m => Some (Panic m, w)
              | Ok tmpTo =>
                  match Marshal (registry w) tmpTo with
                  | Err e => Some (Err e, w)
                  | Panic m => Some (Panic m, w)
                  | Ok from => Unmarshal E fuel w from to
                  end
              end
            else Some (Codec_Unmarshal E codec body to, w)
        end
    end.
Proof. reflexivity. Qed.

(** [Marshal] followed by the inner call of [Unmarshal]. *)
Lemma Unmarshal_after_Marshal (w : World E) (tmpTo : GoValue) (to : GoType)
    (fuel : nat) :
  isInt32 (SchemaID (registry w)) ->
  SchemaID (registry w) <> UnknownID ->
  match Marshal (registry w) tmpTo with
  | Err e => Some (Err e, w)
  | Panic m => Some (Panic m, w)
  | Ok from => Unmarshal E (S fuel) w from to
  end
  = Some (match codecByID (registry w) !! SchemaID (registry w) with
          | Some current =>
              try body <- Codec_Marshal current tmpTo in
              Codec_Unmarshal E current body to
          | None => Panic "invalid memory address or nil pointer dereference"
          end, w).
Proof.
  intros Hrange Hknown.
  unfold Marshal. rewrite bool_decide_eq_false_2 by done.
  destruct (codecByID (registry w) !! SchemaID (registry w)) as [current|] eqn:Hcur;
    [|done].
  destruct (Codec_Marshal current tmpTo) as [body|e|m]; [|done|done].
  cbn [rbind].
  by apply Unmarshal_current.
Qed.

Lemma Unmarshal_unfold (w : World E) (from : list Z) (to : GoType) (fuel : nat) :
  isInt32 (SchemaID (registry w)) ->
  Unmarshal E (S (S fuel)) w from to = Some (Unmarshal_twoRounds E w from to).
Proof.
  intros Hrange.
  rewrite Unmarshal_S. unfold Unmarshal_twoRounds.
  destruct (readHeader from) as [[header body]|e|m]; [|done|done].
  pose proof (getCodecByID_SchemaID E w (header_ID header)) as HID.
  destruct (getCodecByID E w (header_ID header)) as [res w1].
  cbn [snd] in HID.
  destruct res as [codec|e|m]; cbn [wrap]; [|done|done].
  destruct (bool_decide (SchemaID (registry w1) <> UnknownID)) eqn:Hknown;
    [|done].
  apply bool_decide_eq_true_1 in Hknown.
  destruct (bool_decide (header_ID header <> SchemaID (registry w1))); [|done].
  cbn [andb].
  destruct (Codec_Unmarshal E codec body TMap) as [tmpTo|e|m]; [|done|done].
  cbn [rbind].
  apply Unmarshal_after_Marshal; [by rewrite HID|done].
Qed.
End UnmarshalFacts.

(** The header of an input of five bytes or more that starts with 0. *)
Lemma readHeader_five (b1 b2 b3 b4 : Z) (body : list Z) :
  readHeader (0 :: b1 :: b2 :: b3 :: b4 :: body)
  = Ok (mkHeader 0 (int32_of (BigEndian_Uint32 [b1; b2; b3; b4])), body).
Proof.
  unfold readHeader, binary_Read_uint8, binary_Read_int32, io_ReadFull.
  cbn [length]. rewrite !decide_False by lia.
  done.
Qed.

Section UnmarshalTheorems.
Context (E : Env).

(** C10.  [Unmarshal] returns with two levels of calls at most: whatever
    the bytes, every bound of two or more gives the same result, that of
    [Unmarshal_twoRounds].  When it reconciles, the bytes that [Marshal]
    made start with the header of the current id, so the inner call reads
    that id, finds its codec in the cache and decodes directly. *)
Theorem Unmarshal_terminates (w : World E) (from : list Z) (to : GoType) :
  isInt32 (SchemaID (registry w)) ->
  (forall fuel, (2 <= fuel)%nat ->
     Unmarshal E fuel w from to = Some (Unmarshal_twoRounds E w from to)) /\
  (forall header body codec w1 tmpTo framed,
     readHeader from = Ok (header, body) ->
     getCodecByID E w (header_ID header) = (Ok codec, w1) ->
     SchemaID (registry w1) <> UnknownID ->
     header_ID header <> SchemaID (registry w1) ->
     Codec_Unmarshal E codec body TMap = Ok tmpTo ->
     Marshal (registry w1) tmpTo = Ok framed ->
     exists current body',
       codecByID (registry w1) !! SchemaID (registry w1) = Some current /\
       readHeader framed = Ok (mkHeader MagicByte (SchemaID (registry w1)), body') /\
       forall n, Unmarshal E (S n) w1 framed to
                 = Some (Codec_Unmarshal E current body' to, w1)).
Proof.
  intros Hrange. split.
  - intros [|[|fuel]] Hfuel; [lia|lia|]. by apply Unmarshal_unfold.
  - intros header body codec w1 tmpTo framed Hhead Hget Hknown Hdiff Htmp Hframed.
    assert (isInt32 (SchemaID (registry w1))) as Hrange1.
    { pose proof (getCodecByID_SchemaID E w (header_ID header)) as H.
      rewrite Hget in H. simpl in H. by rewrite H. }
    destruct (Marshal_Ok_inv _ _ _ Hframed) as (_ & current & body' & Hcur & _ & ->).
    exists current, body'.
    split; [done|]. split; [by apply readHeader_Write_Header|].
    intros n. by apply Unmarshal_current.
Qed.

(** C3, as the code has it.  [Unmarshal] returns a header error, and
    leaves the registry alone, when the first byte is there and is not 0,
    and when the input has two to four bytes.  It does not on the empty
    input nor on the single byte 0: both read as the header of id 0 with
    an empty body.  On five bytes or more that start with 0 the header is
    the id in bytes 1 to 4, and the bytes after the fifth are what the
    resolved codec decodes when no reconciliation is due. *)
Theorem Unmarshal_header (w : World E) (from : list Z) (to : GoType) (fuel : nat) :
  (forall b rest, from = b :: rest -> b <> 0 ->
     exists e, isProtocolError e = true /\
       Unmarshal E (S fuel) w from to = Some (Err e, w)) /\
  ((2 <= length from < 5)%nat ->
     Unmarshal E (S fuel) w from to
     = Some (Err (ErrWrap "binary.Read ID error" (ErrIO ErrUnexpectedEOF)), w)) /\
  (from = [] \/ from = [0] -> readHeader from = Ok (mkHeader 0 0, [])) /\
  (forall b1 b2 b3 b4 body, from = 0 :: b1 :: b2 :: b3 :: b4 :: body ->
     readHeader from
     = Ok (mkHeader 0 (int32_of (BigEndian_Uint32 [b1; b2; b3; b4])), body)) /\
  (forall header body codec w1,
     readHeader from = Ok (header, body) ->
     getCodecByID E w (header_ID header) = (Ok codec, w1) ->
     SchemaID (registry w1) = UnknownID \/ header_ID header = SchemaID (registry w1) ->
     Unmarshal E (S fuel) w from to = Some (Codec_Unmarshal E codec body to, w1)).
Proof.
  split; [|split; [|split; [|split]]].
  - intros b rest -> Hb.
    rewrite Unmarshal_S.
    destruct rest as [|b1 [|b2 [|b3 [|b4 body]]]].
    + exists (ErrMagicByte b). split; [done|].
      unfold readHeader. simpl. by rewrite bool_decide_eq_true_2.
    + by exists (ErrWrap "binary.Read ID error" (ErrIO ErrUnexpectedEOF)).
    + by exists (ErrWrap "binary.Read ID error" (ErrIO ErrUnexpectedEOF)).
    + by exists (ErrWrap "binary.Read ID error" (ErrIO ErrUnexpectedEOF)).
    + exists (ErrMagicByte b). split; [done|].
      unfold readHeader, binary_Read_uint8, binary_Read_int32, io_ReadFull.
      cbn [length]. rewrite !decide_False by lia.
      simpl. by rewrite bool_decide_eq_true_2.
  - intros Hlen. rewrite Unmarshal_S.
    destruct from as [|b [|b1 [|b2 [|b3 [|b4 body]]]]]; simpl in Hlen; try lia;
      done.
  - by intros [-> | ->].
  - intros b1 b2 b3 b4 body ->. apply readHeader_five.
  - intros header body codec w1 Hhead Hget Hcond.
    rewrite Unmarshal_S, Hhead, Hget. cbn [wrap].
    destruct Hcond as [Hunknown | Hsame].
    + by rewrite (bool_decide_eq_false_2 _ (fun H => H Hunknown)).
    + rewrite (bool_decide_eq_false_2 (header_ID header <> _) (fun H => H Hsame)).
      by rewrite andb_false_r.
Qed.
End UnmarshalTheorems.

(* ===================================================================== *)
(** ** The binary codec on integers and strings *)

Section GoavroFacts.
Import goavro.

Definition isInt64 (n : Z) : Prop := - 2 ^ 63 <= n < 2 ^ 63.

Lemma unzigzag_zigzag (n : Z) : unzigzag (zigzag n) = n.
Proof.
  unfold zigzag, unzigzag.
  destruct (Z.leb_spec 0 n).
  - rewrite Z.even_mul. simpl. rewrite Z.mul_comm, Z.div_mul; lia.
  - replace (- 2 * n - 1) with (1 + 2 * (- n - 1)) by lia.
    rewrite Z.even_add_mul_2. simpl.
    replace (1 + 2 * (- n - 1) + 1) with ((- n) * 2) by lia.
    rewrite Z.div_mul; lia.
Qed.

Lemma zigzag_range (n : Z) : isInt64 n -> 0 <= zigzag n < 2 ^ 64.
Proof. unfold isInt64, zigzag. intros H. destruct (Z.leb_spec 0 n); lia. Qed.

Lemma unvarint_varint (groups : nat) :
  forall u rest weight acc,
    0 <= u < 128 ^ Z.of_nat (S groups) ->
    unvarint (varint (S groups) u ++ rest) weight acc
    = Ok (acc + weight * u, rest).
Proof.
  induction groups as [|groups IH]; intros u rest weight acc Hu.
  - change (128 ^ Z.of_nat 1) with 128 in Hu.
    cbn [varint]. rewrite (proj2 (Z.ltb_lt u 128)) by lia.
    cbn [app unvarint]. by rewrite (proj2 (Z.ltb_lt u 128)) by lia.
  - set (g := S groups) in *. cbn [varint].
    destruct (Z.ltb_spec u 128) as [Hsmall|Hbig].
    + cbn [app unvarint].
      by rewrite (proj2 (Z.ltb_lt u 128)) by lia.
    + cbn [app unvarint].
      pose proof (Z.mod_pos_bound u 128 ltac:(lia)) as Hmod.
      rewrite (proj2 (Z.ltb_ge (u mod 128 + 128) 128)) by lia.
      rewrite Nat2Z.inj_succ, Z.pow_succ_r in Hu by lia.
      subst g. rewrite IH.
      * f_equal. f_equal.
        pose proof (Z.div_mod u 128 ltac:(lia)) as Hdm. lia.
      * split; [apply Z.div_pos; lia|].
        apply Z.div_lt_upper_bound; lia.
Qed.

Lemma getLong_putLong (n : Z) (rest : list Z) :
  isInt64 n -> getLong (putLong n ++ rest) = Ok (n, rest).
Proof.
  intros Hn. unfold getLong, putLong.
  rewrite (unvarint_varint 9).
  - cbn [rbind fst snd]. rewrite Z.add_0_l, Z.mul_1_l. by rewrite unzigzag_zigzag.
  - pose proof (zigzag_range n Hn).
    change (128 ^ Z.of_nat 10) with (2 ^ 70).
    assert (2 ^ 64 < 2 ^ 70) by (apply Z.pow_lt_mono_r; lia). lia.
Qed.

Lemma stringOfBytes_bytesOfString (s : string) :
  stringOfBytes (bytesOfString s) = s.
Proof.
  unfold stringOfBytes, bytesOfString.
  rewrite <- list_fmap_compose.
  rewrite <- (string_of_list_ascii_of_string s) at 2.
  f_equal.
  induction (list_ascii_of_string s) as [|c l IH]; [done|].
  cbn [fmap list_fmap compose]. f_equal; [|exact IH].
  by rewrite N2Z.id, ascii_N_embedding.
Qed.

Lemma length_bytesOfString (s : string) :
  length (bytesOfString s) = String.length s.
Proof.
  unfold bytesOfString. rewrite length_fmap.
  induction s as [|c s IH]; [done|]. simpl. by rewrite IH.
Qed.

(** What the decoder of a string reads from a string that the encoder
    wrote; the length of a Go string is an [int]. *)
Lemma decode_string (s : string) (rest : list Z) :
  Z.of_nat (String.length s) < 2 ^ 63 ->
  decode AString (putLong (Z.of_nat (String.length s)) ++ bytesOfString s ++ rest)
  = Ok (VString (predeclared KString) s, rest).
Proof.
  intros Hlen.
  cbn [decode].
  rewrite getLong_putLong by (unfold isInt64; lia).
  cbn [rbind fst snd].
  rewrite bool_decide_eq_false_2 by lia.
  rewrite bool_decide_eq_false_2
    by (rewrite length_app, length_bytesOfString; lia).
  cbn [orb]. rewrite Nat2Z.id, <- length_bytesOfString.
  by rewrite take_app_length, drop_app_length, stringOfBytes_bytesOfString.
Qed.

Lemma decode_int (n : Z) (rest : list Z) :
  isInt64 n ->
  decode AInt (putLong n ++ rest) = Ok (VInt KInt32 (predeclared KInt32) n, rest).
Proof. intros Hn. cbn [decode]. by rewrite getLong_putLong. Qed.

Lemma decode_long (n : Z) (rest : list Z) :
  isInt64 n ->
  decode ALong (putLong n ++ rest) = Ok (VInt KInt64 (predeclared KInt64) n, rest).
Proof. intros Hn. cbn [decode]. by rewrite getLong_putLong. Qed.
End GoavroFacts.

(* ===================================================================== *)
(** ** Records of the binary codec, and the schemas of the tests *)

(** The loops of the record encoder and decoder, on their own. *)
Fixpoint encodeFields (m : gmap string GoValue)
    (fs : list (string * goavro.AvroType * option GoValue)) : cresult (list Z) :=
  match fs with
  | [] => Ok []
  | (name, ft, dflt) :: rest =>
      try b <-
        match m !! name with
        | Some v => goavro.encode ft v
        | None =>
            match dflt with
            | Some v => goavro.encode ft v
            | None =>
                Err "cannot encode binary record: field value was not specified"
            end
        end in
      try bs <- encodeFields m rest in
      Ok (b ++ bs)
  end.

Fixpoint decodeFields (fs : list (string * goavro.AvroType * option GoValue))
    (buf : list Z) : cresult (gmap string GoValue * list Z) :=
  match fs with
  | [] => Ok (∅, buf)
  | (name, ft, _) :: rest =>
      try v <- goavro.decode ft buf in
      try r <- decodeFields rest v.2 in
      Ok (<[name := v.1]> r.1, r.2)
  end.

Section PersonFacts.
Import goavro Fixtures.

Lemma encode_ARecord (name : string) fs (m : gmap string GoValue) :
  encode (ARecord name fs) (VMap m) = encodeFields m fs.
Proof.
  cbn [encode]. induction fs as [|[[fname ft] dflt] fs IH]; [done|].
  cbn [encodeFields]. by rewrite <- IH.
Qed.

Lemma decode_ARecord (name : string) fs (buf : list Z) :
  decode (ARecord name fs) buf
  = try r <- decodeFields fs buf in Ok (VMap r.1, r.2).
Proof.
  reflexivity.
Qed.

Lemma encode_PersonV1 (m : gmap string GoValue) (name : string) (age : Z) (k : Kind) :
  m !! "name" = Some (stringValue name) ->
  m !! "age" = Some (VInt k (predeclared k) age) ->
  isGoInteger k (predeclared k) = true ->
  fitsInt32 age = true ->
  encode PersonV1 (VMap m)
  = Ok (putLong (Z.of_nat (String.length name)) ++ bytesOfString name ++ putLong age).
Proof.
  intros Hname Hage Hk Hfit.
  unfold PersonV1. rewrite encode_ARecord. cbn [encodeFields].
  rewrite Hname, Hage. cbn [encode stringValue].
  rewrite Hk, Hfit, bool_decide_eq_true_2 by done.
  cbn [andb rbind]. by rewrite app_nil_r, <- !app_assoc.
Qed.

Lemma encode_PersonV2 (m : gmap string GoValue) (name : string) (age : Z) (k : Kind) :
  m !! "name" = Some (stringValue name) ->
  m !! "age" = Some (VInt k (predeclared k) age) ->
  m !! "height" = None ->
  isGoInteger k (predeclared k) = true ->
  fitsInt32 age = true ->
  encode PersonV2 (VMap m)
  = Ok (putLong (Z.of_nat (String.length name)) ++ bytesOfString name
        ++ putLong age ++ putLong 150).
Proof.
  intros Hname Hage Hheight Hk Hfit.
  unfold PersonV2. rewrite encode_ARecord. cbn [encodeFields].
  rewrite Hname, Hage, Hheight. cbn [encode stringValue int32Value].
  rewrite Hk, Hfit, bool_decide_eq_true_2 by done.
  change (isGoInteger KInt32 (predeclared KInt32) && fitsInt32 150) with true.
  cbn [andb rbind]. by rewrite app_nil_r, <- !app_assoc.
Qed.

Lemma fitsInt32_isInt64 (n : Z) : fitsInt32 n = true -> isInt64 n.
Proof. unfold fitsInt32, isInt64. lia. Qed.

Lemma decode_PersonV1 (name : string) (age : Z) (rest : list Z) :
  Z.of_nat (String.length name) < 2 ^ 63 ->
  isInt64 age ->
  decode PersonV1
    (putLong (Z.of_nat (String.length name)) ++ bytesOfString name
     ++ putLong age ++ rest)
  = Ok (VMap (<["name" := stringValue name]> (<["age" := int32Value age]> ∅)), rest).
Proof.
  intros Hlen Hage.
  unfold PersonV1. rewrite decode_ARecord. cbn [decodeFields].
  rewrite decode_string by done. cbn [rbind fst snd].
  rewrite decode_int by done. done.
Qed.

Lemma decode_PersonV2 (name : string) (age height : Z) (rest : list Z) :
  Z.of_nat (String.length name) < 2 ^ 63 ->
  isInt64 age -> isInt64 height ->
  decode PersonV2
    (putLong (Z.of_nat (String.length name)) ++ bytesOfString name
     ++ putLong age ++ putLong height ++ rest)
  = Ok (VMap (<["name" := stringValue name]>
                (<["age" := int32Value age]>
                   (<["height" := int32Value height]> ∅))), rest).
Proof.
  intros Hlen Hage Hheight.
  unfold PersonV2. rewrite decode_ARecord. cbn [decodeFields].
  rewrite decode_string by done. cbn [rbind fst snd].
  rewrite decode_int by done. cbn [rbind fst snd].
  rewrite decode_int by done. done.
Qed.

Lemma Marshal_Person (name : string) (age : Z) :
  fitsInt32 age = true ->
  Marshal (registry codecV1) (VPtr PersonType (Some (Person name age)))
  = Ok (personPayload name age).
Proof.
  intros Hfit.
  change (Marshal (registry codecV1) (VPtr PersonType (Some (Person name age))))
    with (try byteData <- lift (encode PersonV1
             (VMap (<["age" := int32Value age]> (<["name" := stringValue name]> ∅)))) in
          Ok ([0; 0; 0; 0; 0] ++ byteData)).
  by rewrite (encode_PersonV1 _ name age KInt32).
Qed.

(** Decoding a map into a [map[string]interface{}] copies it, provided
    that no value is a nil pointer. *)
Definition noNilPointer (v : GoValue) : Prop :=
  match v with VPtr _ None => False | _ => True end.

Lemma Decode_generic_map (E : Env) (c : Codec) (m : gmap string GoValue) :
  map_Forall (fun _ v => noNilPointer v) m ->
  mapstructure.Decode (decodeUnionHook E c) TMap (VMap m) = Ok (VMap m).
Proof.
  intros Hm.
  unfold mapstructure.Decode. cbn [mapstructure.decode mapstructure.isNilInput].
  unfold mapstructure.runHook at 1. cbn [decodeUnionHook kindOfType rbind
    mapstructure.indirect].
  assert (forall kvs : list (string * GoValue),
            Forall (fun kv => noNilPointer kv.2) kvs ->
            (fix go (kvs : list (string * GoValue))
               : result (gmap string GoValue * bool) :=
               match kvs with
               | [] => Ok (∅, false)
               | (k, v) :: rest =>
                   mapstructure.collect
                     (try k' <- mapstructure.runHook (decodeUnionHook E c)
                                  (TScalar KString (predeclared KString))
                                  (VString (predeclared KString) k) in
                      mapstructure.decodeScalar KString (predeclared KString) k')
                     (VString (predeclared KString) "")
                     (fun k' kfailed =>
                        mapstructure.collect
                          (if mapstructure.isNilInput v then Ok (VIface VNil)
                           else try v' <- mapstructure.runHook (decodeUnionHook E c)
                                            TInterface v in
                                Ok (VIface v'))
                          (VIface VNil)
                          (fun v' vfailed =>
                             try r <- go rest in
                             match k' with
                             | VString _ key =>
                                 Ok (<[key := reflect_Interface v']> r.1,
                                     kfailed || vfailed || r.2)
                             | _ => Ok (r.1, true)
                             end))
               end) kvs
            = Ok (list_to_map kvs, false)) as Hgo.
  { induction kvs as [|[k v] kvs IH]; intros Hkvs; [done|].
    apply Forall_cons in Hkvs as [Hv Hkvs].
    rewrite (IH Hkvs). clear IH.
    destruct v as [| | | | |? [?|]| | |]; try done. }
  rewrite Hgo.
  - cbn [rbind fst snd]. by rewrite list_to_map_to_list.
  - apply map_Forall_to_list in Hm.
    eapply Forall_impl; [exact Hm|]. by intros [k v].
Qed.

Lemma Unmarshal_Person_upgrade (name : string) (age : Z) :
  fitsInt32 age = true ->
  Z.of_nat (String.length name) < 2 ^ 63 ->
  exists w',
    Unmarshal TestEnv 2 codecV2 (personPayload name age) TMap
    = Some (Ok (VMap (<["name" := stringValue name]>
                        (<["age" := int32Value age]>
                           (<["height" := int32Value 150]> ∅)))), w').
Proof.
  intros Hfit Hlen.
  pose proof (fitsInt32_isInt64 age Hfit) as Hage.
  rewrite Unmarshal_unfold by (by vm_compute).
  unfold Unmarshal_twoRounds, personPayload.
  cbn [app]. rewrite readHeader_five.
  change (header_ID _) with 0.
  set (codec1 := mkCodec (codecOf PersonV1) "" DefaultTypeNameEncoder).
  set (codec2 := mkCodec (codecOf PersonV2) "" DefaultTypeNameEncoder).
  set (w1 := mkWorld (setCodec (registry codecV2) 0 codec1) (remote codecV2)
               (calls codecV2 ++ [CallGetSchemaByID 0])).
  change (getCodecByID TestEnv codecV2 0) with (Ok (Er := error) codec1, w1).
  cbn [wrap].
  change (SchemaID (registry w1)) with 1.
  change (codecByID (registry w1) !! 1) with (Some codec2).
  rewrite !bool_decide_eq_true_2 by done. cbn [andb].
  exists w1. f_equal. f_equal.
  (* the writer's codec, into a generic map *)
  unfold Codec_Unmarshal, unmarshal. cbn [goavro_Codec codec1 codecOf NativeFromBinary].
  rewrite <- (app_nil_r (putLong age)).
  rewrite decode_PersonV1 by done.
  cbn [lift rbind fst].
  rewrite Decode_generic_map.
  2: { by repeat (apply map_Forall_insert_2; [done|]). }
  cbn [rbind].
  (* the reader's codec, from the generic map *)
  unfold Codec_Marshal, marshal. cbn [rbind fst snd kindOf encodeUnionHook convertToBaseType].
  cbn [goavro_Codec codec2 codecOf BinaryFromNative].
  rewrite (encode_PersonV2 _ name age KInt32) by done.
  cbn [lift rbind].
  (* the reader's codec, into the destination *)
  cbn [codecOf NativeFromBinary].
  rewrite <- (app_nil_r (putLong 150)).
  rewrite decode_PersonV2 by (done || by vm_compute).
  cbn [lift rbind fst].
  rewrite Decode_generic_map; [done|].
  by repeat (apply map_Forall_insert_2; [done|]).
Qed.
End PersonFacts.

(* ===================================================================== *)
(** ** Reconciliation *)

(** C1.  When the current id is set and differs from the id of the
    header, [Unmarshal] decodes the body with the codec of the header id
    into a [map[string]interface{}], encodes that map with the codec of
    the current id, and decodes the bytes so made, with the same codec,
    into the destination.  On the schemas of
    [TestCodecRegistry_Unmarshal_version_upgrade], a person written under
    v1 is read under v2, into a generic map, with the same name and age
    and the default height 150. *)
Theorem Unmarshal_reconciles :
  (forall (E : Env) (w w1 : World E) (from body : list Z) (to : GoType)
          (header : Header) (codec : Codec) (fuel : nat),
     isInt32 (SchemaID (registry w)) ->
     SchemaID (registry w) <> UnknownID ->
     readHeader from = Ok (header, body) ->
     header_ID header <> SchemaID (registry w) ->
     getCodecByID E w (header_ID header) = (Ok codec, w1) ->
     (2 <= fuel)%nat ->
     Unmarshal E fuel w from to
     = Some (try tmpTo <- Codec_Unmarshal E codec body TMap in
             match codecByID (registry w1) !! SchemaID (registry w) with
             | Some current =>
                 try framed <- Codec_Marshal current tmpTo in
                 Codec_Unmarshal E current framed to
             | None => Panic "invalid memory address or nil pointer dereference"
             end, w1)) /\
  (forall (name : string) (age : Z),
     isInt32 age ->
     Z.of_nat (String.length name) < 2 ^ 63 ->
     Marshal (registry Fixtures.codecV1)
       (VPtr Fixtures.PersonType (Some (Fixtures.Person name age)))
     = Ok (Fixtures.personPayload name age) /\
     exists w',
       Unmarshal Fixtures.TestEnv 2 Fixtures.codecV2
         (Fixtures.personPayload name age) TMap
       = Some (Ok (VMap (<["name" := Fixtures.stringValue name]>
                           (<["age" := Fixtures.int32Value age]>
                              (<["height" := Fixtures.int32Value 150]> ∅)))),
               w')).
Proof.
  split.
  - intros E w w1 from body to header codec fuel Hrange Hknown Hhead Hdiff Hget Hfuel.
    destruct fuel as [|[|fuel]]; [lia|lia|].
    rewrite Unmarshal_unfold by done.
    unfold Unmarshal_twoRounds. rewrite Hhead, Hget. cbn [wrap].
    pose proof (getCodecByID_SchemaID E w (header_ID header)) as HID.
    rewrite Hget in HID. cbn [snd] in HID. rewrite HID.
    by rewrite !bool_decide_eq_true_2.
  - intros name age Hage Hlen.
    assert (goavro.fitsInt32 age = true) as Hfit.
    { unfold isInt32 in Hage. unfold goavro.fitsInt32. lia. }
    split.
    + by apply Marshal_Person.
    + by apply Unmarshal_Person_upgrade.
Qed.

(* ===================================================================== *)
(** ** Round trip of flat records *)

(** [wrapSigned bits] leaves the integers of that width alone. *)
Definition fitsKind (k : Kind) (n : Z) : Prop :=
  - 2 ^ (mapstructure.bitsOf k - 1) <= n < 2 ^ (mapstructure.bitsOf k - 1).

(** A Go scalar [x] is carried by the Avro type [t]: the binary codec
    accepts what the encoding hook makes of [x], and what it reads back
    decodes into the type of [x] as [x] again. *)
Inductive carried : GoValue -> goavro.AvroType -> Prop :=
| carried_boolean (b : bool) :
    carried (VBool (predeclared KBool) b) goavro.ABoolean
| carried_int (k : Kind) (d : TypeDecl) (n : Z) :
    k ∈ [KInt; KInt32; KInt64] -> HasUnmarshalAvro d = false ->
    isInt32 n -> carried (VInt k d n) goavro.AInt
| carried_long (k : Kind) (d : TypeDecl) (n : Z) :
    k ∈ [KInt; KInt32; KInt64] -> HasUnmarshalAvro d = false ->
    fitsKind k n -> carried (VInt k d n) goavro.ALong
| carried_string (d : TypeDecl) (s : string) :
    HasUnmarshalAvro d = false ->
    Z.of_nat (String.length s) < 2 ^ 63 -> carried (VString d s) goavro.AString.

(** What the encoding hook makes of a scalar, its bytes, and what the
    binary codec reads back. *)
Definition nativeOf (x : GoValue) : GoValue :=
  match x with
  | VInt k _ n => VInt k (predeclared k) n
  | VString _ s => VString (predeclared KString) s
  | _ => x
  end.

Definition wireOf (x : GoValue) : list Z :=
  match x with
  | VBool _ b => [if b then 1 else 0]
  | VInt _ _ n => goavro.putLong n
  | VString _ s =>
      goavro.putLong (Z.of_nat (String.length s)) ++ goavro.bytesOfString s
  | _ => []
  end.

Definition readBack (x : GoValue) (t : goavro.AvroType) : GoValue :=
  match x, t with
  | VInt _ _ n, goavro.AInt => VInt KInt32 (predeclared KInt32) n
  | VInt _ _ n, _ => VInt KInt64 (predeclared KInt64) n
  | _, _ => nativeOf x
  end.

(** A field of a Go struct and the field of the record schema that
    carries it: the field is exported, its tag is the wire name and
    nothing else, and its value is carried by the type of the schema. *)
Definition fieldCarried (f : string * string * GoValue)
    (sf : string * goavro.AvroType * option GoValue) : Prop :=
  structs.isExported f.1.1 = true /\
  structs.parseTag f.1.2 = (sf.1.1, []) /\
  f.1.2 <> "-" /\ sf.1.1 <> "" /\
  carried f.2 sf.1.2.

Section FlatRecords.
Import goavro.

Lemma fitsKind_isInt64 (k : Kind) (n : Z) : fitsKind k n -> isInt64 n.
Proof.
  unfold fitsKind, isInt64. destruct k; simpl; lia.
Qed.

Lemma isInt32_isInt64 (n : Z) : isInt32 n -> isInt64 n.
Proof. unfold isInt32, isInt64. lia. Qed.

Lemma carried_hook (c : Codec) (x : GoValue) (t : AvroType) :
  carried x t -> encodeUnionHook c (kindOf x) (reflect_Interface x) = Ok (nativeOf x).
Proof.
  destruct 1 as [b|k d n Hk _ _|k d n Hk _ _|d s _ _]; try done.
  all: repeat (apply elem_of_cons in Hk as [->|Hk]; [done|]);
       by apply elem_of_nil in Hk.
Qed.

Lemma carried_encode (x : GoValue) (t : AvroType) :
  carried x t -> encode t (nativeOf x) = Ok (wireOf x).
Proof.
  destruct 1 as [b|k d n Hk _ Hn|k d n Hk _ Hn|d s _ _]; try done.
  - cbn [encode nativeOf wireOf].
    assert (isGoInteger k (predeclared k) = true) as ->.
    { repeat (apply elem_of_cons in Hk as [->|Hk]; [done|]).
      by apply elem_of_nil in Hk. }
    assert (fitsInt32 n = true) as ->; [|done].
    unfold isInt32 in Hn. unfold fitsInt32. lia.
  - cbn [encode nativeOf wireOf].
    assert (isGoInteger k (predeclared k) = true) as ->; [|done].
    repeat (apply elem_of_cons in Hk as [->|Hk]; [done|]).
    by apply elem_of_nil in Hk.
Qed.

Lemma carried_decode (x : GoValue) (t : AvroType) (rest : list Z) :
  carried x t -> decode t (wireOf x ++ rest) = Ok (readBack x t, rest).
Proof.
  destruct 1 as [b|k d n Hk _ Hn|k d n Hk _ Hn|d s _ Hs].
  - by destruct b.
  - cbn [wireOf readBack]. apply decode_int. by apply isInt32_isInt64.
  - cbn [wireOf readBack]. apply decode_long. by eapply fitsKind_isInt64.
  - cbn [wireOf readBack nativeOf]. rewrite <- app_assoc. by apply decode_string.
Qed.

Lemma carried_scalar (E : Env) (c : Codec) (x : GoValue) (t : AvroType) :
  carried x t ->
  exists k d, typeOf x = Some (TScalar k d) /\
    mapstructure.decode (decodeUnionHook E c) (TScalar k d) (readBack x t) = Ok x.
Proof.
  destruct 1 as [b|k d n Hk Hd Hn|k d n Hk Hd Hn|d s Hd _].
  - by exists KBool, (predeclared KBool).
  - exists k, d. split; [done|].
    cbn [mapstructure.decode readBack mapstructure.isNilInput].
    unfold mapstructure.runHook, decodeUnionHook.
    assert (kindOfType (TScalar k d) = k) as -> by done.
    rewrite Hd.
    repeat (apply elem_of_cons in Hk as [->|Hk];
      [cbn; do 2 f_equal; unfold mapstructure.wrapSigned;
       unfold isInt32 in Hn; cbn;
       rewrite Z.mod_small; lia|]).
    by apply elem_of_nil in Hk.
  - exists k, d. split; [done|].
    cbn [mapstructure.decode readBack mapstructure.isNilInput].
    unfold mapstructure.runHook, decodeUnionHook.
    assert (kindOfType (TScalar k d) = k) as -> by done.
    rewrite Hd.
    repeat (apply elem_of_cons in Hk as [->|Hk];
      [cbn; do 2 f_equal; unfold mapstructure.wrapSigned;
       unfold fitsKind in Hn; cbn in Hn |- *;
       rewrite Z.mod_small; lia|]).
    by apply elem_of_nil in Hk.
  - exists KString, d. split; [done|].
    cbn [mapstructure.decode readBack nativeOf mapstructure.isNilInput].
    unfold mapstructure.runHook, decodeUnionHook. cbn [kindOfType]. by rewrite Hd.
Qed.


Fixpoint readBackMap (fs : list (string * string * GoValue))
    (sfs : list (string * AvroType * option GoValue)) : gmap string GoValue :=
  match fs, sfs with
  | f :: fs, sf :: sfs => <[sf.1.1 := readBack f.2 sf.1.2]> (readBackMap fs sfs)
  | _, _ => ∅
  end.




Definition wires (fs : list (string * string * GoValue)) : list Z :=
  concat ((fun f => wireOf f.2) <$> fs).


Lemma decodeFields_carried fs sfs (rest : list Z) :
  Forall2 fieldCarried fs sfs ->
  decodeFields sfs (wires fs ++ rest) = Ok (readBackMap fs sfs, rest).
Proof.
  induction 1 as [|[[gn tag] x] [[sn st] dflt] fs sfs Hf _ IH]; [done|].
  destruct Hf as (_ & _ & _ & _ & Hc). simpl in Hc.
  unfold wires. rewrite fmap_cons. cbn [concat fst snd]. rewrite <- app_assoc.
  cbn [decodeFields]. rewrite (carried_decode x st _ Hc). cbn [rbind fst snd].
  fold (wires fs). by rewrite IH.
Qed.


(** The type of a struct value, and the loop of [decodeStructFromMap] on
    its own. *)
Definition fieldTypes (fs : list (string * string * GoValue))
    : list (string * string * GoType) :=
  (fun f => (f.1.1, f.1.2, default TInterface (typeOf f.2))) <$> fs.

Lemma typeOf_VStruct (d : TypeDecl) fs :
  typeOf (VStruct d fs) = Some (TStruct d (fieldTypes fs)).
Proof.
  cbn [typeOf]. do 2 f_equal.
  induction fs as [|[[n t] x] fs IH]; [done|].
  rewrite IH. done.
Qed.

Fixpoint decodeStructFields (hook : GoType -> GoType -> GoValue -> result GoValue)
    (m : gmap string GoValue) (fs : list (string * string * GoType))
    : result (list (string * string * GoValue) * bool) :=
  match fs with
  | [] => Ok ([], false)
  | (name, tag, fty) :: rest =>
      let tagValue := (structs.parseTag tag).1 in
      let fieldName := if bool_decide (tagValue = "") then name else tagValue in
      let decoded :=
        match mapstructure.lookupField m fieldName with
        | Some raw =>
            if structs.isExported name
            then mapstructure.decode hook fty (reflect_Interface raw)
            else Ok (mapstructure.zeroOf fty)
        | None => Ok (mapstructure.zeroOf fty)
        end in
      mapstructure.collect decoded (mapstructure.zeroOf fty) (fun v failed =>
        try r <- decodeStructFields hook m rest in
        Ok ((name, tag, v) :: r.1, failed || r.2))
  end.

Lemma decode_TStruct hook (d : TypeDecl) fields (m : gmap string GoValue) :
  mapstructure.decode hook (TStruct d fields) (VMap m)
  = try input <- mapstructure.runHook hook (TStruct d fields) (VMap m) in
    match mapstructure.indirect input with
    | VMap m =>
        try r <- decodeStructFields hook m fields in
        if r.2 then Err (ErrOther "mapstructure: error(s) decoding")
        else Ok (VStruct d r.1)
    | _ => Err (ErrOther "mapstructure: expected a map")
    end.
Proof.
  cbn [mapstructure.decode mapstructure.isNilInput].
  destruct (mapstructure.runHook hook (TStruct d fields) (VMap m))
    as [input|e|msg]; [|done|done].
  cbn [rbind].
  destruct (mapstructure.indirect input) as [| | | | | | |m0|]; try done.
  match goal with
  | |- rbind ?X _ = _ =>
      assert (X = decodeStructFields hook m0 fields) as ->; [|done]
  end.
  induction fields as [|[[name tag] fty] fields IH]; [done|].
  cbn [decodeStructFields]. by rewrite <- IH.
Qed.


End FlatRecords.

(* ===================================================================== *)
(** ** The theorems at the values of the tests *)

(** [codecV2.Unmarshal] of the bytes that [codecV1] wrote for
    [Person{"Nico", 36}]: the current id 1 is an [int32], and a bound of
    two calls gives the result. *)
Lemma Unmarshal_terminates_witness :
  isInt32 (SchemaID (registry Fixtures.codecV2)) /\
  Unmarshal Fixtures.TestEnv 2 Fixtures.codecV2
    (Fixtures.personPayload "Nico" 36) TMap
  = Some (Unmarshal_twoRounds Fixtures.TestEnv Fixtures.codecV2
            (Fixtures.personPayload "Nico" 36) TMap).
Proof.
  assert (isInt32 (SchemaID (registry Fixtures.codecV2))) as Hrange
    by (by vm_compute).
  split; [exact Hrange|].
  apply (Unmarshal_terminates Fixtures.TestEnv Fixtures.codecV2
           (Fixtures.personPayload "Nico" 36) TMap Hrange).
  lia.
Defined.

(** C3, as the claim states it, fails on the empty input: it is shorter
    than the header, and a registry that resolves the id 0 to the schema
    ['null'] decodes it without any error. *)
Lemma Unmarshal_empty_input_decoded :
  (length ([] : list Z) < 5)%nat /\
  Unmarshal Fixtures.TestEnv 2 Fixtures.decoderOnly [] TMap
  = Some (Ok (VMap ∅), (getCodecByID Fixtures.TestEnv Fixtures.decoderOnly 0).2).
Proof.
  split; [simpl; lia|].
  rewrite Unmarshal_S.
  change (readHeader []) with (Ok (Er := error) (mkHeader 0 0, @nil Z)).
  cbv beta iota. change (header_ID (mkHeader 0 0)) with 0.
  destruct (getCodecByID Fixtures.TestEnv Fixtures.decoderOnly 0) as [res w1] eqn:Hget.
  assert (exists codec, res = Ok codec /\ goavro_Codec codec = goavro.codecOf goavro.ANull
            /\ SchemaID (registry w1) = UnknownID) as (codec & -> & Hc & Hid).
  { unfold getCodecByID in Hget. 
    change (codecByID (registry Fixtures.decoderOnly) !! 0) with (@None Codec) in Hget.
    cbv beta iota in Hget.
    change (call_GetSchemaByID Fixtures.TestEnv Fixtures.decoderOnly 0)
      with (Ok (Er := error) Fixtures.schemaNull,
            mkWorld (registry Fixtures.decoderOnly) (remote Fixtures.decoderOnly)
              (calls Fixtures.decoderOnly ++ [CallGetSchemaByID 0])) in Hget.
    cbv beta iota in Hget.
    change (NewCodec Fixtures.TestEnv Fixtures.schemaNull)
      with (Ok (Er := error) (mkCodec (goavro.codecOf goavro.ANull) "" DefaultTypeNameEncoder)) in Hget.
    cbv beta iota in Hget.
    injection Hget as <- <-. eexists. split; [done|]. split; done. }
  cbn [wrap snd]. rewrite Hid.
  rewrite (bool_decide_eq_false_2 (UnknownID <> UnknownID)) by (intros H; by apply H).
  cbn [andb].
  unfold Codec_Unmarshal, unmarshal. rewrite Hc. done.
Qed.

(** The header errors on the inputs [[1; 2; 3]] and [[0; 7]], and the
    header of the payload of the Kafka REST test. *)
Lemma Unmarshal_header_witness :
  (exists e, isProtocolError e = true /\
     Unmarshal Fixtures.TestEnv 1 Fixtures.codecV1 [1; 2; 3] TMap
     = Some (Err e, Fixtures.codecV1)) /\
  Unmarshal Fixtures.TestEnv 1 Fixtures.codecV1 [0; 7] TMap
  = Some (Err (ErrWrap "binary.Read ID error" (ErrIO ErrUnexpectedEOF)),
          Fixtures.codecV1) /\
  readHeader [0; 0; 0; 0; 1; 2; 16; 101]
  = Ok (mkHeader 0 (int32_of (BigEndian_Uint32 [0; 0; 0; 1])), [2; 16; 101]).
Proof.
  split; [|split].
  - apply (Unmarshal_header Fixtures.TestEnv Fixtures.codecV1 [1; 2; 3] TMap 0
             ) with (b := 1) (rest := [2; 3]); done.
  - apply (Unmarshal_header Fixtures.TestEnv Fixtures.codecV1 [0; 7] TMap 0).
    simpl. lia.
  - by apply (Unmarshal_header Fixtures.TestEnv Fixtures.codecV1
                [0; 0; 0; 0; 1; 2; 16; 101] TMap 0).
Defined.

(** [codecV2] resolves its own id from the cache, and asks the registry
    once for the id 0 of [codecV1], which it then holds. *)
Lemma codecByID_lazy_and_monotone_witness :
  getCodecByID Fixtures.TestEnv Fixtures.codecV2 1
  = (Ok (mkCodec (goavro.codecOf Fixtures.PersonV2) "" DefaultTypeNameEncoder),
     Fixtures.codecV2) /\
  calls (getCodecByID Fixtures.TestEnv Fixtures.codecV2 0).2
  = calls Fixtures.codecV2 ++ [CallGetSchemaByID 0] /\
  is_Some (codecByID (registry (getCodecByID Fixtures.TestEnv Fixtures.codecV2 0).2)
             !! 1).
Proof.
  split; [|split].
  - apply (codecByID_lazy_and_monotone Fixtures.TestEnv Fixtures.codecV2 1).
    reflexivity.
  - apply (codecByID_lazy_and_monotone Fixtures.TestEnv Fixtures.codecV2 0).
    reflexivity.
  - apply (proj2 (proj2 (codecByID_lazy_and_monotone Fixtures.TestEnv
                           Fixtures.codecV2 1))).
    + apply rtc_once. apply step_getCodecByID.
    + eexists. reflexivity.
Defined.



(* ===================================================================== *)
(** * More of the code *)

(* ===================================================================== *)
(** ** Base types *)

Lemma GoType_beq_eq (a b : GoType) : GoType_beq a b = true -> a = b.
Proof.
  revert a b. fix IH 1.
  intros [k d|d fs|e|e| |] [k' d'|d' fs'|e'|e'| |]; simpl; try done.
  - intros [Hk Hd]%andb_prop.
    apply bool_decide_eq_true_1 in Hk, Hd. by subst.
  - intros [Hd Hfs]%andb_prop.
    apply bool_decide_eq_true_1 in Hd. subst d'. f_equal.
    revert fs' Hfs.
    induction fs as [|[[n t] ty] r IHr]; intros [|[[n' t'] ty'] r']; try done.
    intros [[[Hn Ht]%andb_prop Hty]%andb_prop Hr]%andb_prop.
    apply bool_decide_eq_true_1 in Hn, Ht. subst.
    f_equal; [|by apply IHr].
    f_equal. by apply IH.
  - intros H. f_equal. by apply IH.
  - intros H. f_equal. by apply IH.
Qed.

Theorem getBaseType_idempotent (t : GoType) :
  getBaseType (getBaseType t) = getBaseType t.
Proof.
  induction t as [k d|d fs|e IH|e IH| |]; simpl; try done.
  - destruct (isSimpleKind k) eqn:Hk; simpl; by rewrite Hk.
  - by rewrite IH.
Qed.

Theorem convertToBaseType_type (value converted : GoValue) :
  convertToBaseType value = Ok converted ->
  typeOf converted = getBaseType <$> typeOf value /\
  kindOf converted = kindOf value /\
  convertToBaseType converted = Ok converted.
Proof.
  destruct value as [|d b|k d n|d s|d fs|e p|e l|m|v]; simpl; try done.
  - by intros [= <-].
  - destruct (isSimpleKind k) eqn:Hk; intros [= <-]; simpl; by rewrite Hk.
  - by intros [= <-].
  - destruct (GoType_beq (getBaseType e) e) eqn:He; [|done].
    intros [= <-]. simpl. rewrite He.
    apply GoType_beq_eq in He. by rewrite He.
  - by intros [= <-].
  - by intros [= <-].
Qed.

(* ===================================================================== *)
(** ** Snake case *)

(** The characters of [s] other than the underscore. *)
Definition withoutUnderscores (s : string) : list ascii :=
  filter (fun c => c <> "_"%char) (list_ascii_of_string s).

Lemma list_ascii_of_string_app (s t : string) :
  list_ascii_of_string (s +:+ t) = list_ascii_of_string s ++ list_ascii_of_string t.
Proof.
  induction s as [|c s IH]; [done|].
  change (String c s +:+ t) with (String c (s +:+ t)).
  cbn [list_ascii_of_string]. by rewrite IH.
Qed.

Lemma withoutUnderscores_app (s t : string) :
  withoutUnderscores (s +:+ t) = withoutUnderscores s ++ withoutUnderscores t.
Proof.
  unfold withoutUnderscores. by rewrite list_ascii_of_string_app, filter_app.
Qed.

Lemma withoutUnderscores_Join (l : list string) :
  withoutUnderscores (strings_Join l "_") = withoutUnderscores (foldr append "" l).
Proof.
  induction l as [|s l IH]; [done|].
  destruct l as [|s' l].
  - cbn [strings_Join foldr]. by rewrite withoutUnderscores_app, app_nil_r.
  - change (strings_Join (s :: s' :: l) "_")
      with (s +:+ "_" +:+ strings_Join (s' :: l) "_").
    cbn [foldr] in *.
    rewrite !withoutUnderscores_app, IH. by rewrite withoutUnderscores_app.
Qed.

Lemma strings_ToLower_app (s t : string) :
  strings_ToLower (s +:+ t) = strings_ToLower s +:+ strings_ToLower t.
Proof.
  induction s as [|c s IH]; [done|].
  change (String c s +:+ t) with (String c (s +:+ t)).
  cbn [strings_ToLower]. by rewrite IH.
Qed.

Lemma strings_ToLower_concat (l : list string) :
  foldr append "" (strings_ToLower <$> l) = strings_ToLower (foldr append "" l).
Proof.
  induction l as [|s l IH]; [done|].
  rewrite fmap_cons. cbn [foldr]. by rewrite IH, strings_ToLower_app.
Qed.

Lemma toLowerAscii_idempotent (c : ascii) :
  toLowerAscii (toLowerAscii c) = toLowerAscii c.
Proof.
  destruct c as [[] [] [] [] [] [] [] []]; reflexivity.
Qed.

Lemma strings_ToLower_idempotent (s : string) :
  strings_ToLower (strings_ToLower s) = strings_ToLower s.
Proof.
  induction s as [|c s IH]; [done|].
  cbn [strings_ToLower]. by rewrite toLowerAscii_idempotent, IH.
Qed.

Lemma strings_ToLower_Join (l : list string) :
  strings_ToLower (strings_Join l "_")
  = strings_Join (strings_ToLower <$> l) "_".
Proof.
  induction l as [|s l IH]; [done|].
  destruct l as [|s' l]; [done|].
  change (strings_Join (s :: s' :: l) "_")
    with (s +:+ "_" +:+ strings_Join (s' :: l) "_").
  rewrite !strings_ToLower_app, IH. done.
Qed.

(** [CamelCaseToSnakeCase] puts underscores in and turns the upper-case
    letters into lower-case ones, and does nothing else: without the
    underscores, its result is the lower-cased name without its
    underscores; and the result has no upper-case letter. *)
Theorem CamelCaseToSnakeCase_letters (name : string) :
  withoutUnderscores (CamelCaseToSnakeCase name)
  = withoutUnderscores (strings_ToLower name) /\
  strings_ToLower (CamelCaseToSnakeCase name) = CamelCaseToSnakeCase name.
Proof.
  unfold CamelCaseToSnakeCase. split.
  - rewrite withoutUnderscores_Join, strings_ToLower_concat.
    by rewrite Split_concat.
  - rewrite strings_ToLower_Join. f_equal.
    rewrite <- list_fmap_compose. apply list_fmap_ext.
    intros i s _. apply strings_ToLower_idempotent.
Qed.

(* ===================================================================== *)
(** ** The encoding hook *)

(** The values of the predeclared types [bool], [string] and of the
    integer types. *)
Definition isPredeclaredScalar (v : GoValue) : bool :=
  match v with
  | VBool d _ => bool_decide (d = predeclared KBool)
  | VInt k d _ =>
      bool_decide (d = predeclared k) &&
      (mapstructure.isIntKind k || mapstructure.isUintKind k)
  | VString d _ => bool_decide (d = predeclared KString)
  | _ => false
  end.

(** Under the default translation of type names, a pointer to a [bool],
    a [string] or an integer is encoded as the one-key map from the Avro
    primitive name that [GoToAvroType] gives to the Go type (["boolean"],
    ["string"], ["int"] or ["long"]) to the value itself: the namespace of
    the codec is never put in front of it. *)
Theorem encodeUnionHook_pointer_to_scalar (c : Codec) (elem : GoType)
    (pointed : GoValue) :
  TypeNameEncoder c = DefaultTypeNameEncoder ->
  isPredeclaredScalar pointed = true ->
  encodeUnionHook c KPtr (VPtr elem (Some pointed))
  = Ok (VMap {[ GoToAvroType (kindName (kindOf pointed)) := pointed ]}) /\
  GoToAvroType (kindName (kindOf pointed)) ∈ avroBaseTypes.
Proof.
  intros Henc Hp.
  destruct pointed as [|d b|k d n|d s| | | | |]; try done; simpl in Hp.
  - apply bool_decide_eq_true_1 in Hp as ->.
    split; [|by_decide].
    cbn [encodeUnionHook kindOf reflect_Interface convertToBaseType rbind].
    unfold getTypeName, encodeTypeName. rewrite Henc. reflexivity.
  - apply andb_prop in Hp as [Hd Hk].
    apply bool_decide_eq_true_1 in Hd as ->.
    destruct k; try done; (split; [|by_decide]);
    cbn [encodeUnionHook kindOf reflect_Interface convertToBaseType rbind];
    unfold getTypeName, encodeTypeName; rewrite Henc; reflexivity.
  - apply bool_decide_eq_true_1 in Hp as ->.
    split; [|by_decide].
    cbn [encodeUnionHook kindOf reflect_Interface convertToBaseType rbind].
    unfold getTypeName, encodeTypeName. rewrite Henc. reflexivity.
Qed.

Lemma encodeUnionHook_pointer_to_scalar_witness :
  encodeUnionHook
    (mkCodec (goavro.codecOf goavro.ANull) "my.example" DefaultTypeNameEncoder)
    KPtr (VPtr (TScalar KUint16 (predeclared KUint16))
            (Some (VInt KUint16 (predeclared KUint16) 7)))
  = Ok (VMap {[ "int" := VInt KUint16 (predeclared KUint16) 7 ]}) /\
  "int" ∈ avroBaseTypes.
Proof.
  apply (encodeUnionHook_pointer_to_scalar
           (mkCodec (goavro.codecOf goavro.ANull) "my.example" DefaultTypeNameEncoder)
           (TScalar KUint16 (predeclared KUint16))
           (VInt KUint16 (predeclared KUint16) 7)); reflexivity.
Defined.

Lemma mapM_Ok {Er A B} (f : A -> outcome Er B) (l : list A) (bs : list B) :
  mapM f l = Ok bs -> Forall2 (fun a b => f a = Ok b) l bs.
Proof.
  revert bs. induction l as [|a l IH]; intros bs; simpl.
  - intros [= <-]. constructor.
  - destruct (f a) as [b|e|m] eqn:Ha; simpl; try done.
    destruct (mapM f l) as [bs'|e|m]; simpl; try done.
    intros [= <-]. constructor; [done|by apply IH].
Qed.

(** [encodeUnionHook] on a slice: the result is a slice of the base type
    of the element type, of the same length, whose element at each index
    is the encoding of the element of the input at that index. *)
Theorem encodeUnionHook_slice (c : Codec) (elem : GoType) (l : list GoValue)
    (out : GoValue) :
  encodeUnionHook c KSlice (VSlice elem l) = Ok out ->
  exists vals,
    out = VSlice (getBaseType elem) vals /\
    length vals = length l /\
    forall i x, l !! i = Some x ->
      exists val,
        encodeUnionHook c (kindOf x) (reflect_Interface x) = Ok val /\
        vals !! i = Some (storeElem (getBaseType elem) val).
Proof.
  cbn [encodeUnionHook].
  destruct (mapM _ l) as [vals|e|m] eqn:Hl; simpl; try done.
  intros [= <-]. eexists. split; [done|].
  apply mapM_Ok in Hl.
  split.
  - rewrite length_fmap. symmetry. by eapply Forall2_length.
  - intros i x Hx.
    destruct (Forall2_lookup_l _ _ _ _ _ Hl Hx) as (val & Hval & Henc).
    exists val. split; [done|].
    by rewrite list_lookup_fmap, Hval.
Qed.

Lemma encodeUnionHook_slice_witness :
  exists vals,
    VSlice (TScalar KString (predeclared KString))
      [Fixtures.stringValue "a"; Fixtures.stringValue "b"]
    = VSlice (getBaseType (TScalar KString (mkDecl "MyEnum" None false))) vals /\
    length vals = length [VString (mkDecl "MyEnum" None false) "a";
                          VString (mkDecl "MyEnum" None false) "b"] /\
    forall i x,
      [VString (mkDecl "MyEnum" None false) "a";
       VString (mkDecl "MyEnum" None false) "b"] !! i = Some x ->
      exists val,
        encodeUnionHook
          (mkCodec (goavro.codecOf goavro.ANull) "" DefaultTypeNameEncoder)
          (kindOf x) (reflect_Interface x) = Ok val /\
        vals !! i = Some (storeElem
                            (getBaseType (TScalar KString (mkDecl "MyEnum" None false)))
                            val).
Proof.
  apply (encodeUnionHook_slice
           (mkCodec (goavro.codecOf goavro.ANull) "" DefaultTypeNameEncoder)
           (TScalar KString (mkDecl "MyEnum" None false))
           [VString (mkDecl "MyEnum" None false) "a";
            VString (mkDecl "MyEnum" None false) "b"]).
  reflexivity.
Defined.

(* ===================================================================== *)
(** ** [Codec.Marshal] *)

(** [Codec.Marshal] takes a value or a pointer to it and does the same
    with both; on the nil interface and on a nil pointer it panics
    instead of returning an error. *)
Theorem Codec_Marshal_pointer (c : Codec) (elem : GoType) :
  (forall st, kindOf st <> KPtr -> kindOf st <> KInterface ->
     Codec_Marshal c (VPtr elem (Some st)) = Codec_Marshal c st) /\
  (exists msg, Codec_Marshal c (VPtr elem None) = Panic msg) /\
  (exists msg, Codec_Marshal c VNil = Panic msg).
Proof.
  split; [|split].
  - intros st Hp Hi. unfold Codec_Marshal, marshal.
    by destruct st.
  - by eexists.
  - by eexists.
Qed.



(* ===================================================================== *)
(** ** The encoding schema of a codec registry *)

(** The current id of [r] is an [int32] and, unless it is [UnknownID],
    the cache has a codec for it. *)
Definition hasCurrentCodec (r : CodecRegistry) : Prop :=
  isInt32 (SchemaID r) /\
  (SchemaID r = UnknownID \/ is_Some (codecByID r !! SchemaID r)).

(** One call of an exported method of a codec registry. *)
Inductive method (E : Env) : World E -> World E -> Prop :=
| method_Unmarshal (w : World E) fuel from to res w' :
    Unmarshal E fuel w from to = Some (res, w') -> method E w w'
| method_Marshal (w : World E) (data : GoValue) : method E w w
| method_Register (w : World E) rawSchema : method E w (Register E w rawSchema).2
| method_SetTypeNameEncoder (w : World E) f :
    method E w (SetTypeNameEncoder E w f).

Section CurrentCodec.
Context (E : Env).

Lemma hasCurrentCodec_setCodec (r : CodecRegistry) (ID : Z) (codec : Codec) :
  hasCurrentCodec r -> hasCurrentCodec (setCodec r ID codec).
Proof.
  intros [Hr [Hu|Hc]]; (split; [done|]); [by left|right].
  by apply keeps_setCodec.
Qed.

Lemma hasCurrentCodec_set (r : CodecRegistry) (ID : Z) (codec : Codec) :
  hasCurrentCodec (setSchemaID (setCodec r (int32_of ID) codec) (int32_of ID)).
Proof.
  split; [apply int32_of_range|right].
  simpl. rewrite lookup_insert_eq. by eexists.
Qed.

Lemma Unmarshal_SchemaID (fuel : nat) (w w' : World E) from to res :
  Unmarshal E fuel w from to = Some (res, w') ->
  SchemaID (registry w') = SchemaID (registry w).
Proof.
  revert w from.
  induction fuel as [|fuel IH]; intros w from; [done|].
  rewrite Unmarshal_S.
  destruct (readHeader from) as [[header body]|e|m].
  2,3: by intros [= <- <-].
  pose proof (getCodecByID_SchemaID E w (header_ID header)) as Hk.
  destruct (getCodecByID E w (header_ID header)) as [res1 w1].
  simpl in Hk.
  destruct res1 as [codec|e|m]; simpl.
  2,3: by intros [= <- <-].
  destruct (_ && _).
  - destruct (Codec_Unmarshal E codec body TMap) as [tmpTo|e|m].
    2,3: by intros [= <- <-].
    destruct (Marshal (registry w1) tmpTo) as [from'|e|m].
    2,3: by intros [= <- <-].
    intros H. rewrite <- Hk. by eapply IH.
  - by intros [= <- <-].
Qed.

Lemma Unmarshal_hasCurrentCodec (fuel : nat) (w w' : World E) from to res :
  Unmarshal E fuel w from to = Some (res, w') ->
  hasCurrentCodec (registry w) -> hasCurrentCodec (registry w').
Proof.
  intros HU [Hr Hc].
  pose proof (Unmarshal_SchemaID _ _ _ _ _ _ HU) as HID.
  pose proof (Unmarshal_keeps E _ _ _ _ _ _ HU) as Hk.
  unfold hasCurrentCodec. rewrite HID. split; [done|].
  destruct Hc as [Hu|Hc]; [by left|right]. by apply Hk.
Qed.

Lemma Register_hasCurrentCodec (w : World E) rawSchema :
  (hasCurrentCodec (registry w) -> hasCurrentCodec (registry (Register E w rawSchema).2)) /\
  ((Register E w rawSchema).1 = Ok () ->
   hasCurrentCodec (registry (Register E w rawSchema).2)).
Proof.
  unfold Register, call_RegisterNewSchema, call_IsRegistered.
  destruct (RegisterNewSchema E _ _ _) as [[id|msg|m] remote1]; simpl; try done.
  destruct (IsRegistered E _ _ _) as [[[isRegistered schema]|msg|m] remote2]; simpl;
    try done.
  destruct isRegistered; simpl; [|done].
  destruct (NewCodec E rawSchema); simpl; try done.
  split; intros _; apply hasCurrentCodec_set.
Qed.

Lemma SetTypeNameEncoder_hasCurrentCodec (w : World E) f :
  hasCurrentCodec (registry w) ->
  hasCurrentCodec (registry (SetTypeNameEncoder E w f)).
Proof.
  intros [Hr Hc]. split; [done|].
  destruct Hc as [Hu|[codec Hc]]; [by left|right].
  simpl. rewrite lookup_fmap, Hc. by eexists.
Qed.

Lemma method_hasCurrentCodec (w w' : World E) :
  method E w w' -> hasCurrentCodec (registry w) -> hasCurrentCodec (registry w').
Proof.
  destruct 1.
  - by eapply Unmarshal_hasCurrentCodec.
  - done.
  - apply Register_hasCurrentCodec.
  - apply SetTypeNameEncoder_hasCurrentCodec.
Qed.

Lemma init_hasCurrentCodec (w w' : World E) rawSchema f :
  (forall w0, (f w0).1 = Ok () -> hasCurrentCodec (registry (f w0).2)) ->
  init E w rawSchema (Some f) = (Ok (), w') ->
  hasCurrentCodec (registry w').
Proof.
  intros Hf. unfold init, call_IsRegistered.
  case_bool_decide as Hlen.
  { intros [= <-]. split; [done|by left]. }
  destruct (IsRegistered E _ _ _) as [[[isRegistered schema]|msg|m] remote1]; simpl;
    try done.
  destruct isRegistered; simpl.
  - destruct (NewCodec E rawSchema); simpl; try done.
    intros [= <-]. apply hasCurrentCodec_set.
  - intros H. specialize (Hf (mkWorld (registry w) remote1
                                (calls w ++ [CallIsRegistered (subject (registry w)) rawSchema]))).
    rewrite H in Hf. by apply Hf.
Qed.

(** What [Marshal] does on a registry that has its current codec. *)
Lemma Marshal_hasCurrentCodec (r : CodecRegistry) (data : GoValue) :
  hasCurrentCodec r ->
  Marshal r data = Err ErrNoEncodeSchema \/
  exists codec,
    codecByID r !! SchemaID r = Some codec /\
    Marshal r data
    = try byteData <- Codec_Marshal codec data in
      Ok (binary_Write_Header (mkHeader MagicByte (SchemaID r)) ++ byteData).
Proof.
  intros [_ [Hu|[codec Hc]]]; unfold Marshal.
  - left. by rewrite bool_decide_eq_true_2.
  - case_bool_decide; [by left|right].
    exists codec. by rewrite Hc.
Qed.

(** A registry that [NewCodecRegistry] or [NewCodecRegistryAndRegister]
    has returned keeps, through every sequence of calls of [Unmarshal],
    [Marshal], [Register] and [SetTypeNameEncoder], a codec for its
    current id unless that id is [UnknownID]: [Marshal] reports
    [ErrNoEncodeSchema] or encodes with that codec, and never takes a
    missing codec from the cache. *)
Theorem constructed_registry_has_codec (remote0 : RegState E)
    (subject0 schema : string) (w w' : World E) (data : GoValue) :
  NewCodecRegistry E remote0 subject0 schema = (Ok (), w) \/
  NewCodecRegistryAndRegister E remote0 subject0 schema = (Ok (), w) ->
  rtc (method E) w w' ->
  hasCurrentCodec (registry w') /\
  (Marshal (registry w') data = Err ErrNoEncodeSchema \/
   exists codec,
     codecByID (registry w') !! SchemaID (registry w') = Some codec /\
     Marshal (registry w') data
     = try byteData <- Codec_Marshal codec data in
       Ok (binary_Write_Header (mkHeader MagicByte (SchemaID (registry w')))
             ++ byteData)).
Proof.
  intros Hnew Hsteps.
  assert (hasCurrentCodec (registry w)) as Hw.
  { destruct Hnew as [Hnew|Hnew].
    - unfold NewCodecRegistry, newRegistry in Hnew.
      eapply init_hasCurrentCodec; [|exact Hnew]. done.
    - unfold NewCodecRegistryAndRegister, newRegistry, initAndRegister in Hnew.
      eapply init_hasCurrentCodec; [|exact Hnew].
      intros w0. apply Register_hasCurrentCodec. }
  assert (hasCurrentCodec (registry w')) as Hw'.
  { clear Hnew. induction Hsteps as [|w1 w2 w3 H12 _ IH]; [done|].
    apply IH. by eapply method_hasCurrentCodec. }
  split; [done|]. by apply Marshal_hasCurrentCodec.
Qed.
End CurrentCodec.

(* ===================================================================== *)
(** ** Making a codec registry *)

Section Constructors.
Context (E : Env).

(** With the empty schema, both constructors return a registry without
    asking the schema registry anything; the registry has no encoding
    schema and an empty cache, [Marshal] reports [ErrNoEncodeSchema] on
    every value, and [Unmarshal] decodes every body with the codec of the
    id of its header straight into the destination. *)
Theorem NewCodecRegistry_empty_schema (remote0 : RegState E) (subject0 : string) :
  NewCodecRegistry E remote0 subject0 ""
  = (Ok (), mkWorld (mkRegistry subject0 ∅ UnknownID None) remote0 []) /\
  NewCodecRegistryAndRegister E remote0 subject0 ""
  = (Ok (), mkWorld (mkRegistry subject0 ∅ UnknownID None) remote0 []) /\
  (forall data, Marshal (mkRegistry subject0 ∅ UnknownID None) data
                = Err ErrNoEncodeSchema) /\
  (forall (w : World E) fuel from to,
     SchemaID (registry w) = UnknownID ->
     Unmarshal E (S fuel) w from to
     = match readHeader from with
       | Ok (header, body) =>
           match getCodecByID E w (header_ID header) with
           | (Ok codec, w') => Some (Codec_Unmarshal E codec body to, w')
           | (Err e, w') =>
               Some (Err (ErrWrap "error when getting codec for schema id" e), w')
           | (Panic m, w') => Some (Panic m, w')
           end
       | Err e => Some (Err e, w)
       | Panic m => Some (Panic m, w)
       end).
Proof.
  split; [done|]. split; [done|]. split; [done|].
  intros w fuel from to Hid. rewrite Unmarshal_S.
  destruct (readHeader from) as [[header body]|e|m]; [|done|done].
  pose proof (getCodecByID_SchemaID E w (header_ID header)) as Hk.
  destruct (getCodecByID E w (header_ID header)) as [[codec|e|m] w1]; simpl;
    [|done|done].
  simpl in Hk. rewrite Hk, Hid.
  by rewrite (bool_decide_eq_false_2 (UnknownID <> UnknownID)) by (intros H; by apply H).
Qed.

(** [NewCodecRegistry] with a schema asks the schema registry one
    question, whether the schema is registered under the subject, and
    never registers anything; it fails when the answer is no. *)
Theorem NewCodecRegistry_calls (remote0 : RegState E) (subject0 schema : string) :
  schema <> "" ->
  calls (NewCodecRegistry E remote0 subject0 schema).2
  = [CallIsRegistered subject0 schema] /\
  remote (NewCodecRegistry E remote0 subject0 schema).2
  = (IsRegistered E remote0 subject0 schema).2 /\
  (forall s, (IsRegistered E remote0 subject0 schema).1 = Ok (false, s) ->
     (NewCodecRegistry E remote0 subject0 schema).1
     = Err (ErrOther "the given schema is not registered")).
Proof.
  intros Hne.
  unfold NewCodecRegistry, newRegistry, init, call_IsRegistered.
  rewrite bool_decide_eq_false_2 by (by destruct schema).
  cbn [registry remote calls emptyRegistry subject app].
  destruct (IsRegistered E remote0 subject0 schema)
    as [[[isRegistered s]|msg|m] remote1]; cbn [lift wrap fst snd]; try done.
  destruct isRegistered; cbn [negb].
  - cbn [registry remote calls].
    by destruct (NewCodec E schema).
  - done.
Qed.

(** [NewCodecRegistryAndRegister] registers the schema only when the
    schema registry says that it is not registered: when the answer is
    yes, the one question is the only call; when the answer is no, the
    next call is [RegisterNewSchema]. *)
Theorem NewCodecRegistryAndRegister_calls (remote0 : RegState E)
    (subject0 schema : string) (isRegistered : bool) (s : Schema) :
  schema <> "" ->
  (IsRegistered E remote0 subject0 schema).1 = Ok (isRegistered, s) ->
  if isRegistered
  then calls (NewCodecRegistryAndRegister E remote0 subject0 schema).2
       = [CallIsRegistered subject0 schema]
  else exists rest,
       calls (NewCodecRegistryAndRegister E remote0 subject0 schema).2
       = [CallIsRegistered subject0 schema;
          CallRegisterNewSchema subject0 schema] ++ rest.
Proof.
  intros Hne.
  unfold NewCodecRegistryAndRegister, newRegistry, initAndRegister, init,
    call_IsRegistered.
  rewrite bool_decide_eq_false_2 by (by destruct schema).
  cbn [registry remote calls emptyRegistry subject app].
  destruct (IsRegistered E remote0 subject0 schema) as [res remote1].
  cbn [fst]. intros ->. cbn [lift wrap].
  destruct isRegistered; cbn [negb].
  - cbn [registry remote calls]. by destruct (NewCodec E schema).
  - unfold Register, call_RegisterNewSchema, call_IsRegistered, emptyRegistry.
    cbn [registry remote calls subject app].
    destruct (RegisterNewSchema E remote1 subject0 schema)
      as [[id|msg|m] remote2]; cbn [lift wrap];
      try (eexists; reflexivity).
    cbn [registry remote calls subject app].
    destruct (IsRegistered E remote2 subject0 schema)
      as [[[isRegistered' s']|msg|m] remote3]; cbn [lift wrap];
      try (eexists; reflexivity).
    destruct isRegistered'; cbn [negb]; [|eexists; reflexivity].
    destruct (NewCodec E schema); cbn [wrap]; eexists; reflexivity.
Qed.
End Constructors.

(* ===================================================================== *)
(** ** [Register] and [SetTypeNameEncoder] *)

Section RegisterFacts.
Context (E : Env).

Lemma NewCodec_Ok (rawSchema : string) (codec : Codec) :
  NewCodec E rawSchema = Ok codec ->
  Namespace codec = json_namespace E rawSchema /\
  TypeNameEncoder codec = DefaultTypeNameEncoder.
Proof.
  unfold NewCodec.
  destruct (goavro_NewCodec E rawSchema); simpl; try done.
  by intros [= <-].
Qed.

(** A successful [Register], field by field. *)
Lemma Register_Ok (w : World E) (rawSchema : string) :
  (Register E w rawSchema).1 = Ok () ->
  exists (schema : Schema) (codec : Codec),
    NewCodec E rawSchema = Ok codec /\
    SchemaID (registry (Register E w rawSchema).2) = int32_of (schema_ID schema) /\
    codecByID (registry (Register E w rawSchema).2)
    = <[int32_of (schema_ID schema) :=
          mkCodec (goavro_Codec codec) (Namespace codec)
            (default DefaultTypeNameEncoder
               (registry_TypeNameEncoder (registry w)))]>
        (codecByID (registry w)) /\
    subject (registry (Register E w rawSchema).2) = subject (registry w) /\
    registry_TypeNameEncoder (registry (Register E w rawSchema).2)
    = registry_TypeNameEncoder (registry w) /\
    calls (Register E w rawSchema).2
    = calls w ++ [CallRegisterNewSchema (subject (registry w)) rawSchema;
                  CallIsRegistered (subject (registry w)) rawSchema].
Proof.
  unfold Register, call_RegisterNewSchema, call_IsRegistered.
  destruct (RegisterNewSchema E _ _ _) as [[id|msg|m] remote1]; simpl; try done.
  destruct (IsRegistered E _ _ _) as [[[isRegistered schema]|msg|m] remote2]; simpl;
    try done.
  destruct isRegistered; simpl; [|done].
  destruct (NewCodec E rawSchema) as [codec|e|m] eqn:Hcodec; simpl; try done.
  intros _.
  destruct (NewCodec_Ok _ _ Hcodec) as [_ Henc].
  exists schema, codec. split; [done|]. split; [done|].
  split; [|split; [done|split; [done|]]].
  - f_equal. destruct (registry_TypeNameEncoder (registry w)); simpl; [done|].
    destruct codec; simpl in *. by subst.
  - by rewrite <- app_assoc.
Qed.


(** [SetTypeNameEncoder] gives the encoder to every codec of the cache
    and touches nothing else of them; the ids of the cache, the current
    id and the schema registry are as before; and the codec of a later
    successful [Register] has the encoder too. *)
Theorem SetTypeNameEncoder_applies (w : World E) (f : string -> string) :
  (forall ID,
     codecByID (registry (SetTypeNameEncoder E w f)) !! ID
     = (fun codec => mkCodec (goavro_Codec codec) (Namespace codec) f)
         <$> codecByID (registry w) !! ID) /\
  SchemaID (registry (SetTypeNameEncoder E w f)) = SchemaID (registry w) /\
  remote (SetTypeNameEncoder E w f) = remote w /\
  calls (SetTypeNameEncoder E w f) = calls w /\
  (forall rawSchema,
     (Register E (SetTypeNameEncoder E w f) rawSchema).1 = Ok () ->
     exists codec,
       codecByID (registry (Register E (SetTypeNameEncoder E w f) rawSchema).2)
         !! SchemaID (registry (Register E (SetTypeNameEncoder E w f) rawSchema).2)
       = Some codec /\
       TypeNameEncoder codec = f).
Proof.
  split; [|split; [done|split; [done|split; [done|]]]].
  - intros ID. simpl. by rewrite lookup_fmap.
  - intros rawSchema HOk.
    destruct (Register_Ok (SetTypeNameEncoder E w f) rawSchema HOk)
      as (schema & codec & _ & -> & -> & _).
    eexists. rewrite lookup_insert_eq. done.
Qed.
End RegisterFacts.

(* ===================================================================== *)
(** ** [Unmarshal] of what [Marshal] wrote *)

Section SameRegistry.
Context (E : Env).

(** What [Marshal] of a registry writes, [Unmarshal] of the same registry
    reads without a call to the schema registry and without a change of
    the codec registry: the result is the decoding, by the codec of the
    current id, of the bytes that this codec made of the value. *)
Theorem Unmarshal_of_Marshal (w : World E) (data : GoValue) (from : list Z)
    (to : GoType) (fuel : nat) :
  isInt32 (SchemaID (registry w)) ->
  Marshal (registry w) data = Ok from ->
  exists codec body,
    codecByID (registry w) !! SchemaID (registry w) = Some codec /\
    Codec_Marshal codec data = Ok body /\
    Unmarshal E (S fuel) w from to = Some (Codec_Unmarshal E codec body to, w).
Proof.
  intros Hrange HM.
  destruct (Marshal_Ok_inv _ _ _ HM) as (Hknown & codec & body & Hc & Hb & ->).
  exists codec, body. split; [done|]. split; [done|].
  by apply Unmarshal_current.
Qed.

(** A message whose id neither the cache nor the schema registry knows:
    [Unmarshal] returns the error of the schema registry, wrapped, after
    one call to it, and the cache is as before, so that the next message
    of that id asks again. *)
Theorem Unmarshal_unknown_id (w : World E) (b1 b2 b3 b4 : Z) (body : list Z)
    (to : GoType) (fuel : nat) (msg : string) :
  codecByID (registry w) !! int32_of (BigEndian_Uint32 [b1; b2; b3; b4]) = None ->
  (GetSchemaByID E (remote w) (int32_of (BigEndian_Uint32 [b1; b2; b3; b4]))).1
  = Err msg ->
  Unmarshal E (S fuel) w (0 :: b1 :: b2 :: b3 :: b4 :: body) to
  = Some (Err (ErrWrap "error when getting codec for schema id" (ErrOther msg)),
          mkWorld (registry w)
            (GetSchemaByID E (remote w)
               (int32_of (BigEndian_Uint32 [b1; b2; b3; b4]))).2
            (calls w ++ [CallGetSchemaByID
                           (int32_of (BigEndian_Uint32 [b1; b2; b3; b4]))])).
Proof.
  intros Hmiss Herr.
  rewrite Unmarshal_S, readHeader_five. cbn [header_ID].
  rewrite (getCodecByID_miss E w _ Hmiss). cbv zeta.
  by rewrite Herr.
Qed.
End SameRegistry.

(* ===================================================================== *)
(** ** The in-memory schema registry *)

Module NOOPFacts.
Import NOOP.

(** [s] is the schema at index [i] of the list of [subject]. *)
Definition storedAt (st : State) (subject : string) (i : nat) (s : Schema) : Prop :=
  exists schemas, store st !! subject = Some schemas /\ schemas !! i = Some s.

(** The state of a client as its closures keep it: a stored schema
    carries its subject, its index as its version and an id below the
    counter, and an id is stored once. *)
Definition valid (st : State) : Prop :=
  0 <= newID st /\
  (forall subject i s, storedAt st subject i s ->
     schema_Subject s = subject /\ schema_Version s = Z.of_nat i /\
     0 <= schema_ID s < newID st) /\
  (forall subject1 i1 s1 subject2 i2 s2,
     storedAt st subject1 i1 s1 -> storedAt st subject2 i2 s2 ->
     schema_ID s1 = schema_ID s2 -> subject1 = subject2 /\ i1 = i2).

(** One call of a method of the client. *)
Inductive clientCall : State -> State -> Prop :=
| client_Subjects st : clientCall st (SubjectsFn st).2
| client_Versions st subject : clientCall st (VersionsFn st subject).2
| client_RegisterNewSchema st subject rawSchema :
    clientCall st (RegisterNewSchemaFn st subject rawSchema).2
| client_IsRegistered st subject schema :
    clientCall st (IsRegisteredFn st subject schema).2
| client_GetSchemaByID st id : clientCall st (GetSchemaByIDFn st id).2
| client_GetSchemaBySubject st subject ver :
    clientCall st (GetSchemaBySubjectFn st subject ver).2
| client_GetLatestSchema st subject : clientCall st (GetLatestSchemaFn st subject).2
| client_DeleteSubject st subject : clientCall st (DeleteSubjectFn st subject).2.

Lemma IsRegisteredFn_state st subject schema :
  (IsRegisteredFn st subject schema).2 = st.
Proof.
  unfold IsRegisteredFn. destruct (store st !! subject) as [l|]; [|done].
  by destruct (filter _ l).
Qed.

Lemma GetSchemaByIDFn_state st id : (GetSchemaByIDFn st id).2 = st.
Proof. unfold GetSchemaByIDFn. by destruct (filter _ _). Qed.

Lemma GetLatestSchemaFn_state st subject : (GetLatestSchemaFn st subject).2 = st.
Proof.
  unfold GetLatestSchemaFn. destruct (store st !! subject) as [l|]; [|done].
  by destruct (last l).
Qed.

Lemma storedAt_Register st subject rawSchema subject' i s :
  storedAt (RegisterNewSchemaFn st subject rawSchema).2 subject' i s ->
  storedAt st subject' i s \/
  (subject' = subject /\
   i = length (default [] (store st !! subject)) /\
   s = mkSchema rawSchema subject
         (Z.of_nat (length (default [] (store st !! subject)))) (newID st)).
Proof.
  intros (l & Hl & Hi). simpl in Hl.
  destruct (decide (subject' = subject)) as [->|Hne].
  - rewrite lookup_insert_eq in Hl. injection Hl as <-.
    apply lookup_app_Some in Hi as [Hi|[Hlen Hi]].
    + left. destruct (store st !! subject) as [l|] eqn:Hs; [|done].
      by exists l.
    + right. split; [done|].
      apply list_lookup_singleton_Some in Hi as [Hi <-].
      split; [lia|done].
  - rewrite lookup_insert_ne in Hl by done. left. by exists l.
Qed.

Lemma storedAt_Delete st subject subject' i s :
  storedAt (DeleteSubjectFn st subject).2 subject' i s <->
  subject' <> subject /\ storedAt st subject' i s.
Proof.
  unfold storedAt. simpl. split.
  - intros (l & Hl & Hi). apply lookup_delete_Some in Hl as [Hne Hl].
    split; [done|]. by exists l.
  - intros (Hne & l & Hl & Hi). exists l. split; [|done].
    by apply lookup_delete_Some.
Qed.

Lemma storedAt_length st subject i s l :
  store st !! subject = Some l -> storedAt st subject i s -> (i < length l)%nat.
Proof.
  intros Hl (l' & Hl' & Hi). rewrite Hl in Hl'. injection Hl' as <-.
  by eapply lookup_lt_Some.
Qed.

Lemma valid_Register st subject rawSchema :
  valid st -> valid (RegisterNewSchemaFn st subject rawSchema).2.
Proof.
  intros (Hpos & Hfields & Hids). split; [simpl; lia|]. split.
  - intros subject' i s [Hold|(-> & -> & ->)]%storedAt_Register.
    + destruct (Hfields _ _ _ Hold) as (? & ? & ?). simpl. repeat split; try done; lia.
    + simpl. repeat split; try done; lia.
  - intros subject1 i1 s1 subject2 i2 s2 H1 H2 Heq.
    apply storedAt_Register in H1, H2.
    destruct H1 as [H1|(-> & -> & ->)], H2 as [H2|(-> & -> & ->)].
    + by eapply Hids.
    + destruct (Hfields _ _ _ H1) as (_ & _ & ?). simpl in Heq. lia.
    + destruct (Hfields _ _ _ H2) as (_ & _ & ?). simpl in Heq. lia.
    + done.
Qed.

Lemma valid_Delete st subject : valid st -> valid (DeleteSubjectFn st subject).2.
Proof.
  intros (Hpos & Hfields & Hids). split; [done|]. split.
  - intros subject' i s [_ Hold]%storedAt_Delete. by apply Hfields.
  - intros subject1 i1 s1 subject2 i2 s2 [_ H1]%storedAt_Delete
      [_ H2]%storedAt_Delete. by apply Hids.
Qed.

Lemma valid_call st st' : clientCall st st' -> valid st -> valid st'.
Proof.
  destruct 1; try done.
  - apply valid_Register.
  - by rewrite IsRegisteredFn_state.
  - by rewrite GetSchemaByIDFn_state.
  - by rewrite GetLatestSchemaFn_state.
  - apply valid_Delete.
Qed.

Lemma valid_NewNOOPClient : valid NewNOOPClient.
Proof.
  split; [done|]. split.
  - by intros subject i s (l & Hl & _).
  - by intros subject1 i1 s1 subject2 i2 s2 (l & Hl & _).
Qed.

Lemma valid_rtc st st' : rtc clientCall st st' -> valid st -> valid st'.
Proof.
  induction 1 as [|st1 st2 st3 H12 _ IH]; [done|].
  intros Hv. apply IH. by eapply valid_call.
Qed.

Lemma valid_reachable st : rtc clientCall NewNOOPClient st -> valid st.
Proof. intros H. eapply valid_rtc; [exact H|apply valid_NewNOOPClient]. Qed.

Lemma elem_of_all_schemas st s :
  s ∈ concat (snd <$> map_to_list (store st)) <->
  exists subject i, storedAt st subject i s.
Proof.
  rewrite list_elem_of_In, in_concat. split.
  - intros (l & Hl & Hs).
    apply list_elem_of_In, list_elem_of_fmap in Hl as ([subject l'] & -> & Hl).
    apply elem_of_map_to_list in Hl.
    apply list_elem_of_In, list_elem_of_lookup in Hs as [i Hi].
    exists subject, i, l'. done.
  - intros (subject & i & l & Hl & Hi).
    exists l. split.
    + apply list_elem_of_In, list_elem_of_fmap. exists (subject, l).
      split; [done|]. by apply elem_of_map_to_list.
    + apply list_elem_of_In. by eapply list_elem_of_lookup_2.
Qed.

Lemma storedAt_inj st subject i s s' :
  storedAt st subject i s -> storedAt st subject i s' -> s = s'.
Proof.
  intros (l & Hl & Hi) (l' & Hl' & Hi').
  rewrite Hl in Hl'. injection Hl' as <-. rewrite Hi in Hi'. by injection Hi'.
Qed.

Lemma GetSchemaByIDFn_stored st subject i s :
  valid st -> storedAt st subject i s ->
  GetSchemaByIDFn st (schema_ID s) = (Ok (schema_Schema s), st).
Proof.
  intros (_ & _ & Hids) Hs. unfold GetSchemaByIDFn.
  destruct (filter _ _) as [|s' rest] eqn:Hf.
  - assert (s ∈ filter (fun s0 => schema_ID s0 = schema_ID s)
                  (concat (snd <$> map_to_list (store st)))) as Hin.
    { apply list_elem_of_filter. split; [done|].
      apply elem_of_all_schemas. by exists subject, i. }
    rewrite Hf in Hin. by apply elem_of_nil in Hin.
  - assert (s' ∈ filter (fun s0 => schema_ID s0 = schema_ID s)
                   (concat (snd <$> map_to_list (store st)))) as Hin.
    { rewrite Hf. by left. }
    apply list_elem_of_filter in Hin as [Hid Hin].
    apply elem_of_all_schemas in Hin as (subject' & i' & Hs').
    destruct (Hids _ _ _ _ _ _ Hs' Hs Hid) as [-> ->].
    by rewrite (storedAt_inj _ _ _ _ _ Hs' Hs).
Qed.

Lemma GetSchemaByIDFn_absent st id :
  (forall subject i s, storedAt st subject i s -> schema_ID s <> id) ->
  GetSchemaByIDFn st id = (Err "schema not found", st).
Proof.
  intros Habs. unfold GetSchemaByIDFn.
  destruct (filter _ _) as [|s' rest] eqn:Hf; [done|].
  assert (s' ∈ filter (fun s0 => schema_ID s0 = id)
                 (concat (snd <$> map_to_list (store st)))) as Hin.
  { rewrite Hf. by left. }
  apply list_elem_of_filter in Hin as [Hid Hin].
  apply elem_of_all_schemas in Hin as (subject' & i' & Hs').
  by destruct (Habs _ _ _ Hs').
Qed.

(** [GetSchemaByID] of a client made by [NewNOOPClient], after any
    calls: the text of a stored schema is found by the id of the schema,
    and an id that no stored schema has gives ["schema not found"]. *)
Theorem GetSchemaByID_finds (st : State) (id : Z) :
  rtc clientCall NewNOOPClient st ->
  (forall subject i s, storedAt st subject i s -> schema_ID s = id ->
     GetSchemaByIDFn st id = (Ok (schema_Schema s), st)) /\
  ((forall subject i s, storedAt st subject i s -> schema_ID s <> id) ->
   GetSchemaByIDFn st id = (Err "schema not found", st)).
Proof.
  intros Hv%valid_reachable. split.
  - intros subject i s Hs <-. by eapply GetSchemaByIDFn_stored.
  - apply GetSchemaByIDFn_absent.
Qed.

Lemma storedAt_new st subject rawSchema :
  storedAt (RegisterNewSchemaFn st subject rawSchema).2 subject
    (length (default [] (store st !! subject)))
    (mkSchema rawSchema subject
       (Z.of_nat (length (default [] (store st !! subject)))) (newID st)).
Proof.
  eexists. simpl. rewrite lookup_insert_eq. split; [done|].
  rewrite lookup_app_r by done. by rewrite Nat.sub_diag.
Qed.

(** [RegisterNewSchema] of a client made by [NewNOOPClient], after any
    calls: the id returned is the counter, which no stored schema has;
    afterwards the schema is the latest of its subject, with the number
    of the schemas that the subject had as its version; its text is found
    by the id; and [IsRegistered] says yes for the text under the subject,
    with a schema of that text and subject whose id is the new one or an
    older one (the text may have been registered before). *)
Theorem RegisterNewSchema_then_found (st : State) (subject rawSchema : string) :
  rtc clientCall NewNOOPClient st ->
  (RegisterNewSchemaFn st subject rawSchema).1 = Ok (newID st) /\
  (forall subject' i s, storedAt st subject' i s -> schema_ID s < newID st) /\
  GetLatestSchemaFn (RegisterNewSchemaFn st subject rawSchema).2 subject
  = (Ok (mkSchema rawSchema subject
           (Z.of_nat (length (default [] (store st !! subject)))) (newID st)),
     (RegisterNewSchemaFn st subject rawSchema).2) /\
  GetSchemaByIDFn (RegisterNewSchemaFn st subject rawSchema).2 (newID st)
  = (Ok rawSchema, (RegisterNewSchemaFn st subject rawSchema).2) /\
  exists s,
    IsRegisteredFn (RegisterNewSchemaFn st subject rawSchema).2 subject rawSchema
    = (Ok (true, s), (RegisterNewSchemaFn st subject rawSchema).2) /\
    schema_Schema s = rawSchema /\ schema_Subject s = subject /\
    schema_ID s <= newID st.
Proof.
  intros Hv%valid_reachable.
  pose proof (valid_Register st subject rawSchema Hv) as Hv'.
  split; [done|]. split.
  { intros subject' i s Hs. destruct Hv as (_ & Hfields & _).
    destruct (Hfields _ _ _ Hs) as (_ & _ & ?). lia. }
  split.
  { unfold GetLatestSchemaFn. simpl. rewrite lookup_insert_eq.
    by rewrite last_snoc. }
  split.
  { apply (GetSchemaByIDFn_stored _ _ _ _ Hv' (storedAt_new st subject rawSchema)). }
  unfold IsRegisteredFn. simpl. rewrite lookup_insert_eq.
  rewrite filter_app.
  set (old := default [] (store st !! subject)).
  rewrite (filter_cons (fun s0 => rawSchema = schema_Schema s0)).
  rewrite decide_True by done. rewrite filter_nil.
  destruct (filter _ old) as [|s rest] eqn:Hf.
  - eexists. split; [done|]. simpl. repeat split; lia.
  - exists s. split; [done|].
    assert (s ∈ filter (fun s0 => rawSchema = schema_Schema s0) old) as Hin.
    { rewrite Hf. by left. }
    apply list_elem_of_filter in Hin as [Htext Hin].
    apply list_elem_of_lookup in Hin as [i Hi].
    assert (storedAt st subject i s) as Hs.
    { unfold old in Hi. destruct (store st !! subject) as [l|] eqn:Hl; [|done].
      by exists l. }
    destruct Hv as (_ & Hfields & _).
    destruct (Hfields _ _ _ Hs) as (? & ? & ?).
    repeat split; try done. lia.
Qed.

(** [DeleteSubject]: afterwards [IsRegistered] says no for every text
    under the subject and the subject has no latest schema, the ids of
    its schemas are not found any more, the other subjects are as
    before, and the counter of the ids is not set back. *)
Theorem DeleteSubject_forgets (st : State) (subject : string) :
  rtc clientCall NewNOOPClient st ->
  (forall schema,
     IsRegisteredFn (DeleteSubjectFn st subject).2 subject schema
     = (Ok (false, mkSchema "" "" 0 0), (DeleteSubjectFn st subject).2)) /\
  GetLatestSchemaFn (DeleteSubjectFn st subject).2 subject
  = (Err "subject not found", (DeleteSubjectFn st subject).2) /\
  (forall i s, storedAt st subject i s ->
     GetSchemaByIDFn (DeleteSubjectFn st subject).2 (schema_ID s)
     = (Err "schema not found", (DeleteSubjectFn st subject).2)) /\
  (forall subject', subject' <> subject ->
     store (DeleteSubjectFn st subject).2 !! subject' = store st !! subject') /\
  newID (DeleteSubjectFn st subject).2 = newID st.
Proof.
  intros Hv%valid_reachable.
  split; [|split; [|split; [|split; [|done]]]].
  - intros schema. unfold IsRegisteredFn. simpl. by rewrite lookup_delete_eq.
  - unfold GetLatestSchemaFn. simpl. by rewrite lookup_delete_eq.
  - intros i s Hs. apply GetSchemaByIDFn_absent.
    intros subject' i' s' [Hne Hs']%storedAt_Delete Hid.
    destruct Hv as (_ & _ & Hids).
    by destruct (Hids _ _ _ _ _ _ Hs' Hs Hid) as [-> _].
  - intros subject' Hne. simpl. by rewrite lookup_delete_ne.
Qed.

Lemma newID_call st st' : clientCall st st' -> newID st <= newID st'.
Proof.
  destruct 1; simpl; try lia.
  - rewrite IsRegisteredFn_state. lia.
  - rewrite GetSchemaByIDFn_state. lia.
  - rewrite GetLatestSchemaFn_state. lia.
Qed.

Lemma newID_rtc st st' : rtc clientCall st st' -> newID st <= newID st'.
Proof.
  induction 1 as [|st1 st2 st3 H12 _ IH]; [lia|].
  apply newID_call in H12. lia.
Qed.

(** The ids that [RegisterNewSchema] returns grow: whatever is called
    between two registrations, deletions included, the second id is
    greater than the first, and the first id that a new client gives
    is 0. *)
Theorem RegisterNewSchema_ids_grow (st st' : State)
    (subject rawSchema subject' rawSchema' : string) :
  rtc clientCall (RegisterNewSchemaFn st subject rawSchema).2 st' ->
  exists id id',
    (RegisterNewSchemaFn st subject rawSchema).1 = Ok id /\
    (RegisterNewSchemaFn st' subject' rawSchema').1 = Ok id' /\
    id < id' /\
    (RegisterNewSchemaFn NewNOOPClient subject rawSchema).1 = Ok 0.
Proof.
  intros H%newID_rtc. simpl in H.
  exists (newID st), (newID st'). repeat split; try done. lia.
Qed.
End NOOPFacts.

(* ===================================================================== *)
(** ** A codec registry over the in-memory schema registry *)

(** The program linked against the in-memory schema registry. *)
Definition NOOPEnv (newCodec : string -> cresult GoavroCodec)
    (namespace : string -> string)
    (unmarshalAvro : TypeDecl -> string -> cresult GoValue) : Env :=
  mkEnv NOOP.State NOOP.RegisterNewSchemaFn NOOP.IsRegisteredFn
    NOOP.GetSchemaByIDFn newCodec namespace unmarshalAvro.

(** [NewNOOPCodecRegistry] ([schemaregistry_mock.go], lines 5-13): the
    struct literal leaves [SchemaID] at 0. *)
Definition NewNOOPCodecRegistry (newCodec : string -> cresult GoavroCodec)
    (namespace : string -> string)
    (unmarshalAvro : TypeDecl -> string -> cresult GoValue)
    (subject : string) : World (NOOPEnv newCodec namespace unmarshalAvro) :=
  @mkWorld (NOOPEnv newCodec namespace unmarshalAvro)
    (mkRegistry subject ∅ 0 None) NOOP.NewNOOPClient [].

Section OverNOOP.
Context (newCodec : string -> cresult GoavroCodec)
        (namespace : string -> string)
        (unmarshalAvro : TypeDecl -> string -> cresult GoValue).

#[local] Abbreviation E := (NOOPEnv newCodec namespace unmarshalAvro).

(** A registry from [NewNOOPCodecRegistry] has the current id 0 and no
    codec: until a schema is registered, [Marshal] panics on every value.
    [Register] of a schema that the binary codec accepts gives the
    schema the id 0, and [Marshal] then writes the header of id 0 and the
    bytes of the codec of that schema. *)
Theorem NewNOOPCodecRegistry_Marshal (subject0 rawSchema : string)
    (o : GoavroCodec) (data : GoValue) :
  newCodec rawSchema = Ok o ->
  Marshal (registry (NewNOOPCodecRegistry newCodec namespace unmarshalAvro subject0))
    data
  = Panic "invalid memory address or nil pointer dereference" /\
  (Register E (NewNOOPCodecRegistry newCodec namespace unmarshalAvro subject0)
     rawSchema).1 = Ok () /\
  registry (Register E (NewNOOPCodecRegistry newCodec namespace unmarshalAvro subject0)
              rawSchema).2
  = mkRegistry subject0
      {[ 0 := mkCodec o (namespace rawSchema) DefaultTypeNameEncoder ]} 0 None /\
  Marshal (registry (Register E
                       (NewNOOPCodecRegistry newCodec namespace unmarshalAvro subject0)
                       rawSchema).2) data
  = try byteData <-
      Codec_Marshal (mkCodec o (namespace rawSchema) DefaultTypeNameEncoder) data in
    Ok ([0; 0; 0; 0; 0] ++ byteData).
Proof.
  intros Ho.
  split; [done|].
  unfold Register, call_RegisterNewSchema, call_IsRegistered, NewCodec.
  simpl. unfold NOOP.IsRegisteredFn. simpl.
  rewrite lookup_insert_eq, lookup_empty. cbn [default app length].
  rewrite (filter_cons (fun s => rawSchema = schema_Schema s)).
  rewrite decide_True by done. simpl. rewrite Ho. simpl.
  split; [done|]. split; [done|].
  unfold Marshal. simpl. by rewrite lookup_insert_eq.
Qed.

(** [Register] over the in-memory schema registry, call by call. *)
Lemma Register_NOOP (w : World E) (rawSchema : string) :
  Register E w rawSchema
  = let old := default [] (NOOP.store (remote w) !! subject (registry w)) in
    let new := mkSchema rawSchema (subject (registry w)) (Z.of_nat (length old))
                 (NOOP.newID (remote w)) in
    let s := default new (head (filter (fun s => rawSchema = schema_Schema s) old)) in
    let remote' :=
      NOOP.mkState (NOOP.newID (remote w) + 1)
        (<[subject (registry w) := old ++ [new]]> (NOOP.store (remote w))) in
    let calls' :=
      (calls w ++ [CallRegisterNewSchema (subject (registry w)) rawSchema])
        ++ [CallIsRegistered (subject (registry w)) rawSchema] in
    match newCodec rawSchema with
    | Ok o =>
        (Ok (),
         @mkWorld E
           (setSchemaID
              (setCodec (registry w) (int32_of (schema_ID s))
                 (mkCodec o (namespace rawSchema)
                    (default DefaultTypeNameEncoder
                       (registry_TypeNameEncoder (registry w)))))
              (int32_of (schema_ID s)))
           remote' calls')
    | Err msg =>
        (Err (ErrWrap "NewCodec error" (ErrOther msg)),
         @mkWorld E (registry w) remote' calls')
    | Panic m => (Panic m, @mkWorld E (registry w) remote' calls')
    end.
Proof.
  unfold Register, call_RegisterNewSchema, call_IsRegistered, NewCodec.
  cbn [RegisterNewSchema IsRegistered NOOPEnv goavro_NewCodec json_namespace].
  unfold NOOP.RegisterNewSchemaFn. cbn [fst snd lift wrap registry remote calls].
  unfold NOOP.IsRegisteredFn. cbn [NOOP.store NOOP.newID].
  rewrite lookup_insert_eq. cbv zeta.
  set (old := default [] (NOOP.store (remote w) !! subject (registry w))).
  rewrite filter_app.
  rewrite (filter_cons (fun s => rawSchema = schema_Schema s)).
  rewrite decide_True by done.
  destruct (filter (fun s => rawSchema = schema_Schema s) old) as [|s rest];
    cbn [app head default lift wrap negb registry remote calls];
    destruct (newCodec rawSchema) as [o|msg|m]; cbn [lift rbind wrap]; try done.
  - by destruct (registry_TypeNameEncoder (registry w)).
  - by destruct (registry_TypeNameEncoder (registry w)).
Qed.

(** [Register] of the same schema a second time: the in-memory schema
    registry stores the schema again under a new id, [IsRegistered]
    answers with the oldest schema of that text, and the current id of
    the codec registry stays what it was. *)
Theorem Register_again (w : World E) (rawSchema : string) :
  (Register E w rawSchema).1 = Ok () ->
  (Register E (Register E w rawSchema).2 rawSchema).1 = Ok () /\
  SchemaID (registry (Register E (Register E w rawSchema).2 rawSchema).2)
  = SchemaID (registry (Register E w rawSchema).2) /\
  NOOP.newID (remote (Register E (Register E w rawSchema).2 rawSchema).2)
  = NOOP.newID (remote w) + 2.
Proof.
  rewrite (Register_NOOP w). cbv zeta.
  destruct (newCodec rawSchema) as [o|msg|m] eqn:Ho; [|done|done].
  intros _. cbn [fst snd].
  rewrite Register_NOOP. cbv zeta. rewrite Ho.
  cbn [fst snd registry remote SchemaID setSchemaID setCodec subject
       NOOP.newID NOOP.store].
  rewrite lookup_insert_eq. cbn [default].
  split; [done|]. split; [|lia].
  f_equal. f_equal. unfold id.
  rewrite filter_app.
  rewrite (filter_cons (fun s => rawSchema = schema_Schema s)).
  rewrite decide_True by done.
  match goal with
  | |- context [filter ?P ?l ++ _] => destruct (filter P l)
  end; reflexivity.
Qed.
End OverNOOP.

(* ===================================================================== *)
(** ** More theorems at the values of the tests *)

(** A value of [type MyEnum string]. *)
Lemma convertToBaseType_type_witness :
  typeOf (Fixtures.stringValue "v")
  = getBaseType <$> typeOf (VString (mkDecl "MyEnum" None false) "v") /\
  kindOf (Fixtures.stringValue "v")
  = kindOf (VString (mkDecl "MyEnum" None false) "v") /\
  convertToBaseType (Fixtures.stringValue "v") = Ok (Fixtures.stringValue "v").
Proof.
  apply (convertToBaseType_type (VString (mkDecl "MyEnum" None false) "v")
           (Fixtures.stringValue "v")).
  reflexivity.
Defined.

(** The registry [codecV1] of the tests, after a [Marshal]. *)
Lemma constructed_registry_has_codec_witness :
  hasCurrentCodec (registry Fixtures.codecV1) /\
  (Marshal (registry Fixtures.codecV1) (Fixtures.Person "Nico" 36)
   = Err ErrNoEncodeSchema \/
   exists codec,
     codecByID (registry Fixtures.codecV1) !! SchemaID (registry Fixtures.codecV1)
     = Some codec /\
     Marshal (registry Fixtures.codecV1) (Fixtures.Person "Nico" 36)
     = try byteData <- Codec_Marshal codec (Fixtures.Person "Nico" 36) in
       Ok (binary_Write_Header
             (mkHeader MagicByte (SchemaID (registry Fixtures.codecV1)))
             ++ byteData)).
Proof.
  apply (constructed_registry_has_codec Fixtures.TestEnv NOOP.NewNOOPClient
           "test" Fixtures.schemaV1 Fixtures.codecV1 Fixtures.codecV1
           (Fixtures.Person "Nico" 36)).
  - right. reflexivity.
  - apply rtc_once. apply (method_Marshal _ _ VNil).
Defined.

(** [NewCodecRegistry] with the schema v1 over a new in-memory registry,
    which has no schema. *)
Lemma NewCodecRegistry_calls_witness :
  calls (NewCodecRegistry Fixtures.TestEnv NOOP.NewNOOPClient "test"
           Fixtures.schemaV1).2
  = [CallIsRegistered "test" Fixtures.schemaV1] /\
  remote (NewCodecRegistry Fixtures.TestEnv NOOP.NewNOOPClient "test"
            Fixtures.schemaV1).2
  = (IsRegistered Fixtures.TestEnv NOOP.NewNOOPClient "test" Fixtures.schemaV1).2 /\
  (forall s,
     (IsRegistered Fixtures.TestEnv NOOP.NewNOOPClient "test" Fixtures.schemaV1).1
     = Ok (false, s) ->
     (NewCodecRegistry Fixtures.TestEnv NOOP.NewNOOPClient "test"
        Fixtures.schemaV1).1
     = Err (ErrOther "the given schema is not registered")).
Proof.
  apply (NewCodecRegistry_calls Fixtures.TestEnv NOOP.NewNOOPClient "test"
           Fixtures.schemaV1).
  discriminate.
Defined.

(** [NewCodecRegistryAndRegister] with the schema v1 over a new in-memory
    registry. *)
Lemma NewCodecRegistryAndRegister_calls_witness :
  exists rest,
    calls (NewCodecRegistryAndRegister Fixtures.TestEnv NOOP.NewNOOPClient "test"
             Fixtures.schemaV1).2
    = [CallIsRegistered "test" Fixtures.schemaV1;
       CallRegisterNewSchema "test" Fixtures.schemaV1] ++ rest.
Proof.
  apply (NewCodecRegistryAndRegister_calls Fixtures.TestEnv NOOP.NewNOOPClient
           "test" Fixtures.schemaV1 false (mkSchema "" "" 0 0)).
  - discriminate.
  - reflexivity.
Defined.

(** [codecV1] reads what it wrote for [Person{"Nico", 36}]. *)
Lemma Unmarshal_of_Marshal_witness :
  exists codec body,
    codecByID (registry Fixtures.codecV1) !! SchemaID (registry Fixtures.codecV1)
    = Some codec /\
    Codec_Marshal codec (VPtr Fixtures.PersonType (Some (Fixtures.Person "Nico" 36)))
    = Ok body /\
    Unmarshal Fixtures.TestEnv 1 Fixtures.codecV1 (Fixtures.personPayload "Nico" 36)
      Fixtures.PersonType
    = Some (Codec_Unmarshal Fixtures.TestEnv codec body Fixtures.PersonType,
            Fixtures.codecV1).
Proof.
  apply (Unmarshal_of_Marshal Fixtures.TestEnv Fixtures.codecV1
           (VPtr Fixtures.PersonType (Some (Fixtures.Person "Nico" 36)))
           (Fixtures.personPayload "Nico" 36) Fixtures.PersonType 0).
  - by vm_compute.
  - by apply Marshal_Person.
Defined.

(** [codecV1] on a message of id 7, which nobody has registered. *)
Lemma Unmarshal_unknown_id_witness :
  Unmarshal Fixtures.TestEnv 1 Fixtures.codecV1 [0; 0; 0; 0; 7; 2] TMap
  = Some (Err (ErrWrap "error when getting codec for schema id"
                 (ErrOther "schema not found")),
          mkWorld (registry Fixtures.codecV1)
            (GetSchemaByID Fixtures.TestEnv (remote Fixtures.codecV1)
               (int32_of (BigEndian_Uint32 [0; 0; 0; 7]))).2
            (calls Fixtures.codecV1
               ++ [CallGetSchemaByID (int32_of (BigEndian_Uint32 [0; 0; 0; 7]))])).
Proof.
  apply (Unmarshal_unknown_id Fixtures.TestEnv Fixtures.codecV1 0 0 0 7 [2] TMap 0
           "schema not found"); reflexivity.
Defined.

(** The client after the registration of two schemas under ["test"] and
    of one under ["other"]. *)
Definition threeSchemas : NOOP.State :=
  (NOOP.RegisterNewSchemaFn
     (NOOP.RegisterNewSchemaFn
        (NOOP.RegisterNewSchemaFn NOOP.NewNOOPClient "test" Fixtures.schemaV1).2
        "test" Fixtures.schemaV2).2
     "other" Fixtures.schemaNull).2.

Lemma threeSchemas_reachable : rtc NOOPFacts.clientCall NOOP.NewNOOPClient threeSchemas.
Proof.
  eapply rtc_l; [apply NOOPFacts.client_RegisterNewSchema|].
  eapply rtc_l; [apply NOOPFacts.client_RegisterNewSchema|].
  apply rtc_once. apply NOOPFacts.client_RegisterNewSchema.
Defined.

Lemma GetSchemaByID_finds_witness :
  GetSchemaByID Fixtures.TestEnv threeSchemas 1 = (Ok Fixtures.schemaV2, threeSchemas).
Proof.
  apply (proj1 (NOOPFacts.GetSchemaByID_finds threeSchemas 1 threeSchemas_reachable)
           "test" 1%nat (mkSchema Fixtures.schemaV2 "test" 1 1)).
  - eexists. split; reflexivity.
  - reflexivity.
Defined.

Lemma RegisterNewSchema_then_found_witness :
  NOOP.GetSchemaByIDFn
    (NOOP.RegisterNewSchemaFn threeSchemas "test" Fixtures.schemaKafkarest).2 3
  = (Ok Fixtures.schemaKafkarest,
     (NOOP.RegisterNewSchemaFn threeSchemas "test" Fixtures.schemaKafkarest).2).
Proof.
  apply (NOOPFacts.RegisterNewSchema_then_found threeSchemas "test"
           Fixtures.schemaKafkarest threeSchemas_reachable).
Defined.

Lemma DeleteSubject_forgets_witness :
  NOOP.GetLatestSchemaFn (NOOP.DeleteSubjectFn threeSchemas "test").2 "test"
  = (Err "subject not found", (NOOP.DeleteSubjectFn threeSchemas "test").2).
Proof.
  apply (NOOPFacts.DeleteSubject_forgets threeSchemas "test" threeSchemas_reachable).
Defined.

Lemma RegisterNewSchema_ids_grow_witness :
  exists id id',
    (NOOP.RegisterNewSchemaFn NOOP.NewNOOPClient "test" Fixtures.schemaV1).1 = Ok id /\
    (NOOP.RegisterNewSchemaFn
       (NOOP.DeleteSubjectFn
          (NOOP.RegisterNewSchemaFn NOOP.NewNOOPClient "test" Fixtures.schemaV1).2
          "test").2 "test" Fixtures.schemaV1).1 = Ok id' /\
    id < id' /\
    (NOOP.RegisterNewSchemaFn NOOP.NewNOOPClient "test" Fixtures.schemaV1).1 = Ok 0.
Proof.
  apply (NOOPFacts.RegisterNewSchema_ids_grow NOOP.NewNOOPClient
           (NOOP.DeleteSubjectFn
              (NOOP.RegisterNewSchemaFn NOOP.NewNOOPClient "test" Fixtures.schemaV1).2
              "test").2 "test" Fixtures.schemaV1 "test" Fixtures.schemaV1).
  apply rtc_once. apply NOOPFacts.client_DeleteSubject.
Defined.

(** A registry from [NewNOOPCodecRegistry] over the binary codec of the
    tests, and the schema v1. *)
Lemma NewNOOPCodecRegistry_Marshal_witness :
  Marshal (registry (NewNOOPCodecRegistry (goavro_NewCodec Fixtures.TestEnv)
                       (json_namespace Fixtures.TestEnv)
                       (UnmarshalAvro Fixtures.TestEnv) "test"))
    (Fixtures.Person "Nico" 36)
  = Panic "invalid memory address or nil pointer dereference".
Proof.
  apply (NewNOOPCodecRegistry_Marshal (goavro_NewCodec Fixtures.TestEnv)
           (json_namespace Fixtures.TestEnv) (UnmarshalAvro Fixtures.TestEnv)
           "test" Fixtures.schemaV1 (goavro.codecOf Fixtures.PersonV1)
           (Fixtures.Person "Nico" 36)).
  reflexivity.
Defined.

Lemma Register_again_witness :
  SchemaID (registry (Register Fixtures.TestEnv
                        (Register Fixtures.TestEnv
                           (Fixtures.NewMockCodecRegistry NOOP.NewNOOPClient "test")
                           Fixtures.schemaV1).2 Fixtures.schemaV1).2)
  = SchemaID (registry (Register Fixtures.TestEnv
                          (Fixtures.NewMockCodecRegistry NOOP.NewNOOPClient "test")
                          Fixtures.schemaV1).2).
Proof.
  apply (Register_again (goavro_NewCodec Fixtures.TestEnv)
           (json_namespace Fixtures.TestEnv) (UnmarshalAvro Fixtures.TestEnv)
           (Fixtures.NewMockCodecRegistry NOOP.NewNOOPClient "test")
           Fixtures.schemaV1).
  reflexivity.
Defined.

(* ===================================================================== *)
(** ** The decoding hook and [CustomUnmarshaler] *)

(** [decodeUnionHook] for a destination that is not a pointer.  When the
    destination type has no [UnmarshalAvro], the data is returned
    unaltered.  When it has one, a Go [string] is handed to it and the
    hook returns a pointer to what the method has made, or the error of
    the method; data of any other type makes the hook panic. *)
Theorem decodeUnionHook_CustomUnmarshaler (E : Env) (c : Codec)
    (from to : GoType) (data : GoValue) :
  kindOfType to <> KPtr ->
  (HasUnmarshalAvro (declOfType to) = false ->
   decodeUnionHook E c from to data = Ok data) /\
  (HasUnmarshalAvro (declOfType to) = true ->
   (forall s,
      decodeUnionHook E c from to (VString (predeclared KString) s)
      = match UnmarshalAvro E (declOfType to) s with
        | Ok unmarshaler => Ok (VPtr to (Some unmarshaler))
        | Err msg => Err (ErrOther msg)
        | Panic m => Panic m
        end) /\
   ((forall s, data <> VString (predeclared KString) s) ->
    exists m, decodeUnionHook E c from to data = Panic m)).
Proof.
  intros Hk.
  assert (forall d : GoValue,
            decodeUnionHook E c from to d
            = match to with
              | TScalar _ decl | TStruct decl _ =>
                  if HasUnmarshalAvro decl
                  then
                    match d with
                    | VString sd paramVal =>
                        if bool_decide (sd = predeclared KString)
                        then
                          try unmarshaler <- lift (UnmarshalAvro E decl paramVal) in
                          Ok (VPtr to (Some unmarshaler))
                        else Panic "interface conversion: interface {} is not string"
                    | _ => Panic "interface conversion: interface {} is not string"
                    end
                  else Ok d
              | _ => Ok d
              end) as Hhook.
  { intros d. unfold decodeUnionHook.
    destruct to as [k decl|decl fs|e|e| |]; try done.
    destruct k; try done. }
  split.
  - intros Hno. rewrite Hhook.
    destruct to as [k d|d fs|e|e| |]; simpl in *; try done; by rewrite Hno.
  - intros Hyes. split.
    + intros s. rewrite Hhook.
      destruct to as [k d|d fs|e|e| |]; simpl in *; try done; rewrite Hyes;
        try rewrite bool_decide_eq_true_2 by done;
        by destruct (UnmarshalAvro E d s).
    + intros Hdata. rewrite Hhook.
      destruct to as [k d|d fs|e|e| |]; simpl in *; try done; rewrite Hyes;
        (destruct data as [| | |sd s| | | | |]; try (by eexists));
        (case_bool_decide as Hsd; [subst sd; by destruct (Hdata s)|by eexists]).
Qed.

(** A destination of [type Upper string] whose [UnmarshalAvro] fails. *)
Lemma decodeUnionHook_CustomUnmarshaler_witness :
  decodeUnionHook Fixtures.TestEnv
    (mkCodec (goavro.codecOf goavro.AString) "" DefaultTypeNameEncoder)
    (TScalar KString (predeclared KString))
    (TScalar KString (mkDecl "Upper" None true))
    (VString (predeclared KString) "abc")
  = match UnmarshalAvro Fixtures.TestEnv
            (declOfType (TScalar KString (mkDecl "Upper" None true))) "abc" with
    | Ok unmarshaler =>
        Ok (VPtr (TScalar KString (mkDecl "Upper" None true)) (Some unmarshaler))
    | Err msg => Err (ErrOther msg)
    | Panic m => Panic m
    end.
Proof.
  apply (decodeUnionHook_CustomUnmarshaler Fixtures.TestEnv
           (mkCodec (goavro.codecOf goavro.AString) "" DefaultTypeNameEncoder)
           (TScalar KString (predeclared KString))
           (TScalar KString (mkDecl "Upper" None true))
           (VString (predeclared KString) "abc")).
  - discriminate.
  - reflexivity.
Defined.

(* ===================================================================== *)
(** ** Round trip of nested records, optional fields and enums *)

(** The loops of the union encoder and decoder of the binary codec, on
    their own, and the first branch of a union that has a given name. *)
Fixpoint pickBranch (name : string) (v : GoValue) (bs : list goavro.AvroType)
    (i : Z) : cresult (list Z) :=
  match bs with
  | [] => Err "cannot encode binary union: no member schema"
  | b :: rest =>
      if bool_decide (goavro.typeName b = name)
      then try body <- goavro.encode b v in Ok (goavro.putLong i ++ body)
      else pickBranch name v rest (i + 1)
  end.

Fixpoint readBranch (bs : list goavro.AvroType) (i : nat) (buf : list Z)
    : cresult (GoValue * list Z) :=
  match bs, i with
  | [], _ => Err "cannot decode binary union: index out of range"
  | b :: _, O =>
      try v <- goavro.decode b buf in
      match b with
      | goavro.ANull => Ok (VNil, v.2)
      | _ => Ok (VMap {[ goavro.typeName b := v.1 ]}, v.2)
      end
  | _ :: rest, S i => readBranch rest i buf
  end.

Fixpoint firstBranch (name : string) (bs : list goavro.AvroType)
    : option (nat * goavro.AvroType) :=
  match bs with
  | [] => None
  | b :: rest =>
      if bool_decide (goavro.typeName b = name) then Some (O, b)
      else (fun p => (S p.1, p.2)) <$> firstBranch name rest
  end.

Section UnionFacts.
Import goavro.

Lemma encode_AUnion (bs : list AvroType) (name : string) (v : GoValue) :
  encode (AUnion bs) (VMap {[ name := v ]}) = pickBranch name v bs 0.
Proof.
  cbn [encode]. rewrite map_to_list_singleton.
  generalize 0.
  induction bs as [|b bs IH]; intros i; [done|].
  cbn [pickBranch]. by rewrite <- IH.
Qed.

Lemma encode_AUnion_nil (bs : list AvroType) :
  encode (AUnion bs) VNil = pickBranch "null" VNil bs 0.
Proof.
  cbn [encode]. generalize 0.
  induction bs as [|b bs IH]; intros i; [done|].
  cbn [pickBranch]. by rewrite <- IH.
Qed.

Lemma decode_AUnion (bs : list AvroType) (buf : list Z) :
  decode (AUnion bs) buf
  = try r <- getLong buf in
    if bool_decide (r.1 < 0) then Err "cannot decode binary union"
    else readBranch bs (Z.to_nat r.1) r.2.
Proof.
  cbn [decode]. destruct (getLong buf) as [r|e|m]; [|done|done].
  cbn [rbind]. destruct (bool_decide (r.1 < 0)); [done|].
  generalize (Z.to_nat r.1).
  induction bs as [|b bs IH]; intros i; [by destruct i|].
  destruct i as [|i]; [done|]. cbn [readBranch]. by rewrite <- IH.
Qed.

Lemma pickBranch_first (name : string) (v : GoValue) (bs : list AvroType)
    (i : nat) (b : AvroType) (k : Z) :
  firstBranch name bs = Some (i, b) ->
  pickBranch name v bs k
  = try body <- encode b v in Ok (putLong (k + Z.of_nat i) ++ body).
Proof.
  revert i k.
  induction bs as [|b0 bs IH]; intros i k; [done|].
  cbn [firstBranch pickBranch].
  case_bool_decide as Hname.
  - intros [= <- <-]. by rewrite Z.add_0_r.
  - destruct (firstBranch name bs) as [[i' b']|]; [|done].
    intros [= <- <-]. rewrite (IH i' (k + 1) eq_refl).
    by replace (k + 1 + Z.of_nat i') with (k + Z.of_nat (S i')) by lia.
Qed.

Lemma readBranch_first (name : string) (bs : list AvroType) (i : nat)
    (b : AvroType) (buf : list Z) :
  firstBranch name bs = Some (i, b) ->
  goavro.typeName b = name /\
  readBranch bs i buf
  = try v <- decode b buf in
    match b with
    | ANull => Ok (VNil, v.2)
    | _ => Ok (VMap {[ name := v.1 ]}, v.2)
    end.
Proof.
  revert i.
  induction bs as [|b0 bs IH]; intros i; [done|].
  cbn [firstBranch].
  case_bool_decide as Hname.
  - intros [= <- <-]. split; [done|]. cbn [readBranch]. by rewrite Hname.
  - destruct (firstBranch name bs) as [[i' b']|]; [|done].
    intros [= <- <-]. by apply IH.
Qed.

Lemma indexOf_lookup {A} (p : A -> bool) (l : list A) (i : nat) :
  indexOf p l = Some i -> exists x, l !! i = Some x /\ p x = true.
Proof.
  revert i. induction l as [|a l IH]; intros i; [done|].
  cbn [indexOf]. destruct (p a) eqn:Ha.
  - intros [= <-]. by exists a.
  - destruct (indexOf p l) as [j|]; [|done].
    intros [= <-]. by apply IH.
Qed.
End UnionFacts.

(** A field of a struct travels under the wire name [sn]: it is
    exported, and its tag is that name and nothing else. *)
Definition fieldNamed (gn tag sn : string) : Prop :=
  structs.isExported gn = true /\
  structs.parseTag tag = (sn, []) /\
  tag <> "-" /\ sn <> "".

(** The key that [encodeUnionHook] gives to the branch of a pointer to
    [x]. *)
Definition unionKey (c : Codec) (x : GoValue) : string :=
  if isAvroBaseType (avroVisibleName c x) then avroVisibleName c x
  else AddNamespace (Namespace c) (avroVisibleName c x).

(** [travels c x t native wire back]: the Go value [x] is carried by
    the Avro type [t]; [native] is what the encoding hook makes of it,
    [wire] are its bytes and [back] is what the binary codec reads from
    them.  A scalar is carried as in the section on flat records; a
    string of a declared type by an enum that has it as a symbol; a nil
    pointer by the null branch of a union; a pointer to a value by the
    first branch of a union that bears the name of the value, when that
    branch carries the value; a struct by a record whose fields carry its
    fields, in order and under distinct names. *)
Inductive travels (c : Codec)
  : GoValue -> goavro.AvroType -> GoValue -> list Z -> GoValue -> Prop :=
| travels_scalar x t :
    carried x t -> travels c x t (nativeOf x) (wireOf x) (readBack x t)
| travels_enum d s name symbols i :
    HasUnmarshalAvro d = false ->
    goavro.indexOf (fun x => bool_decide (x = s)) symbols = Some i ->
    Z.of_nat i < 2 ^ 63 ->
    travels c (VString d s) (goavro.AEnum name symbols)
      (VString (predeclared KString) s) (goavro.putLong (Z.of_nat i))
      (VString (predeclared KString) s)
| travels_nil e bs i :
    firstBranch "null" bs = Some (i, goavro.ANull) ->
    Z.of_nat i < 2 ^ 63 ->
    travels c (VPtr e None) (goavro.AUnion bs) (VMap {[ "null" := VNil ]})
      (goavro.putLong (Z.of_nat i)) VNil
| travels_pointer e x bs i b n w r :
    typeOf x = Some e -> kindOf x <> KPtr ->
    firstBranch (unionKey c x) bs = Some (i, b) ->
    b <> goavro.ANull ->
    Z.of_nat i < 2 ^ 63 ->
    travels c x b n w r ->
    travels c (VPtr e (Some x)) (goavro.AUnion bs)
      (VMap {[ unionKey c x := n ]}) (goavro.putLong (Z.of_nat i) ++ w)
      (VMap {[ unionKey c x := r ]})
| travels_record d fs name sfs ns ws rs :
    HasUnmarshalAvro d = false ->
    travelFields c fs sfs ns ws rs ->
    travels c (VStruct d fs) (goavro.ARecord name sfs) (VMap ns) ws (VMap rs)
with travelFields (c : Codec)
  : list (string * string * GoValue) ->
    list (string * goavro.AvroType * option GoValue) ->
    gmap string GoValue -> list Z -> gmap string GoValue -> Prop :=
| travelFields_nil : travelFields c [] [] ∅ [] ∅
| travelFields_cons gn tag x sn st dflt fs sfs n w r ns ws rs :
    fieldNamed gn tag sn ->
    sn ∉ sfs.*1.*1 ->
    travels c x st n w r ->
    travelFields c fs sfs ns ws rs ->
    travelFields c ((gn, tag, x) :: fs) ((sn, st, dflt) :: sfs)
      (<[sn := n]> ns) (w ++ ws) (<[sn := r]> rs).

Scheme travels_mut := Minimality for travels Sort Prop
  with travelFields_mut := Minimality for travelFields Sort Prop.

Combined Scheme travels_travelFields_ind from travels_mut, travelFields_mut.

Section Travels.
Context (E : Env) (c : Codec).
Import goavro.

(** What the parts of the two directions do on a value that travels. *)
Definition goes (x : GoValue) (t : AvroType) (n : GoValue) (w : list Z)
    (r : GoValue) : Prop :=
  reflect_Interface x = x /\ reflect_Interface r = r /\
  encodeUnionHook c (kindOf x) x = Ok n /\
  encode t n = Ok w /\
  (forall rest, decode t (w ++ rest) = Ok (r, rest)) /\
  exists ty, typeOf x = Some ty /\
    mapstructure.decode (decodeUnionHook E c) ty r = Ok x.

Definition fieldsGo (fs : list (string * string * GoValue))
    (sfs : list (string * AvroType * option GoValue))
    (ns : gmap string GoValue) (ws : list Z) (rs : gmap string GoValue) : Prop :=
  (forall name, name ∉ sfs.*1.*1 -> ns !! name = None /\ rs !! name = None) /\
  (forall out, structs.FillMap (fun k v => encodeUnionHook c k v) fs out
               = Ok (ns ∪ out)) /\
  (forall m, ns ⊆ m -> encodeFields m sfs = Ok ws) /\
  (forall rest, decodeFields sfs (ws ++ rest) = Ok (rs, rest)) /\
  (forall m, rs ⊆ m ->
     decodeStructFields (decodeUnionHook E c) m (fieldTypes fs) = Ok (fs, false)).

Lemma goes_scalar (x : GoValue) (t : AvroType) :
  carried x t -> goes x t (nativeOf x) (wireOf x) (readBack x t).
Proof.
  intros Hc.
  assert (reflect_Interface x = x) as Hx by (by destruct Hc).
  assert (reflect_Interface (readBack x t) = readBack x t) as Hr by (by destruct Hc).
  split; [done|]. split; [done|].
  split; [rewrite <- Hx at 2; by eapply carried_hook|].
  split; [by apply carried_encode|].
  split; [intros rest; by apply carried_decode|].
  destruct (carried_scalar E c x t Hc) as (k & d & Hty & Hdec).
  by exists (TScalar k d).
Qed.

Lemma goes_enum (d : TypeDecl) (s name : string) (symbols : list string) (i : nat) :
  HasUnmarshalAvro d = false ->
  indexOf (fun x => bool_decide (x = s)) symbols = Some i ->
  Z.of_nat i < 2 ^ 63 ->
  goes (VString d s) (AEnum name symbols) (VString (predeclared KString) s)
    (putLong (Z.of_nat i)) (VString (predeclared KString) s).
Proof.
  intros Hd Hi Hrange.
  split; [done|]. split; [done|]. split; [done|].
  split; [cbn [encode]; by rewrite Hi|].
  split.
  - intros rest. cbn [decode].
    rewrite getLong_putLong by (unfold isInt64; lia).
    cbn [rbind fst snd]. rewrite bool_decide_eq_false_2 by lia.
    rewrite Nat2Z.id.
    destruct (indexOf_lookup _ _ _ Hi) as (x & -> & Hx).
    by apply bool_decide_eq_true_1 in Hx as ->.
  - exists (TScalar KString d). split; [done|].
    cbn [mapstructure.decode mapstructure.isNilInput].
    unfold mapstructure.runHook, decodeUnionHook. cbn [kindOfType]. by rewrite Hd.
Qed.

Lemma goes_nil (e : GoType) (bs : list AvroType) (i : nat) :
  firstBranch "null" bs = Some (i, ANull) ->
  Z.of_nat i < 2 ^ 63 ->
  goes (VPtr e None) (AUnion bs) (VMap {[ "null" := VNil ]})
    (putLong (Z.of_nat i)) VNil.
Proof.
  intros Hb Hrange.
  split; [done|]. split; [done|]. split; [done|].
  split.
  { rewrite encode_AUnion, (pickBranch_first _ _ _ _ _ _ Hb).
    cbn [encode rbind]. by rewrite app_nil_r. }
  split.
  - intros rest. rewrite decode_AUnion.
    rewrite getLong_putLong by (unfold isInt64; lia).
    cbn [rbind fst snd]. rewrite bool_decide_eq_false_2 by lia.
    rewrite Nat2Z.id.
    by rewrite (proj2 (readBranch_first _ _ _ _ rest Hb)).
  - by exists (TPtr e).
Qed.

Lemma goes_pointer (e : GoType) (x : GoValue) (bs : list AvroType) (i : nat)
    (b : AvroType) (n : GoValue) (w : list Z) (r : GoValue) :
  typeOf x = Some e -> kindOf x <> KPtr ->
  firstBranch (unionKey c x) bs = Some (i, b) ->
  b <> ANull ->
  Z.of_nat i < 2 ^ 63 ->
  goes x b n w r ->
  goes (VPtr e (Some x)) (AUnion bs) (VMap {[ unionKey c x := n ]})
    (putLong (Z.of_nat i) ++ w) (VMap {[ unionKey c x := r ]}).
Proof.
  intros Hty Hk Hb Hnull Hrange (Hx & Hr & Hhook & Henc & Hdec & ty & Hty' & Hback).
  rewrite Hty in Hty'. injection Hty' as <-.
  split; [done|]. split; [done|].
  split.
  { cbn [encodeUnionHook kindOf]. rewrite Hx, Hhook. cbn [rbind].
    rewrite (encodeUnionHook_nil_slot c x n) by (by rewrite Hx).
    done. }
  split.
  { rewrite encode_AUnion, (pickBranch_first _ _ _ _ _ _ Hb), Henc. done. }
  split.
  - intros rest. rewrite decode_AUnion, <- app_assoc.
    rewrite getLong_putLong by (unfold isInt64; lia).
    cbn [rbind fst snd]. rewrite bool_decide_eq_false_2 by lia.
    rewrite Nat2Z.id.
    rewrite (proj2 (readBranch_first _ _ _ _ (w ++ rest) Hb)), Hdec.
    cbn [rbind fst snd]. by destruct b.
  - exists (TPtr e). split; [done|].
    cbn [mapstructure.decode mapstructure.isNilInput].
    unfold mapstructure.runHook at 1. cbn [typeOf default].
    unfold decodeUnionHook at 1. cbn [kindOfType].
    rewrite map_size_singleton, bool_decide_eq_true_2 by done.
    rewrite map_to_list_singleton. cbn [rbind].
    by rewrite Hback.
Qed.

Lemma goes_record (d : TypeDecl) (fs : list (string * string * GoValue))
    (name : string) (sfs : list (string * AvroType * option GoValue))
    (ns : gmap string GoValue) (ws : list Z) (rs : gmap string GoValue) :
  HasUnmarshalAvro d = false ->
  fieldsGo fs sfs ns ws rs ->
  goes (VStruct d fs) (ARecord name sfs) (VMap ns) ws (VMap rs).
Proof.
  intros Hd (_ & Hfill & Henc & Hdec & Hback).
  split; [done|]. split; [done|].
  split.
  { cbn [encodeUnionHook kindOf]. rewrite Hfill. cbn [rbind].
    by rewrite (right_id_L ∅ (∪)). }
  split; [rewrite encode_ARecord; by apply Henc|].
  split; [intros rest; by rewrite decode_ARecord, Hdec|].
  exists (TStruct d (fieldTypes fs)). split; [apply typeOf_VStruct|].
  rewrite decode_TStruct.
  unfold mapstructure.runHook at 1. cbn [decodeUnionHook kindOfType]. rewrite Hd.
  cbn [rbind mapstructure.indirect].
  by rewrite Hback.
Qed.

Lemma fieldsGo_nil : fieldsGo [] [] ∅ [] ∅.
Proof.
  split; [done|]. split.
  { intros out. cbn [structs.FillMap]. by rewrite (left_id_L ∅ (∪)). }
  done.
Qed.

Lemma fieldsGo_cons (gn tag : string) (x : GoValue) (sn : string) (st : AvroType)
    (dflt : option GoValue) fs sfs (n : GoValue) (w : list Z) (r : GoValue)
    (ns : gmap string GoValue) (ws : list Z) (rs : gmap string GoValue) :
  fieldNamed gn tag sn ->
  sn ∉ sfs.*1.*1 ->
  goes x st n w r ->
  fieldsGo fs sfs ns ws rs ->
  fieldsGo ((gn, tag, x) :: fs) ((sn, st, dflt) :: sfs)
    (<[sn := n]> ns) (w ++ ws) (<[sn := r]> rs).
Proof.
  intros (Hexp & Htag & Hdash & Hname) Hfresh
    (Hx & Hr & Hhook & Henc & Hdec & ty & Hty & Hback)
    (Hdom & Hfill & Hencs & Hdecs & Hbacks).
  destruct (Hdom sn Hfresh) as [Hns Hrs].
  split; [|split; [|split; [|split]]].
  - intros name0 Hname0. rewrite !fmap_cons in Hname0.
    apply not_elem_of_cons in Hname0 as [Hne Hname0]. cbn [fst] in Hne.
    destruct (Hdom name0 Hname0).
    by rewrite !lookup_insert_ne.
  - intros out. cbn [structs.FillMap]. rewrite Htag, Hexp.
    rewrite (bool_decide_eq_false_2 (tag = "-")) by done.
    cbn [negb orb]. rewrite bool_decide_eq_false_2 by apply not_elem_of_nil.
    cbn [andb]. rewrite Hx, Hhook. cbn [rbind].
    rewrite (bool_decide_eq_false_2 (sn = "")) by done.
    rewrite Hfill. f_equal.
    rewrite <- insert_union_r by done. by rewrite insert_union_l.
  - intros m Hm. cbn [encodeFields].
    rewrite (lookup_weaken _ _ _ _ (lookup_insert_eq ns sn n) Hm), Henc.
    cbn [rbind]. rewrite Hencs; [done|].
    etrans; [|exact Hm]. by apply insert_subseteq.
  - intros rest. rewrite <- app_assoc. cbn [decodeFields].
    rewrite Hdec. cbn [rbind fst snd]. by rewrite Hdecs.
  - intros m Hm.
    unfold fieldTypes. rewrite fmap_cons. fold (fieldTypes fs).
    cbn [fst snd]. rewrite Hty. cbn [default decodeStructFields].
    rewrite Htag. cbn [fst]. rewrite (bool_decide_eq_false_2 (sn = "")) by done.
    unfold mapstructure.lookupField.
    rewrite (lookup_weaken _ _ _ _ (lookup_insert_eq rs sn r) Hm), Hexp, Hr.
    unfold id. rewrite Hback. cbn [mapstructure.collect].
    rewrite Hbacks; [done|].
    etrans; [|exact Hm]. by apply insert_subseteq.
Qed.

Lemma travels_goes :
  (forall x t n w r, travels c x t n w r -> goes x t n w r) /\
  (forall fs sfs ns ws rs, travelFields c fs sfs ns ws rs -> fieldsGo fs sfs ns ws rs).
Proof.
  apply travels_travelFields_ind.
  - apply goes_scalar.
  - apply goes_enum.
  - apply goes_nil.
  - intros e x bs i b n w r ? ? ? ? ? _ ?. by apply (goes_pointer e x bs i b).
  - intros d fs name sfs ns ws rs ? _ ?. by apply goes_record.
  - apply fieldsGo_nil.
  - intros gn tag x sn st dflt fs sfs n w r ns ws rs ? ? _ ? _ ?.
    by apply fieldsGo_cons.
Qed.
End Travels.

Lemma Codec_travels (E : Env) (c : Codec) (x : GoValue) (t : goavro.AvroType)
    (n : GoValue) (w : list Z) (r : GoValue) :
  goavro_Codec c = goavro.codecOf t ->
  travels c x t n w r ->
  kindOf x <> KPtr ->
  exists ty,
    typeOf x = Some ty /\
    Codec_Marshal c x = Ok w /\
    Codec_Marshal c (VPtr ty (Some x)) = Ok w /\
    Codec_Unmarshal E c w ty = Ok x.
Proof.
  intros Hc Ht Hk.
  destruct (proj1 (travels_goes E c) _ _ _ _ _ Ht)
    as (Hx & Hr & Hhook & Henc & Hdec & ty & Hty & Hback).
  exists ty. split; [done|].
  assert (Codec_Marshal c (VPtr ty (Some x)) = Ok w) as Hptr.
  { unfold Codec_Marshal, marshal. cbn [rbind fst snd]. rewrite Hx, Hhook.
    cbn [rbind]. rewrite Hc. cbn [goavro.codecOf BinaryFromNative].
    by rewrite Henc. }
  split; [|split; [done|]].
  - rewrite <- Hptr. unfold Codec_Marshal, marshal.
    destruct x as [| | | | | | | |v]; try done.
    apply (f_equal vsize) in Hx. cbn [reflect_Interface vsize] in Hx. lia.
  - unfold Codec_Unmarshal, unmarshal. rewrite Hc.
    cbn [goavro.codecOf NativeFromBinary].
    rewrite <- (app_nil_r w), Hdec. cbn [rbind lift fst snd].
    exact Hback.
Qed.

(** [Codec.Marshal] and [Codec.Unmarshal] are inverse on the values that
    travel: a value [x] that the schema of the codec carries, with
    nested records, optional (pointer) fields and enums, is encoded by
    [Codec.Marshal], given as itself or through a pointer, and
    [Codec.Unmarshal] decodes the bytes into the type of [x] as [x]
    again. *)
Theorem Codec_roundtrip_nested (E : Env) (namespace : string)
    (encoder : string -> string) (x : GoValue) (t : goavro.AvroType)
    (n : GoValue) (w : list Z) (r : GoValue) :
  travels (mkCodec (goavro.codecOf t) namespace encoder) x t n w r ->
  kindOf x <> KPtr ->
  exists ty,
    typeOf x = Some ty /\
    Codec_Marshal (mkCodec (goavro.codecOf t) namespace encoder) x = Ok w /\
    Codec_Marshal (mkCodec (goavro.codecOf t) namespace encoder)
      (VPtr ty (Some x)) = Ok w /\
    Codec_Unmarshal E (mkCodec (goavro.codecOf t) namespace encoder) w ty = Ok x.
Proof.
  intros Ht Hk. by eapply Codec_travels.
Qed.

(** The same through a codec registry: [Marshal] frames the bytes of
    the current codec with the header of the current id, and [Unmarshal]
    of the same registry gives the value back in one round, without a
    call to the schema registry. *)
Theorem CodecRegistry_roundtrip (E : Env) (w : World E) (namespace : string)
    (encoder : string -> string) (x : GoValue) (t : goavro.AvroType)
    (n : GoValue) (wire : list Z) (r : GoValue) (fuel : nat) :
  isInt32 (SchemaID (registry w)) ->
  SchemaID (registry w) <> UnknownID ->
  codecByID (registry w) !! SchemaID (registry w)
  = Some (mkCodec (goavro.codecOf t) namespace encoder) ->
  travels (mkCodec (goavro.codecOf t) namespace encoder) x t n wire r ->
  kindOf x <> KPtr ->
  exists ty,
    typeOf x = Some ty /\
    Marshal (registry w) x
    = Ok (binary_Write_Header (mkHeader MagicByte (SchemaID (registry w))) ++ wire) /\
    Unmarshal E (S fuel) w
      (binary_Write_Header (mkHeader MagicByte (SchemaID (registry w))) ++ wire) ty
    = Some (Ok x, w).
Proof.
  intros Hrange Hknown Hcodec Ht Hk.
  destruct (Codec_travels E (mkCodec (goavro.codecOf t) namespace encoder)
              x t n wire r eq_refl Ht Hk)
    as (ty & Hty & Hm & _ & Hu).
  exists ty. split; [done|]. split.
  - unfold Marshal. rewrite bool_decide_eq_false_2 by done.
    by rewrite Hcodec, Hm.
  - rewrite (Unmarshal_current E w _ wire ty fuel Hrange Hcodec). by rewrite Hu.
Qed.

(** [UnionAndEnumEvent{MyOptionalEnum: &MyEnum("value1"), LongID: 64,
    StringID: "user"}] of [TestCodec_Marshal_union_and_enum], under the
    schema of that test. *)
Lemma Codec_roundtrip_nested_witness :
  exists w ty,
    typeOf (VStruct (mkDecl "UnionAndEnumEvent" None false)
              [ ("MyOptionalEnum", "my_optional_enum",
                 VPtr (TScalar KString (mkDecl "MyEnum" None false))
                   (Some (VString (mkDecl "MyEnum" None false) "value1")));
                ("LongID", "long_id", Fixtures.intValue 64);
                ("StringID", "string_id", Fixtures.stringValue "user") ])
    = Some ty /\
    Codec_Marshal
      (mkCodec
         (goavro.codecOf
            (goavro.ARecord "parent"
               [ ("my_optional_enum",
                  goavro.AUnion [goavro.ANull;
                                 goavro.AEnum "my_enum" ["value1"; "value2"]], None);
                 ("long_id", goavro.ALong, None);
                 ("string_id", goavro.AString, None) ]))
         "" DefaultTypeNameEncoder)
      (VStruct (mkDecl "UnionAndEnumEvent" None false)
         [ ("MyOptionalEnum", "my_optional_enum",
            VPtr (TScalar KString (mkDecl "MyEnum" None false))
              (Some (VString (mkDecl "MyEnum" None false) "value1")));
           ("LongID", "long_id", Fixtures.intValue 64);
           ("StringID", "string_id", Fixtures.stringValue "user") ])
    = Ok w /\
    Codec_Marshal
      (mkCodec
         (goavro.codecOf
            (goavro.ARecord "parent"
               [ ("my_optional_enum",
                  goavro.AUnion [goavro.ANull;
                                 goavro.AEnum "my_enum" ["value1"; "value2"]], None);
                 ("long_id", goavro.ALong, None);
                 ("string_id", goavro.AString, None) ]))
         "" DefaultTypeNameEncoder)
      (VPtr ty
         (Some (VStruct (mkDecl "UnionAndEnumEvent" None false)
                  [ ("MyOptionalEnum", "my_optional_enum",
                     VPtr (TScalar KString (mkDecl "MyEnum" None false))
                       (Some (VString (mkDecl "MyEnum" None false) "value1")));
                    ("LongID", "long_id", Fixtures.intValue 64);
                    ("StringID", "string_id", Fixtures.stringValue "user") ])))
    = Ok w /\
    Codec_Unmarshal Fixtures.TestEnv
      (mkCodec
         (goavro.codecOf
            (goavro.ARecord "parent"
               [ ("my_optional_enum",
                  goavro.AUnion [goavro.ANull;
                                 goavro.AEnum "my_enum" ["value1"; "value2"]], None);
                 ("long_id", goavro.ALong, None);
                 ("string_id", goavro.AString, None) ]))
         "" DefaultTypeNameEncoder)
      w ty
    = Ok (VStruct (mkDecl "UnionAndEnumEvent" None false)
            [ ("MyOptionalEnum", "my_optional_enum",
               VPtr (TScalar KString (mkDecl "MyEnum" None false))
                 (Some (VString (mkDecl "MyEnum" None false) "value1")));
              ("LongID", "long_id", Fixtures.intValue 64);
              ("StringID", "string_id", Fixtures.stringValue "user") ]).
Proof.
  eexists.
  eapply (Codec_roundtrip_nested Fixtures.TestEnv "" DefaultTypeNameEncoder).
  - apply travels_record; [done|].
    apply travelFields_cons; [done|by_decide| |].
    { apply (travels_pointer _ _ _ _ 1%nat
               (goavro.AEnum "my_enum" ["value1"; "value2"])); try done.
      by apply (travels_enum _ _ _ _ _ 0%nat). }
    apply travelFields_cons; [done|by_decide| |].
    { apply travels_scalar. apply carried_long; [by_decide|done|].
      unfold fitsKind. simpl. lia. }
    apply travelFields_cons; [done|by_decide| |].
    { apply travels_scalar. apply carried_string; [done|]. simpl. lia. }
    apply travelFields_nil.
  - done.
Defined.

(** The registry [codecV1] of the tests and [Person{"Nico", 36}]. *)
Lemma CodecRegistry_roundtrip_witness :
  exists ty,
    typeOf (Fixtures.Person "Nico" 36) = Some ty /\
    Marshal (registry Fixtures.codecV1) (Fixtures.Person "Nico" 36)
    = Ok (binary_Write_Header
            (mkHeader MagicByte (SchemaID (registry Fixtures.codecV1)))
          ++ (wireOf (Fixtures.stringValue "Nico")
              ++ wireOf (Fixtures.int32Value 36) ++ [])) /\
    Unmarshal Fixtures.TestEnv 1 Fixtures.codecV1
      (binary_Write_Header
         (mkHeader MagicByte (SchemaID (registry Fixtures.codecV1)))
       ++ (wireOf (Fixtures.stringValue "Nico")
           ++ wireOf (Fixtures.int32Value 36) ++ [])) ty
    = Some (Ok (Fixtures.Person "Nico" 36), Fixtures.codecV1).
Proof.
  eapply (CodecRegistry_roundtrip Fixtures.TestEnv Fixtures.codecV1 ""
            DefaultTypeNameEncoder (Fixtures.Person "Nico" 36) Fixtures.PersonV1).
  - by vm_compute.
  - by vm_compute.
  - reflexivity.
  - apply travels_record; [done|].
    apply travelFields_cons; [done|by_decide| |].
    { apply travels_scalar. apply carried_string; [done|]. simpl. lia. }
    apply travelFields_cons; [done|by_decide| |].
    { apply travels_scalar. apply carried_int; [by_decide|done|].
      unfold isInt32. lia. }
    apply travelFields_nil.
  - done.
Defined.

(* ===================================================================== *)
(** ** The calls of [Unmarshal] to the schema registry *)

Section UnmarshalCalls.
Context (E : Env).


End UnmarshalCalls.


(* ===================================================================== *)
(** ** The encoding hook of the older [avro.go] *)

Module Legacy.
(** The encoding side of the older version of [avro.go] that the
    repository also holds: [isBaseType], [convertToBaseType],
    [encodeUnionHook] and [marshal].  The other functions it calls are
    the same in both versions. *)

(** "Copy from reflect/type.go". *)
Definition kindNames : list string :=
  [ "invalid"; "bool"; "int"; "int8"; "int16"; "int32"; "int64";
    "uint"; "uint8"; "uint16"; "uint32"; "uint64"; "uintptr";
    "float32"; "float64"; "complex64"; "complex128";
    "array"; "chan"; "func"; "interface"; "map"; "ptr"; "slice";
    "string"; "struct"; "unsafe.Pointer" ].

Definition isBaseType (typeName : string) : bool :=
  bool_decide (typeName ∈ kindNames).

(** [convertToBaseType]: the switch names the simple kinds; a value of
    any other kind is converted to its own type. *)
Definition convertToBaseType (value : GoValue) : result GoValue :=
  match value with
  | VNil => Panic "reflect: call of reflect.Value.Type on zero Value"
  | VInt k _ n =>
      if isSimpleKind k then Ok (VInt k (predeclared k) n) else Ok value
  | VString _ s => Ok (VString (predeclared KString) s)
  | _ => Ok value
  end.

Section Hook.
(** The name of the package that declares the types of the values. *)
Variable pkg : string.

(** [Type.String]: the name of a predeclared type, the qualified name of
    a declared type, and the literal of a composite type; the fields of
    an unnamed struct type are left out of its literal. *)
Fixpoint Type_String (t : GoType) : string :=
  match t with
  | TScalar k d =>
      if bool_decide (d = predeclared k) then kindName k
      else pkg +:+ "." +:+ Name d
  | TStruct d _ =>
      if bool_decide (Name d = "") then "struct {...}"
      else pkg +:+ "." +:+ Name d
  | TPtr e => "*" +:+ Type_String e
  | TSlice e => "[]" +:+ Type_String e
  | TMap => "map[string]interface {}"
  | TInterface => "interface {}"
  end.

Definition valueTypeName (data : GoValue) : string :=
  match typeOf data with
  | Some t => Type_String t
  | None => "invalid"
  end.

Fixpoint encodeUnionHook (c : Codec) (k : Kind) (data : GoValue) {struct data}
    : result GoValue :=
  let plain :=
    if negb (isBaseType (valueTypeName data))
    then try value <- convertToBaseType data in Ok (reflect_Interface value)
    else Ok data in
  match k, data with
  | KPtr, VPtr _ None => Ok (VMap {[ "null" := VNil ]})
  | KPtr, VPtr _ (Some pointed) =>
      try typeName <- getTypeName c pointed in
      match pointed with
      | VStruct _ fs =>
          try m <- structs.FillMap (fun k v => encodeUnionHook c k v) fs ∅ in
          Ok (VMap {[ addNamespace c typeName := VMap m ]})
      | _ =>
          if isAvroBaseType typeName
          then Ok (VMap {[ typeName := reflect_Interface pointed ]})
          else
            try converted <- convertToBaseType pointed in
            Ok (VMap {[ addNamespace c typeName := reflect_Interface converted ]})
      end
  | KPtr, VNil => plain
  | KPtr, _ => Panic "reflect: call of reflect.Value.Elem on non-pointer Value"
  | KStruct, VStruct _ fs =>
      try m <- structs.FillMap (fun k v => encodeUnionHook c k v) fs ∅ in
      Ok (VMap m)
  | KStruct, _ => Panic "not struct"
  | _, VSlice _ (VStruct d0 fs0 :: l) =>
      try ret <- mapM (fun elem =>
                    match elem with
                    | VStruct _ fs =>
                        try m <- structs.FillMap
                                   (fun k v => encodeUnionHook c k v) fs ∅ in
                        Ok (VIface (VMap m))
                    | _ => Panic "not struct"
                    end) (VStruct d0 fs0 :: l) in
      Ok (VSlice TInterface ret)
  | _, _ => plain
  end.

(** [marshal]: [structs.IsStruct] is true of a struct and of a pointer
    to a struct; any other value goes to the binary codec as it is. *)
Definition marshal (c : Codec) (codec : GoavroCodec) (st : GoValue)
    : result (list Z) :=
  match st with
  | VStruct _ fs | VPtr _ (Some (VStruct _ fs)) =>
      try m <- structs.FillMap (fun k v => encodeUnionHook c k v) fs ∅ in
      lift (BinaryFromNative codec (VMap m))
  | _ => lift (BinaryFromNative codec st)
  end.
End Hook.
End Legacy.

Section LegacyFacts.
Context (pkg : string) (c : Codec).

(** The values of kind bool, integer or string. *)
Definition isScalar (v : GoValue) : bool :=
  match v with
  | VBool _ _ | VString _ _ => true
  | VInt k _ _ => mapstructure.isIntKind k || mapstructure.isUintKind k
  | _ => false
  end.

Lemma Legacy_pointer_struct (elem : GoType) (d : TypeDecl)
    (fs : list (string * string * GoValue)) :
  Legacy.encodeUnionHook pkg c KPtr (VPtr elem (Some (VStruct d fs)))
  = try m <- structs.FillMap (fun k v => Legacy.encodeUnionHook pkg c k v) fs ∅ in
    Ok (VMap {[ AddNamespace (Namespace c) (avroVisibleName c (VStruct d fs))
                := VMap m ]}).
Proof.
  cbn [Legacy.encodeUnionHook].
  unfold getTypeName, avroVisibleName. cbn [reflect_Interface declOf].
  by destruct (AvroName d).
Qed.

Lemma Legacy_pointer_scalar (elem : GoType) (pointed : GoValue) :
  isScalar pointed = true ->
  Legacy.encodeUnionHook pkg c KPtr (VPtr elem (Some pointed))
  = if isAvroBaseType (avroVisibleName c pointed)
    then Ok (VMap {[ avroVisibleName c pointed := pointed ]})
    else
      try converted <- Legacy.convertToBaseType pointed in
      Ok (VMap {[ AddNamespace (Namespace c) (avroVisibleName c pointed)
                  := converted ]}).
Proof.
  intros Hs.
  destruct pointed as [|d b|k d n|d s| | | | |]; try done;
    cbn [Legacy.encodeUnionHook];
    unfold getTypeName, avroVisibleName; cbn [reflect_Interface declOf];
    destruct (AvroName d); cbn [rbind];
    (destruct (isAvroBaseType _); [done|]);
    cbn [Legacy.convertToBaseType]; try done;
    by destruct (isSimpleKind k).
Qed.

(** The older [encodeUnionHook] on a pointer.  The nil pointer becomes
    [{"null": nil}].  A pointer to a struct becomes the one-key map from
    the name of the struct, always with the namespace in front, to the
    map of the struct.  A pointer to a bool, an integer or a string
    becomes the one-key map from its name to the value as it is when the
    name is an Avro primitive, and from the name with the namespace in
    front to the value converted to its base type otherwise. *)
Theorem Legacy_encodeUnionHook_pointer (elem : GoType) :
  Legacy.encodeUnionHook pkg c KPtr (VPtr elem None)
  = Ok (VMap {[ "null" := VNil ]}) /\
  (forall d fs m,
     structs.FillMap (fun k v => Legacy.encodeUnionHook pkg c k v) fs ∅ = Ok m ->
     Legacy.encodeUnionHook pkg c KPtr (VPtr elem (Some (VStruct d fs)))
     = Ok (VMap {[ AddNamespace (Namespace c) (avroVisibleName c (VStruct d fs))
                   := VMap m ]})) /\
  (forall pointed,
     isScalar pointed = true ->
     Legacy.encodeUnionHook pkg c KPtr (VPtr elem (Some pointed))
     = if isAvroBaseType (avroVisibleName c pointed)
       then Ok (VMap {[ avroVisibleName c pointed := pointed ]})
       else
         try converted <- Legacy.convertToBaseType pointed in
         Ok (VMap {[ AddNamespace (Namespace c) (avroVisibleName c pointed)
                     := converted ]})).
Proof.
  split; [done|]. split.
  - intros d fs m Hm. by rewrite Legacy_pointer_struct, Hm.
  - apply Legacy_pointer_scalar.
Qed.

Lemma FillMap_ext (hook1 hook2 : Kind -> GoValue -> result GoValue)
    (fs : list (string * string * GoValue)) :
  (forall f, f ∈ fs ->
     hook1 (kindOf f.2) (reflect_Interface f.2)
     = hook2 (kindOf f.2) (reflect_Interface f.2)) ->
  forall out, structs.FillMap hook1 fs out = structs.FillMap hook2 fs out.
Proof.
  induction fs as [|[[n t] x] fs IH]; intros Hhook out; [done|].
  assert (forall out, structs.FillMap hook1 fs out = structs.FillMap hook2 fs out)
    as IH'.
  { apply IH. intros f Hf. apply Hhook. by right. }
  cbn [structs.FillMap].
  destruct (structs.parseTag t) as [tagName tagOpts].
  destruct (_ || _); [apply IH'|].
  destruct (_ && _); [apply IH'|].
  pose proof (Hhook (n, t, x) ltac:(by left)) as Hx. cbn [snd] in Hx. rewrite Hx.
  destruct (hook2 (kindOf x) (reflect_Interface x)); cbn [rbind]; [apply IH'|done|done].
Qed.

(** The values on which the two versions of the hook do the same: the
    bools, integers and strings of a predeclared type or of a type whose
    qualified name is no kind name, the maps, the structs of such
    fields, the nil pointers, and the pointers to such a struct or scalar
    whose name is no Avro primitive (or, for a scalar, whose type is
    predeclared). *)
Fixpoint agrees (v : GoValue) : bool :=
  match v with
  | VBool _ _ | VInt _ _ _ | VString _ _ =>
      isScalar v &&
      (negb (Legacy.isBaseType (Legacy.valueTypeName pkg v))
       || bool_decide (declOf v = predeclared (kindOf v)))
  | VMap _ => true
  | VStruct _ fs =>
      (fix all (l : list (string * string * GoValue)) : bool :=
         match l with
         | [] => true
         | (_, _, x) :: r => agrees x && all r
         end) fs
  | VPtr _ None => true
  | VPtr _ (Some p) =>
      match p with
      | VStruct _ _ => negb (isAvroBaseType (avroVisibleName c p)) && agrees p
      | VBool _ _ | VInt _ _ _ | VString _ _ =>
          isScalar p &&
          (negb (isAvroBaseType (avroVisibleName c p))
           || bool_decide (declOf p = predeclared (kindOf p)))
      | _ => false
      end
  | _ => false
  end.

Lemma agrees_fields (d : TypeDecl) (fs : list (string * string * GoValue)) :
  agrees (VStruct d fs) = true -> forall f, f ∈ fs -> agrees f.2 = true.
Proof.
  cbn [agrees]. induction fs as [|[[n t] x] fs IH]; intros Hall f Hf.
  - by apply elem_of_nil in Hf.
  - apply andb_prop in Hall as [Hx Hall].
    apply elem_of_cons in Hf as [->|Hf]; [done|]. by apply IH.
Qed.

Lemma agrees_Interface (v : GoValue) : agrees v = true -> reflect_Interface v = v.
Proof. by destruct v. Qed.

Lemma scalar_converted (v : GoValue) :
  isScalar v = true ->
  Legacy.convertToBaseType v = convertToBaseType v /\
  (declOf v = predeclared (kindOf v) -> convertToBaseType v = Ok v).
Proof.
  destruct v as [|d b|k d n|d s| | | | |]; try done; cbn.
  - intros _. split; [done|]. intros ->. by destruct (isSimpleKind k).
  - intros _. split; [done|]. by intros ->.
Qed.

Lemma agrees_hook (v : GoValue) :
  agrees v = true ->
  Legacy.encodeUnionHook pkg c (kindOf v) v = encodeUnionHook c (kindOf v) v.
Proof.
  remember (vsize v) as n eqn:Hn.
  revert v Hn.
  induction n as [n IH] using lt_wf_ind.
  intros v -> Hv.
  assert (forall d fs, (fieldsSize fs < vsize v)%nat ->
            agrees (VStruct d fs) = true ->
            forall out,
              structs.FillMap (fun k x => Legacy.encodeUnionHook pkg c k x) fs out
              = structs.FillMap (fun k x => encodeUnionHook c k x) fs out)
    as Hfields.
  { intros d fs Hsize Hfs. apply FillMap_ext. intros f Hf.
    pose proof (agrees_fields d fs Hfs f Hf) as Hagr.
    rewrite (agrees_Interface _ Hagr).
    eapply IH; [|done|done].
    pose proof (fieldsSize_elem fs f Hf). lia. }
  clear IH.
  destruct v as [|d b|k d n|d s|d fs|elem [pointed|]|elem l|m|x]; try done.
  - (* bool *)
    cbn [agrees isScalar andb] in Hv.
    cbn [kindOf Legacy.encodeUnionHook encodeUnionHook].
    destruct (Legacy.isBaseType _); cbn [negb orb] in Hv |- *; [|done].
    done.
  - (* integer *)
    cbn [agrees] in Hv. cbn [kindOf].
    apply andb_prop in Hv as [Hk Hv]. cbn [isScalar] in Hk.
    assert (encodeUnionHook c k (VInt k d n)
            = convertToBaseType (VInt k d n)) as -> by (by destruct k).
    assert (Legacy.encodeUnionHook pkg c k (VInt k d n)
            = if negb (Legacy.isBaseType (Legacy.valueTypeName pkg (VInt k d n)))
              then try value <- Legacy.convertToBaseType (VInt k d n) in
                   Ok (reflect_Interface value)
              else Ok (VInt k d n)) as -> by (by destruct k).
    destruct (Legacy.isBaseType _); cbn [negb orb] in Hv |- *.
    + apply bool_decide_eq_true_1 in Hv. cbn in Hv. subst d.
      cbn. by destruct (isSimpleKind k).
    + cbn. by destruct (isSimpleKind k).
  - (* string *)
    cbn [agrees isScalar andb] in Hv.
    cbn [kindOf Legacy.encodeUnionHook encodeUnionHook].
    destruct (Legacy.isBaseType _); cbn [negb orb] in Hv |- *; [|done].
    apply bool_decide_eq_true_1 in Hv. cbn in Hv. by subst d.
  - (* struct *)
    cbn [kindOf Legacy.encodeUnionHook encodeUnionHook].
    rewrite (Hfields d fs); [done| |done].
    rewrite vsize_VStruct. lia.
  - (* pointer to a value *)
    cbn [agrees] in Hv.
    assert (forall p, isScalar p = true ->
              negb (isAvroBaseType (avroVisibleName c p))
              || bool_decide (declOf p = predeclared (kindOf p)) = true ->
              Legacy.encodeUnionHook pkg c KPtr (VPtr elem (Some p))
              = encodeUnionHook c KPtr (VPtr elem (Some p))) as Hscalar.
    { intros p Hp Hagr.
      rewrite (Legacy_pointer_scalar elem p Hp).
      cbn [encodeUnionHook].
      assert (reflect_Interface p = p) as -> by (by destruct p).
      assert (encodeUnionHook c (kindOf p) p
              = convertToBaseType p) as ->.
      { destruct p as [|d b|k d n|d s| | | | |]; try done. by destruct k. }
      destruct (scalar_converted p Hp) as [Hsame Hid].
      assert (forall val, convertToBaseType p = Ok val ->
                getTypeName c p = Ok (avroVisibleName c p)) as Hname.
      { intros val _. unfold getTypeName, avroVisibleName.
        destruct (AvroName (declOf (reflect_Interface p))); [done|].
        by destruct p. }
      destruct (isAvroBaseType (avroVisibleName c p)) eqn:Hbase;
        cbn [negb orb] in Hagr.
      - apply bool_decide_eq_true_1 in Hagr.
        rewrite (Hid Hagr). cbn [rbind]. rewrite (Hname p (Hid Hagr)).
        cbn [rbind]. by rewrite Hbase.
      - rewrite Hsame.
        destruct (convertToBaseType p) as [val|e|msg] eqn:Hconv;
          cbn [rbind]; [|done|done].
        rewrite (Hname val eq_refl). cbn [rbind]. by rewrite Hbase. }
    destruct pointed as [|d b|k d n|d s|d fs| | | |]; try done;
      try (apply andb_prop in Hv as [Hp Hv]; by apply Hscalar).
    apply andb_prop in Hv as [Hbase Hfs].
    apply negb_true_iff in Hbase.
    rewrite Legacy_pointer_struct.
    cbn [kindOf encodeUnionHook reflect_Interface].
    rewrite (Hfields d fs); [| |done].
    + destruct (structs.FillMap _ fs ∅) as [m|e|msg]; cbn [rbind]; [|done|done].
      unfold getTypeName, avroVisibleName, encodeTypeName, addNamespace in *.
      cbn [reflect_Interface declOf] in *.
      destruct (AvroName d); cbn [rbind]; by rewrite Hbase.
    + change (vsize (VPtr elem (Some (VStruct d fs))))
        with (S (vsize (VStruct d fs))).
      rewrite vsize_VStruct. lia.
Qed.

(** The two versions of the encoding side agree.  On a value that
    [agrees] admits, the older [encodeUnionHook] and the one of [avro.go]
    return the same native value (or the same panic); and on such a
    struct, and on a pointer to it, the older [marshal] and the one of
    [avro.go] return the same bytes or the same error. *)
Theorem Legacy_agrees (v : GoValue) (codec : GoavroCodec) :
  agrees v = true ->
  Legacy.encodeUnionHook pkg c (kindOf v) v = encodeUnionHook c (kindOf v) v /\
  (forall d fs elem, v = VStruct d fs ->
     Legacy.marshal pkg c codec v = marshal c codec v /\
     Legacy.marshal pkg c codec (VPtr elem (Some v))
     = marshal c codec (VPtr elem (Some v))).
Proof.
  intros Hv. pose proof (agrees_hook v Hv) as Hhook.
  split; [done|].
  intros d fs elem ->.
  cbn [kindOf Legacy.encodeUnionHook encodeUnionHook] in Hhook.
  assert (structs.FillMap (fun k x => Legacy.encodeUnionHook pkg c k x) fs ∅
          = structs.FillMap (fun k x => encodeUnionHook c k x) fs ∅) as Hfs.
  { destruct (structs.FillMap (fun k x => Legacy.encodeUnionHook pkg c k x) fs ∅),
      (structs.FillMap (fun k x => encodeUnionHook c k x) fs ∅);
      cbn [rbind] in Hhook; congruence. }
  unfold Legacy.marshal, marshal.
  cbn [rbind fst snd kindOf reflect_Interface encodeUnionHook].
  rewrite Hfs.
  generalize (structs.FillMap (fun k x => encodeUnionHook c k x) fs ∅).
  intros [m|e|msg]; split; reflexivity.
Qed.
End LegacyFacts.

(** [UserDataOptional{Name: &name, Age: nil}] of the tests, under the
    namespace ["lbc"]. *)
Lemma Legacy_agrees_witness :
  Legacy.encodeUnionHook "avro"
    (mkCodec (goavro.codecOf goavro.ANull) "lbc" DefaultTypeNameEncoder)
    KStruct
    (VStruct (mkDecl "UserDataOptional" None false)
       [ ("Name", "Name",
          VPtr (TScalar KString (predeclared KString))
            (Some (Fixtures.stringValue "MyName")));
         ("Age", "Age", VPtr (TScalar KInt (predeclared KInt)) None) ])
  = encodeUnionHook
      (mkCodec (goavro.codecOf goavro.ANull) "lbc" DefaultTypeNameEncoder)
      KStruct
      (VStruct (mkDecl "UserDataOptional" None false)
         [ ("Name", "Name",
            VPtr (TScalar KString (predeclared KString))
              (Some (Fixtures.stringValue "MyName")));
           ("Age", "Age", VPtr (TScalar KInt (predeclared KInt)) None) ]).
Proof.
  apply (Legacy_agrees "avro"
           (mkCodec (goavro.codecOf goavro.ANull) "lbc" DefaultTypeNameEncoder)
           (VStruct (mkDecl "UserDataOptional" None false)
              [ ("Name", "Name",
                 VPtr (TScalar KString (predeclared KString))
                   (Some (Fixtures.stringValue "MyName")));
                ("Age", "Age", VPtr (TScalar KInt (predeclared KInt)) None) ])
           (goavro.codecOf goavro.ANull)).
  reflexivity.
Defined.

(* ===================================================================== *)
(** ** Reading under a schema that has changed *)

(** The native value that the record encoder of the reader takes for a
    field: the value of the map under the name of the field, and the
    default of the field when the map has none. *)
Definition resolve (m : gmap string GoValue)
    (sf : string * goavro.AvroType * option GoValue) : option GoValue :=
  match m !! sf.1.1 with
  | Some v => Some v
  | None => sf.2
  end.

(** The bytes of the map [m] under the fields [sfs] of the reader, and
    the map that the reader reads from them. *)
Definition rewired (m : gmap string GoValue)
    (sfs : list (string * goavro.AvroType * option GoValue)) : list Z :=
  concat ((fun sf => wireOf (default VNil (resolve m sf))) <$> sfs).

Fixpoint evolved (m : gmap string GoValue)
    (sfs : list (string * goavro.AvroType * option GoValue))
    : gmap string GoValue :=
  match sfs with
  | [] => ∅
  | sf :: sfs =>
      <[sf.1.1 := readBack (default VNil (resolve m sf)) sf.1.2]> (evolved m sfs)
  end.

(** The field [sf] of the reader finds in [m], or in its default, a
    native value that its type carries. *)
Definition resolved (m : gmap string GoValue)
    (sf : string * goavro.AvroType * option GoValue) : Prop :=
  exists v, resolve m sf = Some v /\ carried v sf.1.2 /\ nativeOf v = v.

Section Evolution.
Import goavro.

Lemma carried_noNilPointer (x : GoValue) (t : AvroType) :
  carried x t -> noNilPointer (readBack x t).
Proof. by destruct 1. Qed.

(** What the codec reads back is a native value that the same type
    carries. *)
Lemma carried_readBack (x : GoValue) (t : AvroType) :
  carried x t ->
  carried (readBack x t) t /\ nativeOf (readBack x t) = readBack x t.
Proof.
  destruct 1 as [b|k d n Hk Hd Hn|k d n Hk Hd Hn|d s Hd Hs]; (split; [|done]).
  - constructor.
  - constructor; [by_decide|done|done].
  - constructor; [by_decide|done|].
    unfold fitsKind in *.
    repeat (apply elem_of_cons in Hk as [->|Hk]; [cbn in *; lia|]).
    by apply elem_of_nil in Hk.
  - cbn. by constructor.
Qed.

Lemma readBackMap_noNilPointer fs sfs :
  Forall2 fieldCarried fs sfs ->
  map_Forall (fun _ v => noNilPointer v) (readBackMap fs sfs).
Proof.
  induction 1 as [|f sf fs sfs Hf _ IH]; [apply map_Forall_empty|].
  cbn [readBackMap]. apply map_Forall_insert_2; [|done].
  destruct Hf as (_ & _ & _ & _ & Hc). by eapply carried_noNilPointer.
Qed.

Lemma evolved_noNilPointer (m : gmap string GoValue) sfs :
  Forall (resolved m) sfs ->
  map_Forall (fun _ v => noNilPointer v) (evolved m sfs).
Proof.
  induction 1 as [|sf sfs (v & Hv & Hc & _) _ IH]; [apply map_Forall_empty|].
  cbn [evolved]. apply map_Forall_insert_2; [|done].
  rewrite Hv. by eapply carried_noNilPointer.
Qed.

Lemma encodeFields_resolved (m : gmap string GoValue) sfs :
  Forall (resolved m) sfs -> encodeFields m sfs = Ok (rewired m sfs).
Proof.
  induction 1 as [|[[name t] dflt] sfs (v & Hv & Hc & Hn) _ IH]; [done|].
  unfold rewired. rewrite fmap_cons. cbn [concat]. fold (rewired m sfs).
  rewrite Hv. cbn [default]. unfold id.
  cbn [encodeFields]. unfold resolve in Hv. cbn [fst snd] in Hv, Hc.
  assert (match m !! name with
          | Some v0 => encode t v0
          | None =>
              match dflt with
              | Some v0 => encode t v0
              | None =>
                  Err "cannot encode binary record: field value was not specified"
              end
          end = Ok (wireOf v)) as ->.
  { rewrite <- (carried_encode v t Hc), Hn.
    destruct (m !! name); [by injection Hv as ->|by subst dflt]. }
  cbn [rbind]. by rewrite IH.
Qed.

Lemma decodeFields_resolved (m : gmap string GoValue) sfs (rest : list Z) :
  Forall (resolved m) sfs ->
  decodeFields sfs (rewired m sfs ++ rest) = Ok (evolved m sfs, rest).
Proof.
  induction 1 as [|[[name t] dflt] sfs (v & Hv & Hc & Hn) _ IH]; [done|].
  unfold rewired. rewrite fmap_cons. cbn [concat]. fold (rewired m sfs).
  cbn [evolved fst snd]. rewrite Hv. cbn [default]. unfold id.
  rewrite <- app_assoc. cbn [decodeFields].
  rewrite (carried_decode v t _ Hc). cbn [rbind fst snd]. by rewrite IH.
Qed.

Lemma getCodecByID_other (E : Env) (w : World E) (ID ID' : Z) :
  ID' <> ID ->
  codecByID (registry (getCodecByID E w ID).2) !! ID' = codecByID (registry w) !! ID'.
Proof.
  intros Hne.
  destruct (codecByID (registry w) !! ID) as [codec|] eqn:Hlook.
  - by rewrite (getCodecByID_hit E w ID codec Hlook).
  - rewrite (getCodecByID_miss E w ID Hlook). cbv zeta.
    destruct (try rawSchema <- _ in _); try done.
    cbn [snd registry setCodec codecByID]. by rewrite lookup_insert_ne.
Qed.

(** The path of a message through the reader, codec by codec. *)
Lemma evolution_steps (E : Env) (c1 c2 : Codec) (n1 n2 : string)
    fs sfs1 sfs2 (to : GoType) :
  goavro_Codec c1 = codecOf (ARecord n1 sfs1) ->
  goavro_Codec c2 = codecOf (ARecord n2 sfs2) ->
  Forall2 fieldCarried fs sfs1 ->
  Forall (resolved (readBackMap fs sfs1)) sfs2 ->
  (try tmpTo <- Codec_Unmarshal E c1 (wires fs) TMap in
   try framed <- Codec_Marshal c2 tmpTo in
   Codec_Unmarshal E c2 framed to)
  = Codec_Unmarshal E c2 (rewired (readBackMap fs sfs1) sfs2) to /\
  Codec_Unmarshal E c2 (rewired (readBackMap fs sfs1) sfs2) TMap
  = Ok (VMap (evolved (readBackMap fs sfs1) sfs2)).
Proof.
  intros Hc1 Hc2 Hfs Hsfs2. split.
  - unfold Codec_Unmarshal at 1, unmarshal. rewrite Hc1.
    cbn [codecOf NativeFromBinary].
    rewrite decode_ARecord, <- (app_nil_r (wires fs)).
    rewrite (decodeFields_carried fs sfs1 [] Hfs). cbn [rbind lift fst snd].
    rewrite Decode_generic_map by (by apply readBackMap_noNilPointer).
    cbn [rbind].
    unfold Codec_Marshal, marshal.
    cbn [rbind fst snd kindOf encodeUnionHook convertToBaseType].
    rewrite Hc2. cbn [codecOf BinaryFromNative].
    rewrite encode_ARecord, (encodeFields_resolved _ _ Hsfs2). done.
  - unfold Codec_Unmarshal, unmarshal. rewrite Hc2.
    cbn [codecOf NativeFromBinary].
    rewrite decode_ARecord, <- (app_nil_r (rewired _ _)).
    rewrite (decodeFields_resolved _ _ [] Hsfs2). cbn [rbind lift fst snd].
    rewrite Decode_generic_map by (by apply evolved_noNilPointer).
    done.
Qed.

(** A message written under another schema.  The registry reads a
    record whose fields the writer's schema carries; its own schema is a
    record each of whose fields finds, in what the writer's codec reads
    back or else in its own default, a value that its type carries.
    Then [Unmarshal] returns what the codec of the current id decodes
    from the re-encoded record: the fields that both schemas have keep
    their bytes, the fields that only the reader has take the bytes of
    their defaults, and the fields that only the writer has are gone.
    Into a [map[string]interface{}] the result is the map of these
    values. *)
Theorem Unmarshal_schema_evolution (E : Env) (w w1 : World E) (c1 c2 : Codec)
    (n1 n2 : string) (fs : list (string * string * GoValue))
    (sfs1 sfs2 : list (string * AvroType * option GoValue))
    (old : Z) (to : GoType) (fuel : nat) :
  isInt32 (SchemaID (registry w)) ->
  SchemaID (registry w) <> UnknownID ->
  isInt32 old ->
  old <> SchemaID (registry w) ->
  getCodecByID E w old = (Ok c1, w1) ->
  goavro_Codec c1 = codecOf (ARecord n1 sfs1) ->
  codecByID (registry w) !! SchemaID (registry w) = Some c2 ->
  goavro_Codec c2 = codecOf (ARecord n2 sfs2) ->
  Forall2 fieldCarried fs sfs1 ->
  Forall (resolved (readBackMap fs sfs1)) sfs2 ->
  (2 <= fuel)%nat ->
  Unmarshal E fuel w (binary_Write_Header (mkHeader MagicByte old) ++ wires fs) to
  = Some (Codec_Unmarshal E c2 (rewired (readBackMap fs sfs1) sfs2) to, w1) /\
  Unmarshal E fuel w (binary_Write_Header (mkHeader MagicByte old) ++ wires fs) TMap
  = Some (Ok (VMap (evolved (readBackMap fs sfs1) sfs2)), w1).
Proof.
  intros Hrange Hknown Hold Hdiff Hget Hc1 Hcur Hc2 Hfs Hsfs2 Hfuel.
  destruct fuel as [|[|fuel]]; [lia|lia|].
  assert (forall to0,
            Unmarshal E (S (S fuel)) w
              (binary_Write_Header (mkHeader MagicByte old) ++ wires fs) to0
            = Some (Codec_Unmarshal E c2 (rewired (readBackMap fs sfs1) sfs2) to0, w1))
    as Hall.
  { intros to0. rewrite Unmarshal_unfold by done.
    unfold Unmarshal_twoRounds.
    rewrite readHeader_Write_Header by done. cbn [header_ID].
    pose proof (getCodecByID_SchemaID E w old) as HID.
    pose proof (getCodecByID_other E w old (SchemaID (registry w))
                  (not_eq_sym Hdiff)) as Hother.
    rewrite Hget in HID, Hother |- *. cbn [snd wrap] in *.
    rewrite HID, Hother, Hcur.
    rewrite !bool_decide_eq_true_2 by done. cbn [andb].
    f_equal. f_equal.
    by apply (evolution_steps E c1 c2 n1 n2 fs sfs1 sfs2 to0). }
  split; [apply Hall|].
  rewrite Hall. f_equal. f_equal.
  by apply (evolution_steps E c1 c2 n1 n2 fs sfs1 sfs2 TMap).
Qed.
End Evolution.

(** [codecV2.Unmarshal] of what [codecV1] wrote for [Person{"Nico", 36}]
    ([TestCodecRegistry_Unmarshal_version_upgrade]): the schema v2 adds
    the field [height] with the default 150. *)
Lemma Unmarshal_schema_evolution_witness :
  Unmarshal Fixtures.TestEnv 2 Fixtures.codecV2
    (binary_Write_Header (mkHeader MagicByte 0)
     ++ wires [ ("Name", "name", Fixtures.stringValue "Nico");
                ("Age", "age", Fixtures.int32Value 36) ]) TMap
  = Some (Ok (VMap (evolved
                      (readBackMap
                         [ ("Name", "name", Fixtures.stringValue "Nico");
                           ("Age", "age", Fixtures.int32Value 36) ]
                         [ ("name", goavro.AString, None);
                           ("age", goavro.AInt, None) ])
                      [ ("name", goavro.AString, None);
                        ("age", goavro.AInt, None);
                        ("height", goavro.AInt, Some (Fixtures.int32Value 150)) ])),
          mkWorld
            (setCodec (registry Fixtures.codecV2) 0
               (mkCodec (goavro.codecOf Fixtures.PersonV1) "" DefaultTypeNameEncoder))
            (remote Fixtures.codecV2)
            (calls Fixtures.codecV2 ++ [CallGetSchemaByID 0])).
Proof.
  apply (Unmarshal_schema_evolution Fixtures.TestEnv Fixtures.codecV2
           (mkWorld
              (setCodec (registry Fixtures.codecV2) 0
                 (mkCodec (goavro.codecOf Fixtures.PersonV1) "" DefaultTypeNameEncoder))
              (remote Fixtures.codecV2)
              (calls Fixtures.codecV2 ++ [CallGetSchemaByID 0]))
           (mkCodec (goavro.codecOf Fixtures.PersonV1) "" DefaultTypeNameEncoder)
           (mkCodec (goavro.codecOf Fixtures.PersonV2) "" DefaultTypeNameEncoder)
           "Person" "Person"
           [ ("Name", "name", Fixtures.stringValue "Nico");
             ("Age", "age", Fixtures.int32Value 36) ]
           [ ("name", goavro.AString, None); ("age", goavro.AInt, None) ]
           [ ("name", goavro.AString, None); ("age", goavro.AInt, None);
             ("height", goavro.AInt, Some (Fixtures.int32Value 150)) ]
           0 TMap 2).
  - by vm_compute.
  - by vm_compute.
  - by vm_compute.
  - by vm_compute.
  - reflexivity.
  - reflexivity.
  - reflexivity.
  - reflexivity.
  - repeat constructor; done.
  - constructor; [|constructor; [|constructor; [|constructor]]].
    + exists (Fixtures.stringValue "Nico").
      split; [reflexivity|split; [|reflexivity]].
      apply carried_string; [done|]. simpl. lia.
    + exists (Fixtures.int32Value 36).
      split; [reflexivity|split; [|reflexivity]].
      apply carried_int; [by_decide|done|]. unfold isInt32. lia.
    + exists (Fixtures.int32Value 150).
      split; [reflexivity|split; [|reflexivity]].
      apply carried_int; [by_decide|done|]. unfold isInt32. lia.
  - lia.
Defined.

(* ===================================================================== *)
(** ** The default names of the primitive types *)

(** [DefaultTypeNameEncoder] gives an Avro primitive name to every Go
    type name of the conversion table, and keeps an Avro primitive name
    an Avro primitive name (all of them unchanged but ["int"], which is
    read as the Go type and becomes ["long"]). *)
Theorem DefaultTypeNameEncoder_primitive (name : string) :
  is_Some (typeConversion !! name) \/ isAvroBaseType name = true ->
  isAvroBaseType (DefaultTypeNameEncoder name) = true /\
  (isAvroBaseType name = true -> name <> "int" ->
   DefaultTypeNameEncoder name = name).
Proof.
  intros [[out Hout]|Hbase].
  - unfold typeConversion in Hout. apply elem_of_list_to_map_2 in Hout.
    repeat (apply elem_of_cons in Hout as [Heq|Hout];
            [injection Heq as -> ->; by vm_compute|]).
    by apply elem_of_nil in Hout.
  - unfold isAvroBaseType in Hbase. apply bool_decide_eq_true_1 in Hbase.
    unfold avroBaseTypes in Hbase.
    repeat (apply elem_of_cons in Hbase as [->|Hbase]; [by vm_compute|]).
    by apply elem_of_nil in Hbase.
Qed.

Lemma DefaultTypeNameEncoder_primitive_witness :
  isAvroBaseType (DefaultTypeNameEncoder "uint16") = true /\
  (isAvroBaseType "uint16" = true -> "uint16" <> "int" ->
   DefaultTypeNameEncoder "uint16" = "uint16").
Proof.
  apply (DefaultTypeNameEncoder_primitive "uint16").
  left. by eexists.
Defined.

(* ===================================================================== *)
(** ** The listings of the in-memory schema registry *)

Section Listings.
Import NOOP NOOPFacts.

Lemma versions_length (l : list (string * list Schema)) :
  length (concat ((fun kv => Z.of_nat <$> seq 0 (length kv.2)) <$> l))
  = length (concat (snd <$> l)).
Proof.
  induction l as [|kv l IH]; [done|].
  rewrite !fmap_cons. cbn [concat]. rewrite !length_app, IH.
  by rewrite length_fmap, length_seq.
Qed.

Lemma elem_of_allVersions (st : State) (i : nat) :
  Z.of_nat i ∈ allVersions st <-> exists subject s, storedAt st subject i s.
Proof.
  unfold allVersions. rewrite list_elem_of_In, in_concat. split.
  - intros (l & Hl & Hi).
    apply list_elem_of_In, list_elem_of_fmap in Hl as ([subject l'] & -> & Hl).
    apply elem_of_map_to_list in Hl.
    apply list_elem_of_In, list_elem_of_fmap in Hi as (j & Hj & Hi).
    apply Nat2Z.inj in Hj as <-.
    apply elem_of_seq in Hi. cbn [snd] in Hi.
    destruct (lookup_lt_is_Some_2 l' i) as [s Hs]; [lia|].
    exists subject, s, l'. done.
  - intros (subject & s & l & Hl & Hi).
    exists (Z.of_nat <$> seq 0 (length l)). split.
    + apply list_elem_of_In, list_elem_of_fmap. exists (subject, l).
      split; [done|]. by apply elem_of_map_to_list.
    + apply list_elem_of_In, list_elem_of_fmap. exists i. split; [done|].
      apply elem_of_seq. apply lookup_lt_Some in Hi. lia.
Qed.

(** [Subjects] lists each subject of the store once, so a subject is
    listed from its first [RegisterNewSchema] to its [DeleteSubject].
    [Versions] does not look at the subject it is given, and neither
    does the list that [DeleteSubject] returns: both hold one number for
    each stored schema of every subject, and a number is in the list
    when some subject, the one asked or another, has a schema at that
    index. *)
Theorem Subjects_and_Versions (st : State) :
  (exists keys,
     (SubjectsFn st).1 = Ok keys /\ NoDup keys /\
     (forall subject, subject ∈ keys <-> is_Some (store st !! subject))) /\
  (forall subject rawSchema keys,
     (SubjectsFn (RegisterNewSchemaFn st subject rawSchema).2).1 = Ok keys ->
     subject ∈ keys) /\
  (forall subject keys,
     (SubjectsFn (DeleteSubjectFn st subject).2).1 = Ok keys ->
     subject ∉ keys) /\
  (forall subject,
     exists versions,
       (VersionsFn st subject).1 = Ok versions /\
       (DeleteSubjectFn st subject).1 = Ok versions /\
       length versions = length (concat (snd <$> map_to_list (store st))) /\
       (forall i : nat,
          Z.of_nat i ∈ versions <-> exists subject' s, storedAt st subject' i s)).
Proof.
  assert (forall st' subject,
            subject ∈ (map_to_list (store st')).*1 <-> is_Some (store st' !! subject))
    as Hkeys.
  { intros st' subject. split.
    - intros ([k l] & -> & Hl)%list_elem_of_fmap.
      apply elem_of_map_to_list in Hl. by exists l.
    - intros [l Hl]. apply list_elem_of_fmap. exists (subject, l).
      split; [done|]. by apply elem_of_map_to_list. }
  split; [|split; [|split]].
  - eexists. split; [reflexivity|]. split; [apply NoDup_fst_map_to_list|].
    apply Hkeys.
  - intros subject rawSchema keys Heq. injection Heq as <-.
    apply (Hkeys (RegisterNewSchemaFn st subject rawSchema).2).
    simpl. by rewrite lookup_insert_eq.
  - intros subject keys Heq. injection Heq as <-.
    intros Hin. apply (Hkeys (DeleteSubjectFn st subject).2) in Hin.
    simpl in Hin. rewrite lookup_delete_eq in Hin. by destruct Hin.
  - intros subject. exists (allVersions st).
    split; [done|]. split; [done|]. split.
    + apply versions_length.
    + apply elem_of_allVersions.
Qed.
End Listings.
